(** * Project Otto: history buffer, serial framing, CRC, target selection

    A shallow embedding of the parts of the perception-and-targeting core
    whose contracts are checked here:

    - [uart/_crc.py]: the table-driven CRC-8 and CRC-16,
    - [uart/_transceiver.py]: the framed serial transceiver,
    - [time/_timestamped_history_buffer.py]: the odometry history buffer,
    - [target_selection/_select_target.py]: weighted target selection,
    - [spatial/_orientation.py]: quaternion normalisation,
    - [target_tracker/_kalman_tracked_target.py]: the initial Kalman state.

    Python integers are [Z]; [bytes] values are lists of [Byte.byte];
    dictionaries are [gmap]s; exceptions are explicit result values. *)

From Stdlib Require Import ZArith List Bool Lia.
From Stdlib.Strings Require Import Byte.
From Stdlib Require Import Reals Lra.
From Stdlib Require PrimFloat FloatAxioms.
From stdpp Require Import base option list gmap.

Import ListNotations.
Local Open Scope Z_scope.

(** ** Bytes *)

Module Bytes.

(** The integer a byte denotes when a [bytes] object is iterated. *)
Definition byte_to_Z (b : byte) : Z := Z.of_N (Byte.to_N b).

(** The byte with value [z mod 256]. *)
Definition Z_to_byte (z : Z) : byte :=
  match Byte.of_N (Z.to_N (z mod 256)) with
  | Some b => b
  | None => x00
  end.

(** [struct.pack("B", n)]: fails outside [0, 255]. *)
Definition pack_B (n : Z) : option (list byte) :=
  if (0 <=? n) && (n <=? 255) then Some [Z_to_byte n] else None.

(** [struct.pack("<H", n)]: little endian, fails outside [0, 65535]. *)
Definition pack_H (n : Z) : option (list byte) :=
  if (0 <=? n) && (n <=? 65535)
  then Some [Z_to_byte (Z.land n 255); Z_to_byte (Z.shiftr n 8)]
  else None.

(** [struct.unpack("<H", bs)[0]] on two bytes. *)
Definition unpack_H (lo hi : byte) : Z :=
  Z.lor (byte_to_Z lo) (Z.shiftl (byte_to_Z hi) 8).

(** [a == b] on [bytes] values. *)
Fixpoint bytes_eqb (a b : list byte) : bool :=
  match a, b with
  | [], [] => true
  | x :: a', y :: b' => Byte.eqb x y && bytes_eqb a' b'
  | _, _ => false
  end.

End Bytes.
Import Bytes.

(** ** uart/_crc.py *)

Module Crc.

(** Python's [range(start, stop, step)] for a positive step. *)
Definition py_range (start stop step : nat) : list nat :=
  map (fun k => (start + k * step)%nat)
      (seq 0 (Nat.div (stop - start + (step - 1)) step)).

(** [table[j]] for an index the loops keep inside the table. *)
Definition table_get (table : list Z) (j : nat) : Z := nth j table 0.

(** One round of the outer loop of [compute_table]: shift the register,
    then fill the entries whose highest set bit is bit [i]. *)
Definition table_round (poly : Z) (acc : Z * list Z) (i : nat) : Z * list Z :=
  let '(crc, table) := acc in
  let crc := if Z.testbit crc 0
             then Z.lxor (Z.shiftr crc 1) poly
             else Z.shiftr crc 1 in
  (crc,
   fold_left
     (fun table j => <[(2 ^ i + j)%nat := Z.lxor crc (table_get table j)]> table)
     (py_range 0 255 (2 ^ (i + 1)))
     table).

Definition compute_table (poly : Z) : list Z :=
  snd (fold_left (table_round poly) (rev (seq 0 8)) (1, repeat 0 256)).

Definition CRC8_TABLE : list Z := Eval vm_compute in compute_table 0x8C.
Definition CRC16_TABLE : list Z := Eval vm_compute in compute_table 0x8408.

Definition crc8_step (checksum : Z) (b : byte) : Z :=
  table_get CRC8_TABLE (Z.to_nat (Z.lxor checksum (byte_to_Z b))).

Definition crc8 (data : list byte) (crc_init : Z) : Z :=
  fold_left crc8_step data crc_init.

Definition crc16_step (checksum : Z) (b : byte) : Z :=
  Z.lxor (Z.shiftr checksum 8)
         (table_get CRC16_TABLE
            (Z.to_nat (Z.land (Z.lxor checksum (byte_to_Z b)) 0xFF))).

Definition crc16 (data : list byte) (init_crc : Z) : Z :=
  Z.land (fold_left crc16_step data init_crc) 0xFFFF.

Definition crc8_default : Z := 0xFF.
Definition crc16_default : Z := 0xFFFF.

(** The bytes of the ASCII string 123456789. *)
Definition check_string : list byte := [x31; x32; x33; x34; x35; x36; x37; x38; x39].

End Crc.
Import Crc.

(** ** Exceptions and the state-and-error monad

    A Python method runs on an object that outlives the call even when the
    call raises, so a computation returns its outcome together with the
    state it leaves behind. Besides the Python exceptions there are two
    outcomes of the model: [Blocked], a blocking read that waits for bytes
    the port does not hold, and [OutOfFuel], a loop cut off by its bound
    (shown below never to happen). *)

Inductive exn : Type :=
| ValueError
| IndexError
| AttributeError
| StructError
| BufferEntryTooOldError (new_timestamp existing_latest_timestamp : Z)
| MessageParseUnhandledError
| Blocked
| OutOfFuel.

Inductive result (A : Type) : Type :=
| Ok (a : A)
| Raise (e : exn).
Arguments Ok {A} a.
Arguments Raise {A} e.

Definition M (S A : Type) : Type := S -> result A * S.

Definition ret {S A} (a : A) : M S A := fun s => (Ok a, s).

Definition bind {S A B} (m : M S A) (k : A -> M S B) : M S B :=
  fun s => match m s with
           | (Ok a, s') => k a s'
           | (Raise e, s') => (Raise e, s')
           end.

Definition raise {S A} (e : exn) : M S A := fun s => (Raise e, s).

Definition get {S} : M S S := fun s => (Ok s, s).

Definition put {S} (s : S) : M S unit := fun _ => (Ok tt, s).

(** Lifts a read-only computation that may raise. *)
Definition lift {S A} (r : S -> result A) : M S A := fun s => (r s, s).

Declare Scope monad_scope.
Delimit Scope monad_scope with monad.
Notation "x <- m ;; k" := (bind m (fun x => k))
  (at level 100, m at next level, right associativity) : monad_scope.
Notation "m ;;; k" := (bind m (fun _ => k))
  (at level 100, right associativity) : monad_scope.

(** ** time/_timestamp.py and time/_duration.py *)

Record Duration : Type := mkDuration { duration_microsecs : Z }.

Record Timestamp : Type := mkTimestamp { time_microsecs : Z }.

Module Time.

(** [Timestamp.__sub__] on two timestamps. *)
Definition ts_sub (a b : Timestamp) : Duration :=
  mkDuration (time_microsecs a - time_microsecs b).

Definition ts_le (a b : Timestamp) : bool := time_microsecs a <=? time_microsecs b.

Definition ts_lt (a b : Timestamp) : bool := time_microsecs a <? time_microsecs b.

(** [a > b] on timestamps: the class defines no [__gt__], Python falls back
    to the reflected [b.__lt__(a)]. *)
Definition ts_gt (a b : Timestamp) : bool := ts_lt b a.

Definition dur_abs (d : Duration) : Duration := mkDuration (Z.abs (duration_microsecs d)).

Definition dur_lt (a b : Duration) : bool := duration_microsecs a <? duration_microsecs b.

(** [a > b] on durations, through the reflected [__lt__]. *)
Definition dur_gt (a b : Duration) : bool := dur_lt b a.

End Time.
Import Time.

(** ** bisect.bisect_left

    The standard library's binary search: [lo] and [hi] close in on the
    insertion point. The fuel is the length of the list, which bounds the
    number of halvings. *)

Fixpoint bisect_loop (fuel : nat) (a : list Timestamp) (x : Timestamp) (lo hi : nat) : nat :=
  match fuel with
  | O => lo
  | S fuel' =>
      if (lo <? hi)%nat then
        let mid := ((lo + hi) / 2)%nat in
        match a !! mid with
        | Some am => if ts_lt am x
                     then bisect_loop fuel' a x (mid + 1)%nat hi
                     else bisect_loop fuel' a x lo mid
        | None => lo
        end
      else lo
  end.

Definition bisect_left (a : list Timestamp) (x : Timestamp) : nat :=
  bisect_loop (length a) a x 0%nat (length a).

(** ** time/_timestamped_history_buffer.py *)

Module HistoryBuffer.
Section Buffer.
Context {Value : Type}.
Local Open Scope monad_scope.

Record TimestampedHistoryBuffer : Type := mkBuffer {
  _max_entries : Z;
  _maximum_entry_age : Duration;
  _keys : list Timestamp;
  _data : list Value }.

Local Abbreviation buffer := TimestampedHistoryBuffer.

(** [TimestampedHistoryBuffer.__init__] *)
Definition init (max_entries : Z) (maximum_entry_age : Duration) : result buffer :=
  if max_entries <=? 0 then Raise ValueError
  else if duration_microsecs maximum_entry_age <=? 0 then Raise ValueError
  else Ok (mkBuffer max_entries maximum_entry_age [] []).

Definition num_entries (b : buffer) : Z := Z.of_nat (length (_data b)).

(** [self._keys[0]] and [self._keys[-1]] raise on an empty list. *)
Definition oldest_timestamp (b : buffer) : result (option Timestamp) :=
  if (length (_data b) =? 0)%nat then Ok None
  else match head (_keys b) with
       | Some k => Ok (Some k)
       | None => Raise IndexError
       end.

Definition latest_timestamp (b : buffer) : result (option Timestamp) :=
  if (length (_data b) =? 0)%nat then Ok None
  else match last (_keys b) with
       | Some k => Ok (Some k)
       | None => Raise IndexError
       end.

(** [self._keys.pop(0)] *)
Definition pop_key : M buffer Timestamp := fun b =>
  match _keys b with
  | k :: keys' => (Ok k, mkBuffer (_max_entries b) (_maximum_entry_age b) keys' (_data b))
  | [] => (Raise IndexError, b)
  end.

(** [self._data.pop(0)] *)
Definition pop_data : M buffer Value := fun b =>
  match _data b with
  | d :: data' => (Ok d, mkBuffer (_max_entries b) (_maximum_entry_age b) (_keys b) data')
  | [] => (Raise IndexError, b)
  end.

(** The loop test of [_remove_expired_items]. The [or] and the [and] short
    circuit; a [Timestamp] object is always truthy, [None] is falsy. *)
Definition expired_test (latest : Timestamp) (b : buffer) : result bool :=
  if Z.of_nat (length (_data b)) >? _max_entries b then Ok true
  else match oldest_timestamp b with
       | Raise e => Raise e
       | Ok None => Ok false
       | Ok (Some oldest) =>
           Ok (dur_gt (dur_abs (ts_sub latest oldest)) (_maximum_entry_age b))
       end.

(** The [while] loop of [_remove_expired_items]. *)
Fixpoint remove_expired_loop (fuel : nat) (latest : Timestamp) : M buffer unit :=
  match fuel with
  | O => raise OutOfFuel
  | S fuel' =>
      continue <- lift (expired_test latest) ;;
      if continue : bool
      then pop_key ;;; pop_data ;;; remove_expired_loop fuel' latest
      else ret tt
  end.

(** Every round pops one value, so the number of values bounds the rounds. *)
Definition _remove_expired_items (latest : Timestamp) : M buffer unit := fun b =>
  remove_expired_loop (S (length (_data b))) latest b.

Definition append_entry (timestamp : Timestamp) (value : Value) : M buffer unit := fun b =>
  (Ok tt, mkBuffer (_max_entries b) (_maximum_entry_age b)
                   (_keys b ++ [timestamp]) (_data b ++ [value])).

(** [TimestampedHistoryBuffer.add] *)
Definition add (timestamp : Timestamp) (value : Value) : M buffer unit :=
  latest <- lift latest_timestamp ;;
  match latest with
  | Some l =>
      if ts_le timestamp l
      then raise (BufferEntryTooOldError (time_microsecs timestamp) (time_microsecs l))
      else append_entry timestamp value ;;; _remove_expired_items timestamp
  | None => append_entry timestamp value ;;; _remove_expired_items timestamp
  end.

(** [TimestampedHistoryBuffer.clear]: only [_data] is cleared. *)
Definition clear : M buffer unit := fun b =>
  (Ok tt, mkBuffer (_max_entries b) (_maximum_entry_age b) (_keys b) []).

(** [self._data[i]] for a non-negative index. *)
Definition data_at (b : buffer) (i : nat) : result (option Value) :=
  match _data b !! i with
  | Some v => Ok (Some v)
  | None => Raise IndexError
  end.

(** [self._data[-1]] *)
Definition data_last (b : buffer) : result (option Value) :=
  match last (_data b) with
  | Some v => Ok (Some v)
  | None => Raise IndexError
  end.

(** [TimestampedHistoryBuffer.search] *)
Definition search (timestamp : Timestamp) (b : buffer) : result (option Value) :=
  match latest_timestamp b with
  | Raise e => Raise e
  | Ok latest =>
  match oldest_timestamp b with
  | Raise e => Raise e
  | Ok oldest =>
      if (length (_data b) =? 0)%nat then Ok None
      else match latest, oldest with
      | Some latest, Some oldest =>
          if ts_lt timestamp oldest || ts_gt timestamp latest then Ok None
          else
            let pos := bisect_left (_keys b) timestamp in
            if (pos =? 0)%nat then data_at b pos
            else if (pos =? length (_keys b))%nat then data_last b
            else
              match _keys b !! (pos - 1)%nat, _keys b !! pos with
              | Some earlier_t, Some later_t =>
                  let closest_pos :=
                    if dur_lt (dur_abs (ts_sub earlier_t timestamp))
                              (dur_abs (ts_sub later_t timestamp))
                    then (pos - 1)%nat else pos in
                  data_at b closest_pos
              | _, _ => Raise IndexError
              end
      | _, _ => Ok None
      end
  end end.

(** [TimestampedHistoryBuffer.apply] *)
Definition apply {A : Type} (func : Timestamp -> A) (b : buffer) : list A :=
  map func (_keys b).

(** The states a buffer object can be in: built by the constructor, then
    changed by [add] (whether or not it raises) and [clear]; [search],
    [apply] and the observers do not change it. *)
Inductive reachable : buffer -> Prop :=
| reach_init max_entries maximum_entry_age b :
    init max_entries maximum_entry_age = Ok b -> reachable b
| reach_add timestamp value b :
    reachable b -> reachable (snd (add timestamp value b))
| reach_clear b :
    reachable b -> reachable (snd (clear b)).

(** Keys and values are stored in step, with strictly increasing keys, and
    the configuration is the one the constructor accepts. *)
Definition strictly_increasing (keys : list Timestamp) : Prop :=
  forall i j ki kj, keys !! i = Some ki -> keys !! j = Some kj ->
    (i < j)%nat -> time_microsecs ki < time_microsecs kj.

Definition aligned (b : buffer) : Prop :=
  length (_keys b) = length (_data b) /\ strictly_increasing (_keys b).

End Buffer.
Arguments TimestampedHistoryBuffer : clear implicits.
End HistoryBuffer.

(** ** Python floats

    The numeric code is written once over an interface of the float
    operations it uses, and read in two ways: as IEEE 754 binary64, the
    floats Python and NumPy compute with (executable), and as exact real
    arithmetic (the idealisation in which the algebraic laws are stated). *)

Class Float (F : Type) : Type := {
  f_zero : F;
  f_one : F;
  f_add : F -> F -> F;
  f_sub : F -> F -> F;
  f_mul : F -> F -> F;
  f_div : F -> F -> F;
  f_opp : F -> F;
  f_abs : F -> F;
  f_sqrt : F -> F;
  f_ltb : F -> F -> bool;
  f_leb : F -> F -> bool }.

#[export] Instance binary64 : Float PrimFloat.float := {|
  f_zero := PrimFloat.zero;
  f_one := PrimFloat.one;
  f_add := PrimFloat.add;
  f_sub := PrimFloat.sub;
  f_mul := PrimFloat.mul;
  f_div := PrimFloat.div;
  f_opp := PrimFloat.opp;
  f_abs := PrimFloat.abs;
  f_sqrt := PrimFloat.sqrt;
  f_ltb := PrimFloat.ltb;
  f_leb := PrimFloat.leb |}.

#[export] Instance exact_real : Float R := {|
  f_zero := 0%R;
  f_one := 1%R;
  f_add := Rplus;
  f_sub := Rminus;
  f_mul := Rmult;
  f_div := Rdiv;
  f_opp := Ropp;
  f_abs := Rabs;
  f_sqrt := R_sqrt.sqrt;
  f_ltb := fun a b => if Rlt_dec a b then true else false;
  f_leb := fun a b => if Rle_dec a b then true else false |}.

Declare Scope py_float_scope.
Delimit Scope py_float_scope with pf.
Notation "a + b" := (f_add a b) : py_float_scope.
Notation "a - b" := (f_sub a b) : py_float_scope.
Notation "a * b" := (f_mul a b) : py_float_scope.
Notation "a / b" := (f_div a b) : py_float_scope.
Notation "- a" := (f_opp a) : py_float_scope.

(** ** target_selection/_select_target.py *)

Module TargetSelection.
Section Select.
Context {F : Type} `{Float F} {Target : Type}.

(** [TargetSelectionRule]: an object with a [get_score] method; [None]
    disqualifies the target. *)
Record TargetSelectionRule : Type := mkRule {
  get_score : Target -> option F }.

Record TargetSelectorConfiguration : Type := mkSelectorConfig {
  maximum_score_threshold : option F;
  max_radius : F }.

(** [_evaluate_target]: the loop body, on the running [weighted_score]. *)
Definition evaluate_step (target : Target) (weighted_score : option F)
    (rule_weight : TargetSelectionRule * F) : option F :=
  match weighted_score with
  | None => None
  | Some score =>
      match get_score (fst rule_weight) target with
      | None => None
      | Some rule_score => Some (f_add score (f_mul (snd rule_weight) rule_score))
      end
  end.

Definition _evaluate_target (rules : list (TargetSelectionRule * F)) (target : Target)
    : option F :=
  fold_left (evaluate_step target) rules (Some f_zero).

Definition _is_under_maximum_score (config : TargetSelectorConfiguration) (score : F) : bool :=
  match maximum_score_threshold config with
  | None => true
  | Some threshold => f_ltb score threshold
  end.

(** The list comprehension building [valid_targets]. *)
Fixpoint valid_targets_of (config : TargetSelectorConfiguration)
    (target_scores : list (Target * option F)) : list (Target * F) :=
  match target_scores with
  | [] => []
  | (target, Some score) :: rest =>
      if _is_under_maximum_score config score
      then (target, score) :: valid_targets_of config rest
      else valid_targets_of config rest
  | (target, None) :: rest => valid_targets_of config rest
  end.

(** The builtin [min(iterable, key=...)] on a non-empty sequence: the first
    item is the running minimum, and a later item replaces it only when its
    key is strictly smaller. *)
Definition py_min_by {A : Type} (key : A -> F) (first : A) (rest : list A) : A :=
  fold_left (fun best item => if f_ltb (key item) (key best) then item else best)
            rest first.

Definition select_target (config : TargetSelectorConfiguration)
    (rules : list (TargetSelectionRule * F)) (targets : list Target) : option Target :=
  let target_scores := map (fun target => (target, _evaluate_target rules target)) targets in
  let valid_targets := valid_targets_of config target_scores in
  match valid_targets with
  | [] => None
  | first :: rest => Some (fst (py_min_by snd first rest))
  end.

(** A target is valid with weighted score [s]: no rule disqualifies it and
    the score is under the configured maximum. *)
Definition valid_with (config : TargetSelectorConfiguration)
    (rules : list (TargetSelectionRule * F)) (target : Target) (s : F) : Prop :=
  _evaluate_target rules target = Some s /\ _is_under_maximum_score config s = true.

(** The weighted scores of the valid targets among [targets]. *)
Definition valid_score (config : TargetSelectorConfiguration)
    (rules : list (TargetSelectionRule * F)) (targets : list Target) (s : F) : Prop :=
  exists target, In target targets /\ valid_with config rules target s.

(** The comparison [<] is a strict weak order on the scores satisfying
    [P]; on floats this fails only when a score is NaN. *)
Definition ordered_scores (P : F -> Prop) : Prop :=
  (forall a, P a -> f_ltb a a = false) /\
  (forall a b c, P a -> P b -> P c ->
     f_ltb a b = true -> f_ltb b c = true -> f_ltb a c = true) /\
  (forall a b c, P a -> P b -> P c ->
     f_ltb a b = false -> f_ltb b c = false -> f_ltb a c = false).

(** The running minimum of [min]: nothing yet, or the best item so far. *)
Definition best_of (valid_targets : list (Target * F)) : option (Target * F) :=
  match valid_targets with
  | [] => None
  | first :: rest => Some (py_min_by snd first rest)
  end.

(** [valid_targets] as [select_target] builds it. *)
Definition valid_list (config : TargetSelectorConfiguration)
    (rules : list (TargetSelectionRule * F)) (targets : list Target) : list (Target * F) :=
  valid_targets_of config (map (fun target => (target, _evaluate_target rules target)) targets).

(** The invariant of the scan: the running minimum is a valid target, no
    valid target seen so far scores strictly less, and every valid target
    before it scores strictly more. *)
Definition first_minimum (config : TargetSelectorConfiguration)
    (rules : list (TargetSelectionRule * F)) (targets : list Target)
    (best : Target) (s : F) : Prop :=
  exists i, targets !! i = Some best /\ valid_with config rules best s /\
    forall j tj sj, targets !! j = Some tj -> valid_with config rules tj sj ->
      f_ltb sj s = false /\ ((j < i)%nat -> f_ltb s sj = true).

(** Two rule lists that give every target the same scores with the same
    weights. *)
Definition same_scoring (rules rules' : list (TargetSelectionRule * F)) : Prop :=
  Forall2 (fun rw rw' => snd rw = snd rw' /\
                         forall target, get_score (fst rw) target = get_score (fst rw') target)
          rules rules'.

End Select.
Arguments TargetSelectionRule : clear implicits.
Arguments TargetSelectorConfiguration : clear implicits.
End TargetSelection.
(** ** transforms3d.quaternions

    The third-party quaternion routines the spatial classes call, on
    quaternions [(w, x, y, z)]. *)

Module Quaternions.
Section Quat.
Context {F : Type} `{Float F}.
Local Open Scope py_float_scope.

Definition quat : Type := F * F * F * F.

(** [qnorm(q) = sqrt(dot(q, q))] *)
Definition qnorm (q : quat) : F :=
  let '(w, x, y, z) := q in
  f_sqrt (w * w + x * x + y * y + z * z).

(** [qconjugate(q) = q * [1.0, -1, -1, -1]] *)
Definition qconjugate (q : quat) : quat :=
  let '(w, x, y, z) := q in
  (w * f_one, x * - f_one, y * - f_one, z * - f_one).

Definition qmult (q1 q2 : quat) : quat :=
  let '(w1, x1, y1, z1) := q1 in
  let '(w2, x2, y2, z2) := q2 in
  (w1 * w2 - x1 * x2 - y1 * y2 - z1 * z2,
   w1 * x2 + x1 * w2 + y1 * z2 - z1 * y2,
   w1 * y2 + y1 * w2 + z1 * x2 - x1 * z2,
   w1 * z2 + z1 * w2 + x1 * y2 - y1 * x2).

(** [rotate_vector(v, q)]: the vector part of [q * (0, v) * conj(q)]. *)
Definition rotate_vector (v : F * F * F) (q : quat) : F * F * F :=
  let '(vx, vy, vz) := v in
  let '(_, x, y, z) := qmult q (qmult (f_zero, vx, vy, vz) (qconjugate q)) in
  (x, y, z).

End Quat.
End Quaternions.

(** ** spatial/_position.py, spatial/_vector.py *)

Module Position.
Section Pos.
Context {F : Type}.
Record Position : Type := mk { x : F; y : F; z : F }.
Definition as_tuple (p : Position) : F * F * F := (x p, y p, z p).
Definition from_values (values : F * F * F) : Position :=
  let '(a, b, c) := values in mk a b c.
End Pos.
Arguments Position : clear implicits.
End Position.

Module Vector.
Section Vec.
Context {F : Type}.
Record Vector : Type := mk { x : F; y : F; z : F }.
Definition as_tuple (v : Vector) : F * F * F := (x v, y v, z v).
Definition from_values (values : F * F * F) : Vector :=
  let '(a, b, c) := values in mk a b c.
End Vec.
Arguments Vector : clear implicits.
End Vector.

(** ** spatial/_orientation.py *)

Module Orientation.
Section Orient.
Context {F : Type} `{Float F}.
Local Open Scope py_float_scope.

(** The dataclass fields; [fields] is the raw record, [new] the constructor
    with its [__post_init__] hook. *)
Record Orientation : Type := fields { w : F; x : F; y : F; z : F }.

Definition as_tuple (q : Orientation) : Quaternions.quat := (w q, x q, y q, z q).

Definition _normalize_in_place (q : Orientation) : Orientation :=
  let norm := Quaternions.qnorm (as_tuple q) in
  fields (w q / norm) (x q / norm) (y q / norm) (z q / norm).

(** [Orientation(w, x, y, z)] *)
Definition new (w x y z : F) : Orientation :=
  _normalize_in_place (fields w x y z).

(** [Orientation.from_values]: a collection of any other length than four
    is rejected. *)
Definition from_values (values : list F) : result Orientation :=
  match values with
  | [a; b; c; d] => Ok (new a b c d)
  | _ => Raise ValueError
  end.

Definition of_identity : Orientation := new f_one f_zero f_zero f_zero.

(** [Orientation.from_euler_angles], over the library's [euler2quat]. *)
Definition from_euler_angles (euler2quat : F -> F -> F -> Quaternions.quat)
    (roll pitch yaw : F) : Orientation :=
  let '(a, b, c, d) := euler2quat yaw pitch roll in new a b c d.

Definition conjugate (q : Orientation) : Orientation :=
  let '(a, b, c, d) := Quaternions.qconjugate (as_tuple q) in new a b c d.

(** The squared norm [w*w + x*x + y*y + z*z]. *)
Definition norm_sq (q : Orientation) : F :=
  w q * w q + x q * x q + y q * y q + z q * z q.

(** The deviation of the norm from one is below [tolerance]. *)
Definition unit_within (tolerance : F) (q : Orientation) : bool :=
  f_ltb (f_abs (Quaternions.qnorm (as_tuple q) - f_one)) tolerance.

End Orient.
Arguments Orientation : clear implicits.
End Orientation.

(** ** spatial/_transform.py *)

Module Transform.
Section Trans.
Context {F : Type} `{Float F}.
Local Open Scope py_float_scope.

Record Transform : Type := mk {
  translation : Position.Position F;
  rotation : Orientation.Orientation F }.

Definition _rotate_vector (vector : Vector.Vector F)
    (rotation : Orientation.Orientation F) : Vector.Vector F :=
  Vector.from_values
    (Quaternions.rotate_vector (Vector.as_tuple vector) (Orientation.as_tuple rotation)).

Definition apply_to_vector (t : Transform) (vector : Vector.Vector F) : Vector.Vector F :=
  let reverse_rotation := Orientation.conjugate (rotation t) in
  _rotate_vector vector reverse_rotation.

Definition apply_to_position (t : Transform) (position : Position.Position F)
    : Position.Position F :=
  let un_rotated :=
    Vector.mk (Position.x position - Position.x (translation t))
              (Position.y position - Position.y (translation t))
              (Position.z position - Position.z (translation t)) in
  let rotated := apply_to_vector t un_rotated in
  Position.from_values (Vector.as_tuple rotated).

Definition get_inverse (t : Transform) : Transform :=
  let '(pos_x, pos_y, pos_z) := Position.as_tuple (translation t) in
  let rot_inverse := Orientation.conjugate (rotation t) in
  let pos_negation := Position.from_values (- pos_x, - pos_y, - pos_z) in
  let pos_inverse :=
    Position.from_values
      (Vector.as_tuple
         (_rotate_vector (Vector.from_values (Position.as_tuple pos_negation)) rot_inverse)) in
  mk pos_inverse rot_inverse.

(** Coordinate-wise agreement within [tolerance]. *)
Definition close_to (tolerance : F) (p q : Position.Position F) : bool :=
  f_leb (f_abs (Position.x p - Position.x q)) tolerance &&
  f_leb (f_abs (Position.y p - Position.y q)) tolerance &&
  f_leb (f_abs (Position.z p - Position.z q)) tolerance.

End Trans.
Arguments Transform : clear implicits.
End Transform.
(** ** spatial/_linear_uncertainty.py, spatial/_measured_position.py *)

Module Measurement.
Section Meas.
Context {F : Type} `{Float F}.

Definition matrix : Type := list (list F).

(** [np.diag(m)] of a two-dimensional array: its main diagonal. *)
Definition np_diag (m : matrix) : list F :=
  imap (fun i row => nth i row f_zero) m.

(** [np.diag(v)] of a one-dimensional array: the diagonal matrix. *)
Definition np_diag_matrix (v : list F) : matrix :=
  imap (fun i a => imap (fun j _ => if (i =? j)%nat then a else f_zero) v) v.

Record LinearUncertainty : Type := mkUncertainty { covariance : matrix }.

(** [LinearUncertainty.__post_init__]: the matrix must be 3 by 3. *)
Definition new_uncertainty (covariance : matrix) : result LinearUncertainty :=
  if (length covariance =? 3)%nat && forallb (fun row => (length row =? 3)%nat) covariance
  then Ok (mkUncertainty covariance)
  else Raise ValueError.

Definition from_variances (x_variance y_variance z_variance : F) : result LinearUncertainty :=
  new_uncertainty (np_diag_matrix [x_variance; y_variance; z_variance]).

Record MeasuredPosition : Type := mkMeasured {
  position : Position.Position F;
  uncertainty : LinearUncertainty }.

End Meas.
Arguments matrix : clear implicits.
Arguments LinearUncertainty : clear implicits.
Arguments MeasuredPosition : clear implicits.
End Measurement.

(** ** target_tracker/_kalman_tracked_target.py *)

Module KalmanTrackedTarget.
Section Kalman.
Context {F : Type} `{Float F}.
Local Open Scope py_float_scope.

(** The fields of [TargetConfiguration] that the constructor reads before
    its first filter update. *)
Record TargetConfiguration : Type := mkTargetConfig {
  num_independent_vars : nat;
  num_derivatives : nat;
  num_measured_vars : nat;
  initial_derivative_variance : list F }.

Definition tensor4 : Type := list (list (list (list F))).

(** [np.eye(n)[i, j]] *)
Definition eye (i j : nat) : F := if (i =? j)%nat then f_one else f_zero.

Definition f_sum (terms : list F) : F := fold_left f_add terms f_zero.

Definition entry (var : Measurement.matrix F) (i j : nat) : F :=
  nth j (nth i var []) f_zero.

(** [var_to_covar]: the Einstein sum ["ij,ik,jl,im,jn->klmn"] of [var] with
    four identity matrices. *)
Definition var_to_covar (var : Measurement.matrix F) : tensor4 :=
  let rows := length var in
  let cols := length (nth 0 var []) in
  map (fun k => map (fun l => map (fun m => map (fun n =>
    f_sum (flat_map (fun i => map (fun j =>
             entry var i j * eye i k * eye j l * eye i m * eye j n)
           (seq 0 cols)) (seq 0 rows)))
    (seq 0 cols)) (seq 0 rows)) (seq 0 cols)) (seq 0 rows).

Definition tensor_get (t : tensor4) (k l m n : nat) : F :=
  nth n (nth m (nth l (nth k t []) []) []) f_zero.

(** [np.array(rows)] of a list of lists: the rows must have one length. *)
Definition np_array_2d (rows : Measurement.matrix F) : result (Measurement.matrix F) :=
  match rows with
  | [] => Ok []
  | first :: _ =>
      if forallb (fun row => (length row =? length first)%nat) rows
      then Ok rows else Raise ValueError
  end.

(** The estimate [KalmanTrackedTarget.__init__] assembles as [_x] and [_s]
    before it runs the first measurement update. *)
Definition initial_estimate (config : TargetConfiguration)
    (init_measurement : Measurement.MeasuredPosition F)
    : result (Measurement.matrix F * tensor4) :=
  let expected_uncertainty_length :=
    (num_derivatives config * num_independent_vars config)%nat in
  if negb (length (initial_derivative_variance config) =? expected_uncertainty_length)%nat
  then Raise ValueError
  else
    let '(px, py, pz) := Position.as_tuple (Measurement.position init_measurement) in
    match np_array_2d [[px; py; pz]; [f_zero; f_zero; f_zero]; [f_zero; f_zero; f_zero]] with
    | Raise e => Raise e
    | Ok _x =>
        match np_array_2d
                [Measurement.np_diag
                   (Measurement.covariance (Measurement.uncertainty init_measurement));
                 take 3 (initial_derivative_variance config);
                 drop 3 (initial_derivative_variance config)] with
        | Raise e => Raise e
        | Ok var => Ok (_x, var_to_covar var)
        end
    end.

End Kalman.
Arguments TargetConfiguration : clear implicits.
Arguments tensor4 : clear implicits.
End KalmanTrackedTarget.
(** ** uart/_message.py, uart/_handler.py *)

(** [SerializableMessage]: a message with a type id and an encoding. *)
Class SerializableMessage (Msg : Type) : Type := {
  get_type_id : Msg -> Z;
  serialize : Msg -> list byte }.

Module Uart.
Section Transceiver.
Context {Msg : Type}.
Local Open Scope monad_scope.

(** [RxHandler]: the type id of its message class and the class's [parse],
    which returns [None] where the Python method raises. *)
Record RxHandler : Type := mkHandler {
  type_id : Z;
  msg_parse : list byte -> option Msg }.

(** ** uart/_transceiver.py *)

Definition HEADER_START : list byte := [xa5].
Definition HEADER_SIZE : nat := 4.
Definition MSG_TYPE_SIZE : nat := 2.
Definition FOOTER_SIZE : nat := 2.

Inductive States : Type :=
| WAITING_FOR_HEADER
| READING_HEADER
| READING_BODY.

(** What the receiver does to the world: log records and handler calls. *)
Inductive event : Type :=
| LogHeaderFound (discarded_bytes : Z)
| LogThrewOut (discarded_bytes : Z)
| LogHeaderCrcFailed (calculated_crc8 received_crc8 : Z)
| LogBodyCrcFailed (calculated_crc16 received_crc16 : Z) (msg_len : Z)
| WarnNoHandler (msg_type : Z) (msg_data : list byte)
| Handle (handler_type_id : Z) (msg : Msg) (timestamp : Timestamp).

(** The transceiver object together with what it acts on: the bytes waiting
    in the serial port, the bytes written to it, the clock (the [n]-th call
    of [get_current_time] returns [_get_current_time n]) and the events so
    far. *)
Record Transceiver : Type := mkTransceiver {
  discarded_bytes_warning_threshold : Z;
  _handler_dict : gmap Z RxHandler;
  _get_current_time : nat -> Timestamp;
  _state : States;
  _msg_len : Z;
  _msg_running_crc16 : Z;
  last_header_receipt_timestamp : option Timestamp;
  _bytes_thrown_away_since_last_message : Z;
  _bytes_thrown_away_since_last_log : Z;
  serial_in : list byte;
  serial_out : list byte;
  clock_reads : nat;
  events : list event }.

(** [Transceiver.__init__]: handlers are registered by type id; two handlers
    with one type id are rejected. *)
Fixpoint register_handlers (msg_handlers : list RxHandler) (dict : gmap Z RxHandler)
    : result (gmap Z RxHandler) :=
  match msg_handlers with
  | [] => Ok dict
  | handler :: rest =>
      match dict !! type_id handler with
      | Some _ => Raise ValueError
      | None => register_handlers rest (<[type_id handler := handler]> dict)
      end
  end.

Definition init (threshold : Z) (msg_handlers : list RxHandler)
    (get_current_time : nat -> Timestamp) (pending : list byte) : result Transceiver :=
  match register_handlers msg_handlers ∅ with
  | Raise e => Raise e
  | Ok dict =>
      Ok (mkTransceiver threshold dict get_current_time WAITING_FOR_HEADER 0 0 None 0 0
                        pending [] 0 [])
  end.

(** *** Field updates *)

Definition set_state (s : States) : M Transceiver unit := fun t =>
  (Ok tt, mkTransceiver (discarded_bytes_warning_threshold t) (_handler_dict t)
     (_get_current_time t) s (_msg_len t) (_msg_running_crc16 t)
     (last_header_receipt_timestamp t) (_bytes_thrown_away_since_last_message t)
     (_bytes_thrown_away_since_last_log t) (serial_in t) (serial_out t)
     (clock_reads t) (events t)).

Definition set_msg_len (n : Z) : M Transceiver unit := fun t =>
  (Ok tt, mkTransceiver (discarded_bytes_warning_threshold t) (_handler_dict t)
     (_get_current_time t) (_state t) n (_msg_running_crc16 t)
     (last_header_receipt_timestamp t) (_bytes_thrown_away_since_last_message t)
     (_bytes_thrown_away_since_last_log t) (serial_in t) (serial_out t)
     (clock_reads t) (events t)).

Definition set_msg_running_crc16 (c : Z) : M Transceiver unit := fun t =>
  (Ok tt, mkTransceiver (discarded_bytes_warning_threshold t) (_handler_dict t)
     (_get_current_time t) (_state t) (_msg_len t) c
     (last_header_receipt_timestamp t) (_bytes_thrown_away_since_last_message t)
     (_bytes_thrown_away_since_last_log t) (serial_in t) (serial_out t)
     (clock_reads t) (events t)).

Definition set_thrown_away (since_message since_log : Z) : M Transceiver unit := fun t =>
  (Ok tt, mkTransceiver (discarded_bytes_warning_threshold t) (_handler_dict t)
     (_get_current_time t) (_state t) (_msg_len t) (_msg_running_crc16 t)
     (last_header_receipt_timestamp t) since_message since_log
     (serial_in t) (serial_out t) (clock_reads t) (events t)).

(** [self.last_header_receipt_timestamp = self._get_current_time()] *)
Definition stamp_header_receipt : M Transceiver unit := fun t =>
  (Ok tt, mkTransceiver (discarded_bytes_warning_threshold t) (_handler_dict t)
     (_get_current_time t) (_state t) (_msg_len t) (_msg_running_crc16 t)
     (Some (_get_current_time t (clock_reads t)))
     (_bytes_thrown_away_since_last_message t)
     (_bytes_thrown_away_since_last_log t) (serial_in t) (serial_out t)
     (S (clock_reads t)) (events t)).

(** A call to the logger or to a handler. *)
Definition emit (e : event) : M Transceiver unit := fun t =>
  (Ok tt, mkTransceiver (discarded_bytes_warning_threshold t) (_handler_dict t)
     (_get_current_time t) (_state t) (_msg_len t) (_msg_running_crc16 t)
     (last_header_receipt_timestamp t) (_bytes_thrown_away_since_last_message t)
     (_bytes_thrown_away_since_last_log t) (serial_in t) (serial_out t)
     (clock_reads t) (events t ++ [e])).

(** *** The serial port *)

Definition in_waiting (t : Transceiver) : nat := length (serial_in t).

(** [self.serial.read(size)]: returns [size] bytes, waiting for them if the
    port holds fewer. *)
Definition serial_read (size : nat) : M Transceiver (list byte) := fun t =>
  if (length (serial_in t) <? size)%nat then (Raise Blocked, t)
  else
    (Ok (take size (serial_in t)),
     mkTransceiver (discarded_bytes_warning_threshold t) (_handler_dict t)
       (_get_current_time t) (_state t) (_msg_len t) (_msg_running_crc16 t)
       (last_header_receipt_timestamp t) (_bytes_thrown_away_since_last_message t)
       (_bytes_thrown_away_since_last_log t) (drop size (serial_in t)) (serial_out t)
       (clock_reads t) (events t)).

(** [self.serial.write(data)] *)
Definition serial_write (data : list byte) : M Transceiver unit := fun t =>
  (Ok tt, mkTransceiver (discarded_bytes_warning_threshold t) (_handler_dict t)
     (_get_current_time t) (_state t) (_msg_len t) (_msg_running_crc16 t)
     (last_header_receipt_timestamp t) (_bytes_thrown_away_since_last_message t)
     (_bytes_thrown_away_since_last_log t) (serial_in t) (serial_out t ++ data)
     (clock_reads t) (events t)).

(** *** Sending *)

(** The package [send] builds; [struct.pack] rejects a body longer than
    65535 bytes, a sequence number outside a byte and a type id outside two
    bytes. *)
Definition package_of `{SerializableMessage Msg} (msg : Msg) (seq_num : Z)
    : result (list byte) :=
  let data := serialize msg in
  match pack_H (Z.of_nat (length data)), pack_B seq_num with
  | Some len_bytes, Some seq_bytes =>
      let header := HEADER_START ++ len_bytes ++ seq_bytes in
      match pack_B (crc8 header crc8_default) with
      | None => Raise StructError
      | Some crc8_bytes =>
          let header := header ++ crc8_bytes in
          match pack_H (get_type_id msg) with
          | None => Raise StructError
          | Some type_bytes =>
              let body := type_bytes ++ data in
              match pack_H (crc16 (header ++ body) crc16_default) with
              | None => Raise StructError
              | Some crc16_bytes => Ok (header ++ body ++ crc16_bytes)
              end
          end
      end
  | _, _ => Raise StructError
  end.

(** [Transceiver.send] *)
Definition send `{SerializableMessage Msg} (msg : Msg) (seq_num : Z) : M Transceiver unit :=
  match package_of msg seq_num with
  | Raise e => raise e
  | Ok package => serial_write package
  end.

(** *** Receiving *)

(** [Transceiver.reset_states] *)
Definition reset_states : M Transceiver unit :=
  set_state WAITING_FOR_HEADER ;;; set_msg_len 0 ;;; set_msg_running_crc16 0.

(** How a block of the loop body hands over: to the next [if] of the same
    round, out of the loop, or to the next round with an updated packet
    count. *)
Inductive control : Type :=
| Fallthrough
| Break
| Continue (num_processed_packets : nat).

Definition is_blocking (max_packets : option nat) : bool :=
  match max_packets with None => true | Some _ => false end.

(** The block for [States.WAITING_FOR_HEADER]. *)
Definition waiting_for_header (max_packets : option nat) : M Transceiver control :=
  t <- get ;;
  if negb (is_blocking max_packets) && (in_waiting t <? 1)%nat then ret Break
  else
    first <- serial_read 1 ;;
    (if bytes_eqb first HEADER_START
     then
       set_state READING_HEADER ;;;
       stamp_header_receipt ;;;
       t <- get ;;
       if 0 <? _bytes_thrown_away_since_last_message t
       then emit (LogHeaderFound (_bytes_thrown_away_since_last_message t)) ;;;
            set_thrown_away 0 (_bytes_thrown_away_since_last_log t)
       else ret tt
     else
       t <- get ;;
       set_thrown_away (_bytes_thrown_away_since_last_message t + 1)
                       (_bytes_thrown_away_since_last_log t + 1)) ;;;
    t <- get ;;
    (if discarded_bytes_warning_threshold t <? _bytes_thrown_away_since_last_log t
     then emit (LogThrewOut (_bytes_thrown_away_since_last_log t)) ;;;
          set_thrown_away (_bytes_thrown_away_since_last_message t) 0
     else ret tt) ;;;
    ret Fallthrough.

(** The block for [States.READING_HEADER]. *)
Definition reading_header (max_packets : option nat) (num_processed_packets : nat)
    : M Transceiver control :=
  t <- get ;;
  if negb (is_blocking max_packets) && (in_waiting t <? HEADER_SIZE)%nat then ret Break
  else
    header_bytes <- serial_read HEADER_SIZE ;;
    match header_bytes with
    | [len_lo; len_hi; seq; received] =>
        let received_crc8 := byte_to_Z received in
        set_msg_len (unpack_H len_lo len_hi) ;;;
        let calculated_crc8 := crc8 (HEADER_START ++ take 3 header_bytes) crc8_default in
        if negb (calculated_crc8 =? received_crc8)
        then
          emit (LogHeaderCrcFailed calculated_crc8 received_crc8) ;;;
          set_state WAITING_FOR_HEADER ;;;
          ret (Continue (num_processed_packets + 1))
        else
          set_msg_running_crc16 (crc16 (HEADER_START ++ header_bytes) crc16_default) ;;;
          set_state READING_BODY ;;;
          ret Fallthrough
    | _ => raise StructError
    end.

(** The block for [States.READING_BODY]. *)
Definition reading_body (max_packets : option nat) (num_processed_packets : nat)
    : M Transceiver control :=
  t <- get ;;
  let body_size := (MSG_TYPE_SIZE + Z.to_nat (_msg_len t) + FOOTER_SIZE)%nat in
  if negb (is_blocking max_packets) && (in_waiting t <? body_size)%nat then ret Break
  else
    msg_type_raw <- serial_read MSG_TYPE_SIZE ;;
    msg_data <- serial_read (Z.to_nat (_msg_len t)) ;;
    received_crc16_raw <- serial_read FOOTER_SIZE ;;
    match msg_type_raw, received_crc16_raw with
    | [type_lo; type_hi], [crc_lo; crc_hi] =>
        let msg_type := unpack_H type_lo type_hi in
        let received_crc16 := unpack_H crc_lo crc_hi in
        let running := crc16 (msg_type_raw ++ msg_data) (_msg_running_crc16 t) in
        set_msg_running_crc16 running ;;;
        if negb (running =? received_crc16)
        then
          emit (LogBodyCrcFailed running received_crc16 (_msg_len t)) ;;;
          set_state WAITING_FOR_HEADER ;;;
          ret (Continue (num_processed_packets + 1))
        else
          match _handler_dict t !! msg_type with
          | None =>
              emit (WarnNoHandler msg_type msg_data) ;;;
              reset_states ;;;
              ret (Continue (num_processed_packets + 1))
          | Some handler =>
              match msg_parse handler msg_data with
              | None => reset_states ;;; raise MessageParseUnhandledError
              | Some msg =>
                  match last_header_receipt_timestamp t with
                  | None => raise AttributeError
                  | Some timestamp =>
                      emit (Handle (type_id handler) msg timestamp) ;;;
                      reset_states ;;;
                      ret (Continue (num_processed_packets + 1))
                  end
              end
          end
    | _, _ => raise StructError
    end.

Definition in_state (s : States) (t : Transceiver) : bool :=
  match _state t, s with
  | WAITING_FOR_HEADER, WAITING_FOR_HEADER
  | READING_HEADER, READING_HEADER
  | READING_BODY, READING_BODY => true
  | _, _ => false
  end.

(** One round of the [while] loop of [process_in], after its test. *)
Definition loop_body (max_packets : option nat) (num_processed_packets : nat)
    : M Transceiver control :=
  if match max_packets with
     | Some limit => (limit <? num_processed_packets)%nat
     | None => false
     end
  then ret Break
  else
    t <- get ;;
    c <- (if in_state WAITING_FOR_HEADER t then waiting_for_header max_packets
          else ret Fallthrough) ;;
    match c with
    | Fallthrough =>
        t <- get ;;
        c <- (if in_state READING_HEADER t
              then reading_header max_packets num_processed_packets
              else ret Fallthrough) ;;
        match c with
        | Fallthrough =>
            t <- get ;;
            if in_state READING_BODY t
            then reading_body max_packets num_processed_packets
            else ret (Continue num_processed_packets)
        | _ => ret c
        end
    | _ => ret c
    end.

(** The test of the [while] loop. *)
Definition loop_test (max_packets : option nat) (num_processed_packets : nat)
    (t : Transceiver) : bool :=
  match max_packets with
  | None => true
  | Some limit => negb (in_waiting t =? 0)%nat && (num_processed_packets <? limit)%nat
  end.

Fixpoint process_loop (fuel : nat) (max_packets : option nat)
    (num_processed_packets : nat) : M Transceiver unit :=
  match fuel with
  | O => raise OutOfFuel
  | S fuel' =>
      t <- get ;;
      if loop_test max_packets num_processed_packets t
      then
        c <- loop_body max_packets num_processed_packets ;;
        match c with
        | Continue num => process_loop fuel' max_packets num
        | _ => ret tt
        end
      else ret tt
  end.

(** [Transceiver.process_in]. Every round that goes on to a next one reads
    at least one byte, so the rounds are bounded by the bytes waiting. *)
Definition process_in (max_packets : option nat) : M Transceiver unit := fun t =>
  process_loop (S (in_waiting t)) max_packets 0 t.

(** The packet count has not passed the cap (the [break] at the top of the
    loop body is not taken). *)
Definition within_limit (max_packets : option nat) (num : nat) : Prop :=
  match max_packets with
  | Some limit => (limit <? num)%nat = false
  | None => True
  end.

(** A well-formed frame starts these bytes: the start byte, a header whose
    CRC-8 matches, a body of the length the header announces (with the two
    bytes of the type id) and a footer that matches the CRC-16 of all
    before it, computed as the receiver does. *)
Definition frame_at_head (input : list byte) : bool :=
  match input with
  | start :: l0 :: l1 :: sq :: c8 :: rest =>
      let body_len := (MSG_TYPE_SIZE + Z.to_nat (unpack_H l0 l1))%nat in
      bytes_eqb [start] HEADER_START &&
      (crc8 (HEADER_START ++ [l0; l1; sq]) crc8_default =? byte_to_Z c8) &&
      match drop body_len rest with
      | f0 :: f1 :: _ =>
          crc16 (take body_len rest) (crc16 (HEADER_START ++ [l0; l1; sq; c8]) crc16_default)
          =? unpack_H f0 f1
      | _ => false
      end
  | _ => false
  end.

(** A well-formed frame starts somewhere in these bytes. *)
Fixpoint holds_frame (input : list byte) : bool :=
  match input with
  | [] => false
  | _ :: rest => frame_at_head input || holds_frame rest
  end.

(** The bytes of a package that the receiver scans anew after it has
    rejected the header of the package corrupted at offset [i]: the bytes
    behind the start byte when the start byte was corrupted, the bytes
    behind the five header bytes when another header byte was, none when the
    corruption lies behind the header. *)
Definition rescanned (i : nat) (package : list byte) : list byte :=
  if (i =? 0)%nat then drop 1 package
  else if (i <? 5)%nat then drop 5 package
  else [].

(** The handler calls among the events. *)
Definition handler_calls (evs : list event) : list (Z * Msg * Timestamp) :=
  omap (fun e => match e with
                 | Handle tid msg ts => Some (tid, msg, ts)
                 | _ => None
                 end) evs.

End Transceiver.
Arguments RxHandler : clear implicits.
Arguments Transceiver : clear implicits.
Arguments event : clear implicits.
End Uart.
(** ** Concrete inputs used by the examples below *)

Module Examples.
Import HistoryBuffer.

(** A buffer of capacity 10 and maximal age 1000 microseconds holding the
    entry (100, 1). *)
Definition one_entry_buffer : TimestampedHistoryBuffer nat :=
  snd (add (mkTimestamp 100) 1%nat (mkBuffer 10 (mkDuration 1000) [] [])).

(** The same buffer after [clear()]. *)
Definition cleared_buffer : TimestampedHistoryBuffer nat :=
  snd (clear one_entry_buffer).

(** A fresh buffer with the same configuration. *)
Definition fresh_buffer : TimestampedHistoryBuffer nat :=
  mkBuffer 10 (mkDuration 1000) [] [].

(** [add(100, 1); clear(); add(105, 2); add(109, 3)] *)
Definition refilled_buffer : TimestampedHistoryBuffer nat :=
  snd (add (mkTimestamp 109) 3%nat (snd (add (mkTimestamp 105) 2%nat cleared_buffer))).

(** Float literals, read as Python reads them: the nearest binary64. *)
Module Literals.
Import PrimFloat.
#[local] Set Warnings "-inexact-float".
Definition two : float := 2%float.
Definition half : float := 0.5%float.
Definition quarter : float := 0.25%float.
Definition three_tenths : float := 0.3%float.
Definition _1e16 : float := 1e16%float.
Definition _1e11 : float := 1e11%float.
Definition _1e13 : float := 1e13%float.
Definition _1e_6 : float := 1e-6%float.
End Literals.

(** Four targets, named by number, scored by one rule of weight 0.5:
    target 1 scores 2, targets 2 and 3 score 1, target 4 is disqualified. *)
Definition example_rule : TargetSelection.TargetSelectionRule PrimFloat.float nat :=
  TargetSelection.mkRule
    (fun target : nat =>
       match target with
       | 1%nat => Some Literals.two
       | 2%nat | 3%nat => Some PrimFloat.one
       | _ => None
       end).

Definition example_rules : list (TargetSelection.TargetSelectionRule PrimFloat.float nat * PrimFloat.float) :=
  [(example_rule, Literals.half)].

Definition example_config : TargetSelection.TargetSelectorConfiguration PrimFloat.float :=
  TargetSelection.mkSelectorConfig None PrimFloat.one.

Definition example_targets : list nat := [1; 2; 3; 4]%nat.

(** The all-zero quadruple given to the [Orientation] constructor. *)
Definition zero_orientation : Orientation.Orientation PrimFloat.float :=
  Orientation.new PrimFloat.zero PrimFloat.zero PrimFloat.zero PrimFloat.zero.

(** A pure translation by 1e16 along the first axis, and the position
    (0.3, 0, 0). *)
Definition far_transform : Transform.Transform PrimFloat.float :=
  Transform.mk (Position.mk Literals._1e16 PrimFloat.zero PrimFloat.zero)
               Orientation.of_identity.

Definition near_position : Position.Position PrimFloat.float :=
  Position.mk Literals.three_tenths PrimFloat.zero PrimFloat.zero.

(** The plate configuration (three variables, two derivatives) with
    derivative variances 1 for the velocity and 2 for the acceleration, and
    a first measurement at (0.5, 0.25, 2) with variance 0.25 on each axis. *)
Definition example_target_config : KalmanTrackedTarget.TargetConfiguration PrimFloat.float :=
  KalmanTrackedTarget.mkTargetConfig 3 2 3
    [PrimFloat.one; PrimFloat.one; PrimFloat.one; Literals.two; Literals.two; Literals.two].

Definition example_measurement : Measurement.MeasuredPosition PrimFloat.float :=
  Measurement.mkMeasured
    (Position.mk Literals.half Literals.quarter Literals.two)
    (Measurement.mkUncertainty
       (Measurement.np_diag_matrix [Literals.quarter; Literals.quarter; Literals.quarter])).

(** Messages that are their own encoding, under type id 7, and a handler
    for them. *)
#[export] Instance raw_message : SerializableMessage (list byte) := {|
  get_type_id := fun _ => 7;
  serialize := fun data => data |}.

Definition raw_handler : Uart.RxHandler (list byte) :=
  Uart.mkHandler 7 (fun data => Some data).

(** A receiver with that handler, waiting for a header, with [input]
    waiting in its port; its clock counts the calls. *)
Definition receiver_with (input : list byte) : Uart.Transceiver (list byte) :=
  Uart.mkTransceiver 20 {[ 7 := raw_handler ]} (fun n => mkTimestamp (Z.of_nat n))
    Uart.WAITING_FOR_HEADER 0 0 None 0 0 input [] 0 [].

Definition small_message : list byte := [x01; x02].

(** The package of [small_message] with sequence number 0. *)
Definition small_package : list byte :=
  [xa5; x02; x00; x00; x8c; x07; x00; x01; x02; x0f; x94].

(** The package of the message whose data are the bytes of
    [small_package]. *)
Definition nested_package : list byte :=
  [xa5; x0b; x00; x00; x02; x07; x00] ++ small_package ++ [x3f; x1a].

End Examples.
Import Examples.

(** ** Bitwise CRC division

    The reference the tables of [uart/_crc.py] are documented against
    (the division remainders for all possible single bytes): eight rounds of
    the reflected shift register with polynomial [poly]. *)

Module CrcReference.

Definition shift_xor (poly r : Z) : Z :=
  if Z.testbit r 0 then Z.lxor (Z.shiftr r 1) poly else Z.shiftr r 1.

Definition bitwise_remainder (poly b : Z) : Z :=
  Nat.iter 8 (shift_xor poly) b.

End CrcReference.

(** ** Sending several messages, uart/_perservering_receiver.py *)

Module UartStream.
Section Stream.
Context {Msg : Type} `{SerializableMessage Msg}.
Local Open Scope monad_scope.

(** [send] called for each message of a list in turn, each with its
    sequence number. *)
Fixpoint send_all (msgs : list (Msg * Z)) : M (Uart.Transceiver Msg) unit :=
  match msgs with
  | [] => ret tt
  | (msg, seq_num) :: rest => Uart.send msg seq_num ;;; send_all rest
  end.

(** The packages of the messages, one after the other. *)
Fixpoint stream_of (msgs : list (Msg * Z)) : result (list byte) :=
  match msgs with
  | [] => Ok []
  | (msg, seq_num) :: rest =>
      match Uart.package_of msg seq_num with
      | Raise e => Raise e
      | Ok package =>
          match stream_of rest with
          | Raise e => Raise e
          | Ok stream => Ok (package ++ stream)
          end
      end
  end.

(** One handler call per message, in order, each stamped with the next
    reading of the clock. *)
Fixpoint calls_in_order (now : nat -> Timestamp) (clock_reads : nat) (msgs : list (Msg * Z))
    : list (Z * Msg * Timestamp) :=
  match msgs with
  | [] => []
  | (msg, _) :: rest =>
      (get_type_id msg, msg, now clock_reads) :: calls_in_order now (S clock_reads) rest
  end.

End Stream.

(** More bytes arrive at the port. *)
Definition receive_bytes {Msg : Type} (bytes : list byte) (t : Uart.Transceiver Msg)
    : Uart.Transceiver Msg :=
  Uart.mkTransceiver (Uart.discarded_bytes_warning_threshold t) (Uart._handler_dict t)
    (Uart._get_current_time t) (Uart._state t) (Uart._msg_len t) (Uart._msg_running_crc16 t)
    (Uart.last_header_receipt_timestamp t) (Uart._bytes_thrown_away_since_last_message t)
    (Uart._bytes_thrown_away_since_last_log t) (Uart.serial_in t ++ bytes) (Uart.serial_out t)
    (Uart.clock_reads t) (Uart.events t).

End UartStream.

Module PerseveringReceiver.
Section Persevering.
(** The child receiver: its state and its [process_in]. *)
Context {Child : Type}.
Variable child_process_in : option nat -> M Child unit.

Record PerseveringReceiver : Type := mkReceiver {
  child_receiver : Child;
  max_num_parse_errors : Z;
  error_counter : Z }.

(** [PerseveringReceiver.__init__] *)
Definition init (receiver : Child) (num_of_errors : Z) : PerseveringReceiver :=
  mkReceiver receiver num_of_errors 0.

(** How a call ends: it returns, it raises again what the child raised, or
    it raises [Exception("Too many messages failed to parse.")]. *)
Inductive outcome : Type :=
| Returned
| Reraised (error : exn)
| TooManyParseErrors.

(** The [while True] loop of [process_in]. *)
Fixpoint process_loop (fuel : nat) (max_packets : option nat) (r : PerseveringReceiver)
    : outcome * PerseveringReceiver :=
  match fuel with
  | O => (Reraised OutOfFuel, r)
  | S fuel' =>
      match child_process_in max_packets (child_receiver r) with
      | (Ok _, child) =>
          (Returned, mkReceiver child (max_num_parse_errors r) (error_counter r))
      | (Raise MessageParseUnhandledError, child) =>
          let counter := error_counter r + 1 in
          if max_num_parse_errors r <=? counter
          then (TooManyParseErrors, mkReceiver child (max_num_parse_errors r) 0)
          else process_loop fuel' max_packets
                 (mkReceiver child (max_num_parse_errors r) counter)
      | (Raise error, child) =>
          (Reraised error, mkReceiver child (max_num_parse_errors r) (error_counter r))
      end
  end.

(** [PerseveringReceiver.process_in]. Every further round follows a parse
    error that raised the counter, and the loop is left once the counter
    reaches the maximum. *)
Definition process_in (max_packets : option nat) (r : PerseveringReceiver)
    : outcome * PerseveringReceiver :=
  process_loop (S (Z.to_nat (max_num_parse_errors r - error_counter r))) max_packets r.

End Persevering.
Arguments PerseveringReceiver : clear implicits.
End PerseveringReceiver.

(** ** Further small instances *)

Module MoreExamples.

(** A receiver without handlers, and one whose handler for type id 7 parses
    nothing. *)
Definition receiver_without_handlers (input : list byte) : Uart.Transceiver (list byte) :=
  Uart.mkTransceiver 20 ∅ (fun n => mkTimestamp (Z.of_nat n))
    Uart.WAITING_FOR_HEADER 0 0 None 0 0 input [] 0 [].

Definition failing_handler : Uart.RxHandler (list byte) :=
  Uart.mkHandler 7 (fun _ => None).

Definition receiver_with_failing_handler (input : list byte) : Uart.Transceiver (list byte) :=
  Uart.mkTransceiver 20 {[ 7 := failing_handler ]} (fun n => mkTimestamp (Z.of_nat n))
    Uart.WAITING_FOR_HEADER 0 0 None 0 0 input [] 0 [].

(** Two messages with their sequence numbers. *)
Definition two_messages : list (list byte * Z) := [(small_message, 0); ([x03], 1)].

(** Three targets scored by one rule of weight 1: target 1 scores NaN,
    targets 2 and 3 score 0.5. *)
Definition nan_rule : TargetSelection.TargetSelectionRule PrimFloat.float nat :=
  TargetSelection.mkRule
    (fun target : nat =>
       match target with
       | 1%nat => Some PrimFloat.nan
       | 2%nat | 3%nat => Some Literals.half
       | _ => None
       end).

Definition nan_rules
    : list (TargetSelection.TargetSelectionRule PrimFloat.float nat * PrimFloat.float) :=
  [(nan_rule, PrimFloat.one)].

(** A configuration with the maximum score 0.75. *)
Definition capped_config : TargetSelection.TargetSelectorConfiguration PrimFloat.float :=
  TargetSelection.mkSelectorConfig (Some (PrimFloat.sub PrimFloat.one Literals.quarter))
    PrimFloat.one.

End MoreExamples.
Import MoreExamples.

(** * Proofs *)

(** ** CRC check values *)

(** C8 (as stated, refuted): from the default initial value 0xFF, crc8 of
    the check string 123456789 is not 0xA1. *)
Lemma crc8_default_check_not_A1 :
  crc8 check_string crc8_default <> 0xA1.
Proof. vm_compute. discriminate. Qed.

(** C8 (amended): the tables are the ones [compute_table] builds from the
    reflected polynomials 0x8C and 0x8408; crc8 of the check string
    123456789 is 0xA1 from the initial value 0x00 (the CRC-8/MAXIM-DOW
    parameters) and 0x0B from the default initial value 0xFF; crc16 of the
    same bytes from the default initial value 0xFFFF is 0x6F91. *)
Theorem crc_check_vectors :
  CRC8_TABLE = compute_table 0x8C /\
  CRC16_TABLE = compute_table 0x8408 /\
  crc8 check_string 0x00 = 0xA1 /\
  crc8 check_string crc8_default = 0x0B /\
  crc16 check_string crc16_default = 0x6F91.
Proof. repeat split; vm_compute; reflexivity. Qed.

(** ** Bytes and bit operations *)

Module BytesProofs.

Lemma byte_to_Z_range (b : byte) : 0 <= byte_to_Z b < 256.
Proof.
  unfold byte_to_Z. pose proof (Byte.to_N_bounded b). lia.
Qed.

Lemma byte_to_Z_inj (a b : byte) : byte_to_Z a = byte_to_Z b -> a = b.
Proof.
  unfold byte_to_Z. intros Heq. apply N2Z.inj in Heq.
  pose proof (Byte.of_to_N a) as Ha. rewrite Heq, Byte.of_to_N in Ha. congruence.
Qed.

Lemma Z_to_byte_to_Z (b : byte) : Z_to_byte (byte_to_Z b) = b.
Proof.
  unfold Z_to_byte. rewrite Z.mod_small by apply byte_to_Z_range.
  unfold byte_to_Z. rewrite N2Z.id, Byte.of_to_N. reflexivity.
Qed.

Lemma byte_to_Z_to_byte (z : Z) : 0 <= z < 256 -> byte_to_Z (Z_to_byte z) = z.
Proof.
  intros Hz. unfold Z_to_byte. rewrite Z.mod_small by exact Hz.
  destruct (Byte.of_N (Z.to_N z)) as [b|] eqn:E.
  - apply Byte.to_of_N in E. unfold byte_to_Z. rewrite E. lia.
  - apply Byte.of_N_None_iff in E. lia.
Qed.

Lemma lxor_bound (n a b : Z) :
  0 <= n -> 0 <= a < 2 ^ n -> 0 <= b < 2 ^ n -> 0 <= Z.lxor a b < 2 ^ n.
Proof.
  intros Hn Ha Hb.
  assert (Hnn : 0 <= Z.lxor a b) by (apply Z.lxor_nonneg; lia).
  split; [exact Hnn|].
  destruct (Z.eq_dec (Z.lxor a b) 0) as [->|Hne]; [lia|].
  apply Z.log2_lt_pow2; [lia|].
  pose proof (Z.log2_lxor a b ltac:(lia) ltac:(lia)) as Hlog.
  assert (Hla : a = 0 \/ Z.log2 a < n).
  { destruct (Z.eq_dec a 0); [auto|right; apply Z.log2_lt_pow2; lia]. }
  assert (Hlb : b = 0 \/ Z.log2 b < n).
  { destruct (Z.eq_dec b 0); [auto|right; apply Z.log2_lt_pow2; lia]. }
  destruct Hla as [->|Hla], Hlb as [->|Hlb].
  - rewrite Z.lxor_0_l in Hne. lia.
  - rewrite Z.lxor_0_l in *. lia.
  - rewrite Z.lxor_0_r in *. lia.
  - lia.
Qed.

Lemma lxor_cancel_r (a b c : Z) : Z.lxor a c = Z.lxor b c -> a = b.
Proof.
  intros Heq.
  assert (Ha : a = Z.lxor (Z.lxor a c) c)
    by (rewrite Z.lxor_assoc, Z.lxor_nilpotent, Z.lxor_0_r; reflexivity).
  assert (Hb : b = Z.lxor (Z.lxor b c) c)
    by (rewrite Z.lxor_assoc, Z.lxor_nilpotent, Z.lxor_0_r; reflexivity).
  rewrite Ha, Hb, Heq. reflexivity.
Qed.

Lemma lxor_cancel_l (a b c : Z) : Z.lxor c a = Z.lxor c b -> a = b.
Proof. rewrite !(Z.lxor_comm c). apply lxor_cancel_r. Qed.

Lemma land_lxor_distr_l (a b c : Z) :
  Z.land (Z.lxor a b) c = Z.lxor (Z.land a c) (Z.land b c).
Proof.
  apply Z.bits_inj'. intros n Hn.
  rewrite Z.land_spec, !Z.lxor_spec, !Z.land_spec.
  destruct (Z.testbit a n), (Z.testbit b n), (Z.testbit c n); reflexivity.
Qed.

Lemma land_255 (a : Z) : Z.land a 255 = a mod 256.
Proof. change 255 with (Z.ones 8). rewrite Z.land_ones by lia. reflexivity. Qed.

Lemma shiftr_8 (a : Z) : Z.shiftr a 8 = a / 256.
Proof. rewrite Z.shiftr_div_pow2 by lia. reflexivity. Qed.

(** Two bytes in little-endian order denote [lo + 256 * hi]. *)
Lemma unpack_H_value (lo hi : byte) :
  unpack_H lo hi = byte_to_Z lo + 256 * byte_to_Z hi.
Proof.
  unfold unpack_H.
  pose proof (byte_to_Z_range lo) as Hlo. pose proof (byte_to_Z_range hi) as Hhi.
  assert (Hland : Z.land (byte_to_Z lo) (Z.shiftl (byte_to_Z hi) 8) = 0).
  { apply Z.bits_inj'. intros n Hn. rewrite Z.land_spec, Z.bits_0.
    destruct (Z.lt_ge_cases n 8).
    - rewrite Z.shiftl_spec_low by lia. apply andb_false_r.
    - rewrite (Z.bits_above_log2 (byte_to_Z lo)); [reflexivity | lia |].
      destruct (Z.eq_dec (byte_to_Z lo) 0) as [->|]; [simpl; lia|].
      apply Z.lt_le_trans with 8; [apply Z.log2_lt_pow2; lia | lia]. }
  rewrite <- Z.lxor_lor by exact Hland.
  rewrite <- Z.add_nocarry_lxor by exact Hland.
  rewrite Z.shiftl_mul_pow2 by lia. lia.
Qed.

Lemma unpack_H_range (lo hi : byte) : 0 <= unpack_H lo hi < 65536.
Proof.
  rewrite unpack_H_value.
  pose proof (byte_to_Z_range lo). pose proof (byte_to_Z_range hi). lia.
Qed.

Lemma unpack_H_inj (lo hi lo' hi' : byte) :
  unpack_H lo hi = unpack_H lo' hi' -> lo = lo' /\ hi = hi'.
Proof.
  rewrite !unpack_H_value.
  pose proof (byte_to_Z_range lo). pose proof (byte_to_Z_range hi).
  pose proof (byte_to_Z_range lo'). pose proof (byte_to_Z_range hi').
  intros Heq. split; apply byte_to_Z_inj; lia.
Qed.

(** [struct.unpack] inverts [struct.pack] on two-byte integers. *)
Lemma pack_H_unpack (n : Z) (lo hi : byte) :
  pack_H n = Some [lo; hi] -> unpack_H lo hi = n /\ 0 <= n <= 65535.
Proof.
  unfold pack_H. destruct ((0 <=? n) && (n <=? 65535)) eqn:E; [|discriminate].
  apply andb_prop in E. destruct E as [E1 E2].
  intros [= <- <-]. split; [|lia].
  rewrite unpack_H_value, land_255, shiftr_8.
  rewrite !byte_to_Z_to_byte.
  - pose proof (Z.div_mod n 256). lia.
  - split; [apply Z.div_pos; lia | apply Z.div_lt_upper_bound; lia].
  - apply Z.mod_pos_bound. lia.
Qed.

Lemma pack_H_Some (n : Z) :
  0 <= n <= 65535 ->
  pack_H n = Some [Z_to_byte (Z.land n 255); Z_to_byte (Z.shiftr n 8)].
Proof.
  intros Hn. unfold pack_H.
  destruct ((0 <=? n) && (n <=? 65535)) eqn:E; [reflexivity|].
  apply andb_false_iff in E. destruct E; lia.
Qed.

Lemma pack_B_Some (n : Z) : 0 <= n <= 255 -> pack_B n = Some [Z_to_byte n].
Proof.
  intros Hn. unfold pack_B.
  destruct ((0 <=? n) && (n <=? 255)) eqn:E; [reflexivity|].
  apply andb_false_iff in E. destruct E; lia.
Qed.

Lemma bytes_eqb_eq (a b : list byte) : bytes_eqb a b = true <-> a = b.
Proof.
  revert b. induction a as [|x a IH]; intros [|y b]; cbn; try (split; congruence).
  rewrite andb_true_iff, IH. split.
  - intros [Hxy ->]. apply Byte.byte_dec_bl in Hxy. congruence.
  - intros [= -> ->]. split; [apply Byte.byte_dec_lb|]; reflexivity.
Qed.

End BytesProofs.
(** ** Error detection of the table-driven CRCs *)

Module CrcProofs.
Import BytesProofs.

(** *** A register updated byte by byte *)

Section Register.
Variable step : Z -> byte -> Z.
Variable in_range : Z -> Prop.
Hypothesis step_range : forall s b, in_range s -> in_range (step s b).
Hypothesis step_inj_state :
  forall s1 s2 b, in_range s1 -> in_range s2 -> step s1 b = step s2 b -> s1 = s2.
Hypothesis step_inj_byte :
  forall s b1 b2, in_range s -> step s b1 = step s b2 -> b1 = b2.

Lemma fold_range (data : list byte) (s : Z) :
  in_range s -> in_range (fold_left step data s).
Proof.
  revert s. induction data as [|b data IH]; intros s Hs; cbn; auto.
Qed.

Lemma fold_inj_state (data : list byte) (s1 s2 : Z) :
  in_range s1 -> in_range s2 ->
  fold_left step data s1 = fold_left step data s2 -> s1 = s2.
Proof.
  revert s1 s2. induction data as [|b data IH]; intros s1 s2 H1 H2; cbn; [auto|].
  intros Heq. apply IH in Heq; auto. eapply step_inj_state; eauto.
Qed.

(** Replacing one byte of the data changes the register. *)
Lemma fold_detects_one_byte (pre suf : list byte) (b b' : byte) (s : Z) :
  in_range s ->
  fold_left step (pre ++ b :: suf) s = fold_left step (pre ++ b' :: suf) s ->
  b = b'.
Proof.
  intros Hs. rewrite !fold_left_app. cbn [fold_left]. intros Heq.
  apply fold_inj_state in Heq; auto using fold_range.
  eapply step_inj_byte; [|exact Heq]. auto using fold_range.
Qed.

End Register.

(** *** The tables *)

Lemma table_get_lookup (table : list Z) (i : nat) (v : Z) :
  table !! i = Some v -> table_get table i = v.
Proof. intros Hi. unfold table_get. rewrite nth_lookup, Hi. reflexivity. Qed.

Lemma CRC8_TABLE_length : length CRC8_TABLE = 256%nat.
Proof. reflexivity. Qed.

Lemma CRC16_TABLE_length : length CRC16_TABLE = 256%nat.
Proof. reflexivity. Qed.

Lemma CRC8_TABLE_range : Forall (fun v => 0 <= v < 256) CRC8_TABLE.
Proof.
  apply Forall_forall. intros v Hv.
  assert (Hb : forallb (fun v => (0 <=? v) && (v <? 256)) CRC8_TABLE = true)
    by (vm_compute; reflexivity).
  rewrite forallb_forall in Hb. apply list_elem_of_In, Hb in Hv. lia.
Qed.

Lemma CRC16_TABLE_range : Forall (fun v => 0 <= v < 65536) CRC16_TABLE.
Proof.
  apply Forall_forall. intros v Hv.
  assert (Hb : forallb (fun v => (0 <=? v) && (v <? 65536)) CRC16_TABLE = true)
    by (vm_compute; reflexivity).
  rewrite forallb_forall in Hb. apply list_elem_of_In, Hb in Hv. lia.
Qed.

Lemma CRC8_TABLE_NoDup : NoDup CRC8_TABLE.
Proof. apply (bool_decide_unpack (NoDup CRC8_TABLE)). vm_compute. exact I. Qed.

Lemma CRC16_TABLE_NoDup : NoDup CRC16_TABLE.
Proof. apply (bool_decide_unpack (NoDup CRC16_TABLE)). vm_compute. exact I. Qed.

(** The high bytes of the CRC-16 table entries are pairwise distinct. *)
Lemma CRC16_TABLE_high_NoDup : NoDup (map (fun v => Z.shiftr v 8) CRC16_TABLE).
Proof.
  apply (bool_decide_unpack (NoDup (map (fun v => Z.shiftr v 8) CRC16_TABLE))).
  vm_compute. exact I.
Qed.

Lemma table_get_inj (table : list Z) (i j : Z) :
  NoDup table -> 0 <= i < Z.of_nat (length table) -> 0 <= j < Z.of_nat (length table) ->
  table_get table (Z.to_nat i) = table_get table (Z.to_nat j) -> i = j.
Proof.
  intros Hnd Hi Hj Heq.
  destruct (lookup_lt_is_Some_2 table (Z.to_nat i)) as [vi Hvi]; [lia|].
  destruct (lookup_lt_is_Some_2 table (Z.to_nat j)) as [vj Hvj]; [lia|].
  rewrite (table_get_lookup _ _ _ Hvi), (table_get_lookup _ _ _ Hvj) in Heq. subst vj.
  pose proof (NoDup_lookup _ _ _ _ Hnd Hvi Hvj). lia.
Qed.

Lemma table_get_range (table : list Z) (P : Z -> Prop) (i : nat) :
  Forall P table -> (i < length table)%nat -> P (table_get table i).
Proof.
  intros HP Hi. destruct (lookup_lt_is_Some_2 table i Hi) as [v Hv].
  rewrite (table_get_lookup _ _ _ Hv). eapply Forall_lookup_1; eauto.
Qed.

(** *** CRC-8 *)

Definition in_byte (s : Z) : Prop := 0 <= s < 256.

Lemma crc8_index_range (s : Z) (b : byte) :
  in_byte s -> 0 <= Z.lxor s (byte_to_Z b) < 256.
Proof.
  intros Hs. apply (lxor_bound 8); [lia | exact Hs | apply byte_to_Z_range].
Qed.

Lemma crc8_step_range (s : Z) (b : byte) : in_byte s -> in_byte (crc8_step s b).
Proof.
  intros Hs. unfold crc8_step.
  apply (table_get_range CRC8_TABLE in_byte); [exact CRC8_TABLE_range|].
  rewrite CRC8_TABLE_length. pose proof (crc8_index_range s b Hs). lia.
Qed.

Lemma crc8_step_inj_state (s1 s2 : Z) (b : byte) :
  in_byte s1 -> in_byte s2 -> crc8_step s1 b = crc8_step s2 b -> s1 = s2.
Proof.
  intros H1 H2 Heq. unfold crc8_step in Heq.
  apply table_get_inj in Heq;
    [ | exact CRC8_TABLE_NoDup
      | rewrite CRC8_TABLE_length; pose proof (crc8_index_range s1 b H1); lia
      | rewrite CRC8_TABLE_length; pose proof (crc8_index_range s2 b H2); lia ].
  eapply lxor_cancel_r; eauto.
Qed.

Lemma crc8_step_inj_byte (s : Z) (b1 b2 : byte) :
  in_byte s -> crc8_step s b1 = crc8_step s b2 -> b1 = b2.
Proof.
  intros Hs Heq. unfold crc8_step in Heq.
  apply table_get_inj in Heq;
    [ | exact CRC8_TABLE_NoDup
      | rewrite CRC8_TABLE_length; pose proof (crc8_index_range s b1 Hs); lia
      | rewrite CRC8_TABLE_length; pose proof (crc8_index_range s b2 Hs); lia ].
  apply byte_to_Z_inj. eapply lxor_cancel_l; eauto.
Qed.

Lemma crc8_range (data : list byte) (s : Z) : in_byte s -> in_byte (crc8 data s).
Proof. apply fold_range. exact crc8_step_range. Qed.

(** CRC-8 tells apart two byte strings that differ in one byte. *)
Lemma crc8_detects_one_byte (pre suf : list byte) (b b' : byte) (s : Z) :
  in_byte s -> crc8 (pre ++ b :: suf) s = crc8 (pre ++ b' :: suf) s -> b = b'.
Proof.
  apply (fold_detects_one_byte crc8_step in_byte);
    [exact crc8_step_range | exact crc8_step_inj_state | exact crc8_step_inj_byte].
Qed.

(** *** CRC-16 *)

Definition in_word (s : Z) : Prop := 0 <= s < 65536.

Lemma crc16_index (s : Z) (b : byte) :
  0 <= s ->
  Z.land (Z.lxor s (byte_to_Z b)) 255 = Z.lxor (s mod 256) (byte_to_Z b) /\
  0 <= Z.lxor (s mod 256) (byte_to_Z b) < 256.
Proof.
  intros Hs. pose proof (byte_to_Z_range b) as Hb.
  split.
  - rewrite land_lxor_distr_l, !land_255. rewrite (Z.mod_small (byte_to_Z b)) by lia.
    reflexivity.
  - apply (lxor_bound 8); [lia | apply Z.mod_pos_bound; lia | exact Hb].
Qed.

Lemma crc16_step_range (s : Z) (b : byte) : in_word s -> in_word (crc16_step s b).
Proof.
  intros Hs. unfold crc16_step.
  destruct (crc16_index s b) as [Hidx Hr]; [unfold in_word in Hs; lia|].
  rewrite Hidx. apply (lxor_bound 16); [lia | |].
  - rewrite shiftr_8. unfold in_word in Hs.
    split; [apply Z.div_pos; lia | apply Z.div_lt_upper_bound; lia].
  - apply (table_get_range CRC16_TABLE in_word); [exact CRC16_TABLE_range|].
    rewrite CRC16_TABLE_length. lia.
Qed.

Lemma table16_high_inj (i j : Z) :
  0 <= i < 256 -> 0 <= j < 256 ->
  Z.shiftr (table_get CRC16_TABLE (Z.to_nat i)) 8 =
  Z.shiftr (table_get CRC16_TABLE (Z.to_nat j)) 8 -> i = j.
Proof.
  intros Hi Hj Heq.
  assert (Hget : forall k, 0 <= k < 256 ->
            Z.shiftr (table_get CRC16_TABLE (Z.to_nat k)) 8 =
            table_get (map (fun v => Z.shiftr v 8) CRC16_TABLE) (Z.to_nat k)).
  { intros k Hk.
    destruct (lookup_lt_is_Some_2 CRC16_TABLE (Z.to_nat k)) as [v Hv];
      [rewrite CRC16_TABLE_length; lia|].
    rewrite (table_get_lookup _ _ _ Hv).
    symmetry. apply table_get_lookup. rewrite list_lookup_fmap, Hv. reflexivity. }
  rewrite !Hget in Heq by assumption.
  apply table_get_inj in Heq; auto using CRC16_TABLE_high_NoDup;
    rewrite length_map, CRC16_TABLE_length; lia.
Qed.

Lemma crc16_step_inj_state (s1 s2 : Z) (b : byte) :
  in_word s1 -> in_word s2 -> crc16_step s1 b = crc16_step s2 b -> s1 = s2.
Proof.
  unfold in_word. intros H1 H2 Heq. unfold crc16_step in Heq.
  destruct (crc16_index s1 b) as [Hi1 Hr1]; [lia|].
  destruct (crc16_index s2 b) as [Hi2 Hr2]; [lia|].
  rewrite Hi1, Hi2 in Heq.
  assert (Hhi : forall s, 0 <= s < 65536 -> Z.shiftr (Z.shiftr s 8) 8 = 0).
  { intros s Hs. rewrite !shiftr_8. apply Z.div_small.
    split; [apply Z.div_pos; lia | apply Z.div_lt_upper_bound; lia]. }
  assert (Hidx : Z.lxor (s1 mod 256) (byte_to_Z b) = Z.lxor (s2 mod 256) (byte_to_Z b)).
  { apply table16_high_inj; try assumption.
    apply (f_equal (fun v => Z.shiftr v 8)) in Heq.
    rewrite !Z.shiftr_lxor, !Hhi, !Z.lxor_0_l in Heq by assumption. exact Heq. }
  rewrite Hidx in Heq. apply lxor_cancel_r in Heq. apply lxor_cancel_r in Hidx.
  rewrite !shiftr_8 in Heq.
  pose proof (Z.div_mod s1 256). pose proof (Z.div_mod s2 256). lia.
Qed.

Lemma crc16_step_inj_byte (s : Z) (b1 b2 : byte) :
  in_word s -> crc16_step s b1 = crc16_step s b2 -> b1 = b2.
Proof.
  unfold in_word. intros Hs Heq. unfold crc16_step in Heq.
  destruct (crc16_index s b1) as [Hi1 Hr1]; [lia|].
  destruct (crc16_index s b2) as [Hi2 Hr2]; [lia|].
  rewrite Hi1, Hi2 in Heq. apply lxor_cancel_l in Heq.
  apply table_get_inj in Heq;
    [ | exact CRC16_TABLE_NoDup | rewrite CRC16_TABLE_length; lia
      | rewrite CRC16_TABLE_length; lia ].
  apply byte_to_Z_inj. eapply lxor_cancel_l; eauto.
Qed.

Lemma crc16_fold_range (data : list byte) (s : Z) :
  in_word s -> in_word (fold_left crc16_step data s).
Proof. apply fold_range. exact crc16_step_range. Qed.

(** On a register in range the final mask changes nothing. *)
Lemma crc16_fold (data : list byte) (s : Z) :
  in_word s -> crc16 data s = fold_left crc16_step data s.
Proof.
  intros Hs. unfold crc16. pose proof (crc16_fold_range data s Hs) as Hr.
  change 0xFFFF with (Z.ones 16). rewrite Z.land_ones by lia.
  apply Z.mod_small. exact Hr.
Qed.

Lemma crc16_range (data : list byte) (s : Z) : in_word s -> in_word (crc16 data s).
Proof. intros Hs. rewrite crc16_fold by exact Hs. apply crc16_fold_range, Hs. Qed.

(** The running CRC-16 of the receiver: hashing in two stages is hashing
    the concatenation. *)
Lemma crc16_app (a b : list byte) (s : Z) :
  in_word s -> crc16 b (crc16 a s) = crc16 (a ++ b) s.
Proof.
  intros Hs. rewrite (crc16_fold (a ++ b)), fold_left_app by exact Hs.
  rewrite (crc16_fold a) by exact Hs.
  apply crc16_fold. apply crc16_fold_range, Hs.
Qed.

(** CRC-16 tells apart two byte strings that differ in one byte. *)
Lemma crc16_detects_one_byte (pre suf : list byte) (b b' : byte) (s : Z) :
  in_word s -> crc16 (pre ++ b :: suf) s = crc16 (pre ++ b' :: suf) s -> b = b'.
Proof.
  intros Hs. rewrite !crc16_fold by exact Hs.
  apply (fold_detects_one_byte crc16_step in_word);
    [exact crc16_step_range | exact crc16_step_inj_state | exact crc16_step_inj_byte
    | exact Hs].
Qed.

Lemma crc8_default_range : in_byte crc8_default.
Proof. unfold in_byte, crc8_default. lia. Qed.

Lemma crc16_default_range : in_word crc16_default.
Proof. unfold in_word, crc16_default. lia. Qed.

End CrcProofs.
(** ** The history buffer *)

Module HistoryBufferProofs.
Import HistoryBuffer.
Section Proofs.
Context {Value : Type}.
Implicit Types (b : TimestampedHistoryBuffer Value) (t : Timestamp) (v : Value).

(** *** Eviction *)

(** The loop stops after dropping some [n] oldest entries, without raising
    and within its fuel, as soon as keys are at least as many as values. *)
Lemma remove_expired_loop_spec fuel latest b :
  0 <= _max_entries b ->
  (length (_data b) <= length (_keys b))%nat ->
  (length (_data b) < fuel)%nat ->
  exists n, (n <= length (_data b))%nat /\
    let b' := mkBuffer (_max_entries b) (_maximum_entry_age b)
                       (drop n (_keys b)) (drop n (_data b)) in
    remove_expired_loop fuel latest b = (Ok tt, b') /\
    expired_test latest b' = Ok false.
Proof.
  revert b. induction fuel as [|fuel IH]; intros b Hme Hlen Hfuel; [lia|].
  destruct b as [me age keys data];
    cbn [_data _keys _max_entries _maximum_entry_age] in *.
  destruct data as [|d data].
  - exists 0%nat. split; [simpl; lia|]. rewrite !drop_0.
    assert (E : (Z.of_nat 0 >? me) = false) by (rewrite Z.gtb_ltb; apply Z.ltb_ge; lia).
    cbn [remove_expired_loop]. unfold bind, lift, expired_test.
    cbn [_data _max_entries length]. rewrite E. auto.
  - destruct keys as [|k keys]; [simpl in Hlen; lia|].
    assert (Hstep : remove_expired_loop (S fuel) latest (mkBuffer me age (k :: keys) (d :: data))
              = match expired_test latest (mkBuffer me age (k :: keys) (d :: data)) with
                | Ok true => remove_expired_loop fuel latest (mkBuffer me age keys data)
                | Ok false => (Ok tt, mkBuffer me age (k :: keys) (d :: data))
                | Raise e => (Raise e, mkBuffer me age (k :: keys) (d :: data))
                end).
    { cbn [remove_expired_loop]. unfold bind, lift.
      destruct (expired_test _ _) as [[|]|]; reflexivity. }
    destruct (expired_test latest (mkBuffer me age (k :: keys) (d :: data))) as [[|]|e] eqn:E.
    + destruct (IH (mkBuffer me age keys data)) as (n & Hn & Hrun & Htest);
        [simpl in *; lia ..|].
      exists (S n). cbv zeta. rewrite Hstep.
      cbn [_data _keys _max_entries _maximum_entry_age length drop] in *.
      split; [lia|]. split; assumption.
    + exists 0%nat. cbv zeta. rewrite Hstep, !drop_0. split; [simpl; lia|]. auto.
    + exfalso. unfold expired_test in E. cbn in E.
      destruct (_ >? me); discriminate.
Qed.

Lemma _remove_expired_items_spec latest b :
  0 <= _max_entries b ->
  (length (_data b) <= length (_keys b))%nat ->
  exists n, (n <= length (_data b))%nat /\
    let b' := mkBuffer (_max_entries b) (_maximum_entry_age b)
                       (drop n (_keys b)) (drop n (_data b)) in
    _remove_expired_items latest b = (Ok tt, b') /\
    expired_test latest b' = Ok false.
Proof.
  intros. unfold _remove_expired_items.
  apply remove_expired_loop_spec; auto with lia.
Qed.

(** What a false loop test says about the buffer. *)
Lemma expired_test_false latest b :
  expired_test latest b = Ok false ->
  num_entries b <= _max_entries b /\
  forall o, oldest_timestamp b = Ok (Some o) ->
    Z.abs (time_microsecs latest - time_microsecs o)
      <= duration_microsecs (_maximum_entry_age b).
Proof.
  unfold expired_test, num_entries.
  destruct (_ >? _) eqn:E; [discriminate|]. rewrite Z.gtb_ltb in E.
  intros H. split; [lia|].
  intros o Ho. rewrite Ho in H. injection H as H.
  unfold dur_gt, dur_lt, dur_abs, ts_sub in H. simpl in H. lia.
Qed.

(** *** The outcome of [add] *)

Definition config_of b : Z * Duration := (_max_entries b, _maximum_entry_age b).

Lemma add_outcome timestamp value b :
  0 <= _max_entries b ->
  (length (_data b) <= length (_keys b))%nat ->
  (exists l, latest_timestamp b = Ok (Some l) /\
             time_microsecs timestamp <= time_microsecs l /\
             add timestamp value b =
               (Raise (BufferEntryTooOldError (time_microsecs timestamp) (time_microsecs l)), b))
  \/
  ((forall l, latest_timestamp b = Ok (Some l) ->
              time_microsecs l < time_microsecs timestamp) /\
   exists n, (n <= S (length (_data b)))%nat /\
     let b' := mkBuffer (_max_entries b) (_maximum_entry_age b)
                 (drop n (_keys b ++ [timestamp])) (drop n (_data b ++ [value])) in
     add timestamp value b = (Ok tt, b') /\
     expired_test timestamp b' = Ok false).
Proof.
  intros Hme Hlen.
  assert (Happ : exists n, (n <= S (length (_data b)))%nat /\
     let b' := mkBuffer (_max_entries b) (_maximum_entry_age b)
                 (drop n (_keys b ++ [timestamp])) (drop n (_data b ++ [value])) in
     (append_entry timestamp value ;;; _remove_expired_items timestamp)%monad b = (Ok tt, b') /\
     expired_test timestamp b' = Ok false).
  { unfold bind, append_entry.
    destruct (_remove_expired_items_spec timestamp
                (mkBuffer (_max_entries b) (_maximum_entry_age b)
                   (_keys b ++ [timestamp]) (_data b ++ [value]))) as (n & Hn & Hrun & Ht).
    - assumption.
    - simpl. rewrite !length_app. simpl. lia.
    - exists n. simpl in *. rewrite length_app in Hn. simpl in Hn.
      split; [lia|]. split; assumption. }
  unfold add, bind, lift.
  destruct (latest_timestamp b) as [[l|]|e] eqn:El.
  - destruct (ts_le timestamp l) eqn:Ele; unfold ts_le in Ele.
    + left. exists l. split; [reflexivity|]. split; [lia|]. reflexivity.
    + right. split; [|exact Happ]. intros l' [= <-]. lia.
  - right. split; [|exact Happ]. intros l' [=].
  - exfalso. unfold latest_timestamp in El.
    destruct (length (_data b) =? 0)%nat eqn:E0; [discriminate|].
    apply Nat.eqb_neq in E0.
    destruct (last (_keys b)) eqn:Elast; [discriminate|].
    apply last_None in Elast. rewrite Elast in Hlen. simpl in Hlen. lia.
Qed.

(** *** Reachable states *)

Lemma reachable_inv b :
  reachable b ->
  0 < _max_entries b /\ 0 < duration_microsecs (_maximum_entry_age b) /\
  (length (_data b) <= length (_keys b))%nat.
Proof.
  induction 1 as [me age b Hinit | timestamp value b Hb IH | b Hb IH].
  - unfold init in Hinit.
    destruct (me <=? 0) eqn:E1; [discriminate|].
    destruct (duration_microsecs age <=? 0) eqn:E2; [discriminate|].
    injection Hinit as <-. simpl. lia.
  - destruct IH as (Hme & Hage & Hlen).
    destruct (add_outcome timestamp value b) as [(l & _ & _ & ->)|(_ & n & Hn & -> & _)];
      [lia | assumption | simpl; auto | ].
    simpl. rewrite !length_drop, !length_app. simpl. lia.
  - simpl. destruct IH as (? & ? & ?). repeat split; auto. lia.
Qed.

(** *** Binary search on strictly increasing keys *)

Lemma bisect_loop_spec fuel a x lo hi :
  strictly_increasing a ->
  (lo <= hi <= length a)%nat -> (hi - lo <= fuel)%nat ->
  (forall i k, a !! i = Some k -> (i < lo)%nat -> time_microsecs k < time_microsecs x) ->
  (forall i k, a !! i = Some k -> (hi <= i)%nat -> time_microsecs x <= time_microsecs k) ->
  let p := bisect_loop fuel a x lo hi in
  (lo <= p <= hi)%nat /\
  (forall i k, a !! i = Some k -> (i < p)%nat -> time_microsecs k < time_microsecs x) /\
  (forall i k, a !! i = Some k -> (p <= i)%nat -> time_microsecs x <= time_microsecs k).
Proof.
  intros Hsorted. revert lo hi.
  induction fuel as [|fuel IH]; intros lo hi Hrange Hfuel Hlo Hhi; cbn [bisect_loop].
  - assert (lo = hi) by lia. subst hi. cbv zeta. split; [lia|]. split; assumption.
  - destruct (lo <? hi)%nat eqn:E.
    2:{ apply Nat.ltb_ge in E. assert (lo = hi) by lia. subst hi.
        cbv zeta. split; [lia|]. split; assumption. }
    apply Nat.ltb_lt in E.
    assert (Hmid : (lo <= (lo + hi) / 2 < hi)%nat).
    { split; [apply Nat.div_le_lower_bound; lia | apply Nat.Div0.div_lt_upper_bound; lia]. }
    set (mid := ((lo + hi) / 2)%nat) in *.
    destruct (a !! mid) as [am|] eqn:Em.
    2:{ apply lookup_ge_None in Em. lia. }
    destruct (ts_lt am x) eqn:Elt; unfold ts_lt in Elt.
    + destruct (IH (mid + 1)%nat hi) as (Hp & H1 & H2); [lia | lia | | assumption |].
      * intros i k Hi Hlt.
        destruct (decide (i = mid)) as [->|Hne].
        -- rewrite Em in Hi. injection Hi as <-. lia.
        -- assert (time_microsecs k < time_microsecs am)
             by (apply (Hsorted i mid); auto; lia).
           lia.
      * cbv zeta. split; [lia|]. split; assumption.
    + destruct (IH lo mid) as (Hp & H1 & H2); [lia | lia | assumption | |].
      * intros i k Hi Hge.
        destruct (decide (i = mid)) as [->|Hne].
        -- rewrite Em in Hi. injection Hi as <-. lia.
        -- assert (time_microsecs am < time_microsecs k)
             by (apply (Hsorted mid i); auto; lia).
           lia.
      * cbv zeta. split; [lia|]. split; assumption.
Qed.

Lemma bisect_left_spec a x :
  strictly_increasing a ->
  let p := bisect_left a x in
  (p <= length a)%nat /\
  (forall i k, a !! i = Some k -> (i < p)%nat -> time_microsecs k < time_microsecs x) /\
  (forall i k, a !! i = Some k -> (p <= i)%nat -> time_microsecs x <= time_microsecs k).
Proof.
  intros Hsorted. unfold bisect_left.
  destruct (bisect_loop_spec (length a) a x 0 (length a) Hsorted) as (Hp & H1 & H2).
  - lia.
  - lia.
  - intros; lia.
  - intros i k Hi Hge. apply lookup_lt_Some in Hi. lia.
  - cbv zeta. split; [lia|]. split; assumption.
Qed.

(** *** Search on aligned buffers *)

(** The distance [abs(key - timestamp)] in microseconds. *)
Definition dist (k t : Timestamp) : Z :=
  Z.abs (time_microsecs k - time_microsecs t).

(** Key [k] is nearest to [t] among [keys], and any key as near is not
    later than [k]. *)
Definition nearest_later (keys : list Timestamp) (t k : Timestamp) : Prop :=
  forall j kj, keys !! j = Some kj ->
    dist k t <= dist kj t /\
    (dist kj t = dist k t -> time_microsecs kj <= time_microsecs k).

Lemma search_aligned b timestamp :
  aligned b -> _data b <> [] ->
  exists oldest latest,
    oldest_timestamp b = Ok (Some oldest) /\
    latest_timestamp b = Ok (Some latest) /\
    (time_microsecs oldest <= time_microsecs timestamp <= time_microsecs latest ->
       exists i k v,
         _keys b !! i = Some k /\ _data b !! i = Some v /\
         search timestamp b = Ok (Some v) /\
         nearest_later (_keys b) timestamp k) /\
    (~ (time_microsecs oldest <= time_microsecs timestamp <= time_microsecs latest) ->
       search timestamp b = Ok None).
Proof.
  destruct b as [me age keys data]. unfold aligned.
  cbn [_keys _data]. intros [Hlen Hsorted] Hne.
  destruct data as [|d data]; [congruence|].
  destruct keys as [|k0 keys]; [discriminate|].
  destruct (last (k0 :: keys)) as [kl|] eqn:Elast.
  2:{ apply last_None in Elast. discriminate. }
  assert (Hold : oldest_timestamp (mkBuffer me age (k0 :: keys) (d :: data)) = Ok (Some k0))
    by reflexivity.
  assert (Hlat : latest_timestamp (mkBuffer me age (k0 :: keys) (d :: data)) = Ok (Some kl)).
  { unfold latest_timestamp. cbn [_data _keys length Nat.eqb]. rewrite Elast. reflexivity. }
  exists k0, kl. split; [exact Hold|]. split; [exact Hlat|].
  assert (Hsearch : search timestamp (mkBuffer me age (k0 :: keys) (d :: data)) =
    if ts_lt timestamp k0 || ts_gt timestamp kl then Ok None
    else
      let b := mkBuffer me age (k0 :: keys) (d :: data) in
      let pos := bisect_left (k0 :: keys) timestamp in
      if (pos =? 0)%nat then data_at b pos
      else if (pos =? length (k0 :: keys))%nat then data_last b
      else
        match (k0 :: keys) !! (pos - 1)%nat, (k0 :: keys) !! pos with
        | Some earlier_t, Some later_t =>
            data_at b (if dur_lt (dur_abs (ts_sub earlier_t timestamp))
                                 (dur_abs (ts_sub later_t timestamp))
                       then (pos - 1)%nat else pos)
        | _, _ => Raise IndexError
        end).
  { unfold search. rewrite Hlat, Hold. reflexivity. }
  rewrite Hsearch. clear Hsearch.
  unfold ts_gt, ts_lt.
  split.
  2:{ intros Hout.
      destruct (time_microsecs timestamp <? time_microsecs k0) eqn:E1; [reflexivity|].
      destruct (time_microsecs kl <? time_microsecs timestamp) eqn:E2; [reflexivity|].
      exfalso. apply Hout. lia. }
  intros [Hge Hle].
  destruct (time_microsecs timestamp <? time_microsecs k0) eqn:E1; [lia|].
  destruct (time_microsecs kl <? time_microsecs timestamp) eqn:E2; [lia|].
  cbn [orb]. cbv zeta.
  destruct (bisect_left_spec (k0 :: keys) timestamp Hsorted) as (Hp & Hbelow & Habove).
  cbv zeta in Hp, Hbelow, Habove.
  set (pos := bisect_left (k0 :: keys) timestamp) in *.
  destruct (pos =? 0)%nat eqn:E0.
  - apply Nat.eqb_eq in E0. rewrite E0.
    exists 0%nat, k0, d. repeat split; try reflexivity.
    + assert (time_microsecs timestamp <= time_microsecs k0)
        by (apply (Habove 0%nat); [reflexivity | lia]).
      unfold dist. lia.
    + assert (time_microsecs timestamp <= time_microsecs k0)
        by (apply (Habove 0%nat); [reflexivity | lia]).
      unfold dist. lia.
  - apply Nat.eqb_neq in E0.
    destruct (pos =? length (k0 :: keys))%nat eqn:Een.
    + exfalso. apply Nat.eqb_eq in Een.
      rewrite last_lookup in Elast.
      assert (time_microsecs kl < time_microsecs timestamp).
      { apply (Hbelow _ _ Elast). rewrite Een. simpl. lia. }
      lia.
    + apply Nat.eqb_neq in Een.
      destruct (lookup_lt_is_Some_2 (k0 :: keys) (pos - 1)%nat) as [e He]; [lia|].
      destruct (lookup_lt_is_Some_2 (k0 :: keys) pos) as [l Hl]; [lia|].
      rewrite He, Hl.
      assert (Hel : time_microsecs e < time_microsecs timestamp <= time_microsecs l).
      { split; [apply (Hbelow _ _ He); lia | apply (Habove _ _ Hl); lia]. }
      assert (Hothers : forall j kj, (k0 :: keys) !! j = Some kj ->
                time_microsecs kj <= time_microsecs e \/
                time_microsecs l <= time_microsecs kj).
      { intros j kj Hj.
        destruct (decide (j = pos - 1)%nat) as [->|].
        { rewrite He in Hj. injection Hj as <-. lia. }
        destruct (decide (j = pos)) as [->|].
        { rewrite Hl in Hj. injection Hj as <-. lia. }
        destruct (decide (j < pos)%nat).
        - left. apply Z.lt_le_incl. apply (Hsorted j (pos - 1)%nat); auto. lia.
        - right. apply Z.lt_le_incl. apply (Hsorted pos j); auto. lia. }
      unfold dur_lt, dur_abs, ts_sub. cbn [duration_microsecs].
      destruct (Z.abs (time_microsecs e - time_microsecs timestamp)
                  <? Z.abs (time_microsecs l - time_microsecs timestamp)) eqn:Ecmp.
      * destruct (lookup_lt_is_Some_2 (d :: data) (pos - 1)%nat) as [v Hv];
          [rewrite <- Hlen; lia|].
        exists (pos - 1)%nat, e, v. unfold data_at. cbn [_data]. rewrite Hv.
        repeat split; auto; unfold dist; destruct (Hothers j kj); auto; lia.
      * destruct (lookup_lt_is_Some_2 (d :: data) pos) as [v Hv];
          [rewrite <- Hlen; lia|].
        exists pos, l, v. unfold data_at. cbn [_data]. rewrite Hv.
        repeat split; auto; unfold dist; destruct (Hothers j kj); auto; lia.
Qed.

(** The constructor builds an aligned buffer and [add] keeps it aligned. *)
Lemma init_aligned max_entries maximum_entry_age b :
  init max_entries maximum_entry_age = Ok b -> aligned b.
Proof.
  unfold init. destruct (_ <=? _); [discriminate|].
  destruct (_ <=? _); [discriminate|]. intros [= <-].
  split; [reflexivity|]. intros i j ki kj Hi. discriminate.
Qed.

Lemma add_aligned timestamp value b :
  0 <= _max_entries b -> aligned b -> aligned (snd (add timestamp value b)).
Proof.
  intros Hme [Hlen Hsorted].
  destruct (add_outcome timestamp value b) as
    [(l & _ & _ & ->)|(Hlt & n & Hn & -> & _)]; [assumption | lia | split; assumption |].
  cbn [snd]. split; cbn [_keys _data].
  - rewrite !length_drop, !length_app. simpl. lia.
  - assert (Hall : forall i ki, _keys b !! i = Some ki ->
                     time_microsecs ki < time_microsecs timestamp).
    { intros i ki Hi.
      pose proof (lookup_lt_Some _ _ _ Hi).
      destruct (last (_keys b)) as [kl|] eqn:Elast.
      2:{ apply last_None in Elast. rewrite Elast in Hi. discriminate. }
      assert (time_microsecs kl < time_microsecs timestamp).
      { apply Hlt. unfold latest_timestamp. rewrite Elast.
        destruct (length (_data b)) eqn:E0; [lia|reflexivity]. }
      rewrite last_lookup in Elast.
      destruct (decide (i = pred (length (_keys b)))) as [->|].
      - rewrite Elast in Hi. injection Hi as <-. assumption.
      - assert (time_microsecs ki < time_microsecs kl)
          by (apply (Hsorted i (pred (length (_keys b)))); auto; lia).
        lia. }
    intros i j ki kj Hi Hj Hij. rewrite lookup_drop in Hi, Hj.
    pose proof (lookup_lt_Some _ _ _ Hj) as Hjlen. rewrite length_app in Hjlen. simpl in Hjlen.
    rewrite lookup_app_l in Hi by lia.
    destruct (decide (n + j < length (_keys b))%nat).
    + rewrite lookup_app_l in Hj by lia. apply (Hsorted (n + i)%nat (n + j)%nat); auto. lia.
    + rewrite lookup_app_r in Hj by lia.
      replace (n + j - length (_keys b))%nat with 0%nat in Hj by lia.
      injection Hj as <-. eapply Hall; eauto.
Qed.

(** C6: on every reachable buffer, [add] raises [BufferEntryTooOldError]
    exactly when the buffer is non-empty and the new timestamp is not later
    than [latest_timestamp]; a raising [add] raises nothing else and leaves
    the buffer as it was; an [add] that does not raise returns normally,
    having appended the entry and then dropped some oldest entries, so that
    at most [max_entries] remain and the oldest remaining timestamp is
    within [maximum_entry_age] of the new one. *)
Theorem add_contract b timestamp value :
  reachable b ->
  let r := fst (add timestamp value b) in
  let b' := snd (add timestamp value b) in
  ((exists new existing, r = Raise (BufferEntryTooOldError new existing)) <->
   (num_entries b <> 0 /\
    exists l, latest_timestamp b = Ok (Some l) /\
              time_microsecs timestamp <= time_microsecs l)) /\
  (forall e, r = Raise e ->
     (exists new existing, e = BufferEntryTooOldError new existing) /\ b' = b) /\
  ((forall e, r <> Raise e) ->
     r = Ok tt /\
     config_of b' = config_of b /\
     (exists n, _keys b' = drop n (_keys b ++ [timestamp]) /\
                _data b' = drop n (_data b ++ [value])) /\
     num_entries b' <= _max_entries b' /\
     forall o, oldest_timestamp b' = Ok (Some o) ->
       Z.abs (time_microsecs timestamp - time_microsecs o)
         <= duration_microsecs (_maximum_entry_age b')).
Proof.
  intros Hb. destruct (reachable_inv b Hb) as (Hme & _ & Hlen).
  cbv zeta.
  destruct (add_outcome timestamp value b) as
    [(l & Hl & Hle & ->)|(Hlt & n & Hn & Hrun & Htest)]; [lia | assumption | |].
  - cbn [fst snd]. split; [|split].
    + split; [intros _|eauto].
      split; [|eauto].
      unfold latest_timestamp, num_entries in *.
      destruct (length (_data b)); [discriminate | lia].
    + intros e [= <-]. eauto.
    + intros Hno. exfalso. eapply Hno. reflexivity.
  - cbv zeta in Hrun, Htest. rewrite Hrun. cbn [fst snd]. split; [|split].
    + split; [intros (? & ? & [=])|].
      intros (_ & l & Hl & Hle). specialize (Hlt l Hl). lia.
    + intros e [=].
    + intros _. split; [reflexivity|]. split; [reflexivity|].
      split; [exists n; split; reflexivity|].
      apply expired_test_false in Htest. exact Htest.
Qed.

End Proofs.

Lemma one_entry_buffer_reachable : reachable one_entry_buffer.
Proof.
  apply reach_add. apply (reach_init 10 (mkDuration 1000)). reflexivity.
Defined.

Lemma cleared_buffer_reachable : reachable cleared_buffer.
Proof. apply reach_clear. exact one_entry_buffer_reachable. Defined.

Lemma refilled_buffer_reachable : reachable refilled_buffer.
Proof. do 2 apply reach_add. exact cleared_buffer_reachable. Defined.

Lemma add_contract_witness :
  reachable one_entry_buffer /\
  fst (add (mkTimestamp 100) 2%nat one_entry_buffer)
    = Raise (BufferEntryTooOldError 100 100) /\
  snd (add (mkTimestamp 100) 2%nat one_entry_buffer) = one_entry_buffer.
Proof.
  split; [exact one_entry_buffer_reachable|].
  destruct (add_contract one_entry_buffer (mkTimestamp 100) 2%nat
              one_entry_buffer_reachable) as (_ & Hraise & _).
  split; [reflexivity|].
  exact (proj2 (Hraise _ eq_refl)).
Defined.

(** What [clear] does get right, on every reachable buffer: the observers
    that look at [_data] see an empty buffer, and the next [add] does not
    raise. *)
Lemma clear_observers {Value : Type} (b : TimestampedHistoryBuffer Value) timestamp value :
  reachable b ->
  let b' := snd (clear b) in
  fst (clear b) = Ok tt /\
  num_entries b' = 0 /\
  oldest_timestamp b' = Ok None /\
  latest_timestamp b' = Ok None /\
  search timestamp b' = Ok None /\
  fst (add timestamp value b') = Ok tt.
Proof.
  intros Hb. destruct (reachable_inv _ (reach_clear _ Hb)) as (Hme & _ & Hlen).
  cbv zeta. repeat split.
  destruct (add_outcome timestamp value (snd (clear b)))
    as [(l & Hl & _)|(_ & n & _ & -> & _)]; [lia | assumption | discriminate | reflexivity].
Qed.

(** C1 (the code at the failing input): after [add(100, 1); clear()] the
    observers report an empty buffer, but [apply] still maps over the key
    100, and a following [add] is not an add into a fresh buffer: adding at
    timestamp 50 leaves the keys [100; 50], which are not increasing, and
    adding at timestamp 5000 returns normally with the new entry already
    evicted. *)
Theorem clear_keeps_keys :
  reachable cleared_buffer /\
  num_entries cleared_buffer = 0 /\
  oldest_timestamp cleared_buffer = Ok None /\
  latest_timestamp cleared_buffer = Ok None /\
  apply time_microsecs cleared_buffer = [100] /\
  apply time_microsecs fresh_buffer = [] /\
  add (mkTimestamp 50) 2%nat cleared_buffer
    = (Ok tt, mkBuffer 10 (mkDuration 1000) [mkTimestamp 100; mkTimestamp 50] [2%nat]) /\
  add (mkTimestamp 50) 2%nat fresh_buffer
    = (Ok tt, mkBuffer 10 (mkDuration 1000) [mkTimestamp 50] [2%nat]) /\
  add (mkTimestamp 5000) 2%nat cleared_buffer
    = (Ok tt, mkBuffer 10 (mkDuration 1000) [mkTimestamp 5000] []) /\
  add (mkTimestamp 5000) 2%nat fresh_buffer
    = (Ok tt, mkBuffer 10 (mkDuration 1000) [mkTimestamp 5000] [2%nat]).
Proof.
  split; [exact cleared_buffer_reachable|]. repeat split.
Qed.

(** C5 (the code at the failing input): after
    [add(100, 1); clear(); add(105, 2); add(109, 3)] the buffer reports two
    entries between the timestamps 100 and 109, yet [search(105)] returns
    the value stored with key 109 and [search(109)] raises [IndexError]. *)
Theorem search_after_clear :
  reachable refilled_buffer /\
  _keys refilled_buffer = [mkTimestamp 100; mkTimestamp 105; mkTimestamp 109] /\
  _data refilled_buffer = [2%nat; 3%nat] /\
  num_entries refilled_buffer = 2 /\
  oldest_timestamp refilled_buffer = Ok (Some (mkTimestamp 100)) /\
  latest_timestamp refilled_buffer = Ok (Some (mkTimestamp 109)) /\
  search (mkTimestamp 105) refilled_buffer = Ok (Some 3%nat) /\
  search (mkTimestamp 109) refilled_buffer = Raise IndexError.
Proof.
  split; [exact refilled_buffer_reachable|]. repeat split.
Qed.

End HistoryBufferProofs.
(** ** Target selection *)

Module TargetSelectionProofs.
Import TargetSelection.
Section Proofs.
Context {F : Type} `{Float F} {Target : Type}.
Implicit Types (config : TargetSelectorConfiguration F)
               (rules : list (TargetSelectionRule F Target * F))
               (targets : list Target).

Lemma best_of_snoc (valid_targets : list (Target * F)) (x : Target * F) :
  best_of (valid_targets ++ [x]) =
  match best_of valid_targets with
  | None => Some x
  | Some best => Some (if f_ltb (snd x) (snd best) then x else best)
  end.
Proof.
  destruct valid_targets as [|first rest]; [reflexivity|].
  cbn [best_of app]. unfold py_min_by. rewrite fold_left_app. reflexivity.
Qed.

Lemma valid_targets_of_app config (l1 l2 : list (Target * option F)) :
  valid_targets_of config (l1 ++ l2) =
  valid_targets_of config l1 ++ valid_targets_of config l2.
Proof.
  induction l1 as [|[target [score|]] l1 IH]; cbn [valid_targets_of app]; auto.
  destruct (_is_under_maximum_score config score); cbn [app]; congruence.
Qed.

Lemma valid_list_snoc config rules targets target :
  valid_list config rules (targets ++ [target]) =
  valid_list config rules targets ++
  match _evaluate_target rules target return list (Target * F) with
  | Some score => if _is_under_maximum_score config score then [(target, score)] else []
  | None => []
  end.
Proof.
  unfold valid_list. rewrite map_app, valid_targets_of_app. f_equal.
Qed.

Lemma select_target_best_of config rules targets :
  select_target config rules targets = fst <$> best_of (valid_list config rules targets).
Proof.
  unfold select_target, valid_list, best_of. cbv zeta.
  destruct (valid_targets_of _ _); reflexivity.
Qed.

Lemma best_of_first_minimum config rules targets :
  ordered_scores (valid_score config rules targets) ->
  match best_of (valid_list config rules targets) with
  | None => forall target s, In target targets -> ~ valid_with config rules target s
  | Some (best, s) => first_minimum config rules targets best s
  end.
Proof.
  induction targets as [|t targets IH] using rev_ind; intros Hord.
  { cbn. intros target s []. }
  assert (Hsub : forall s, valid_score config rules targets s ->
                           valid_score config rules (targets ++ [t]) s).
  { intros s (target & Hin & Hv). exists target. split; [|exact Hv].
    apply in_or_app. auto. }
  assert (Hord' : ordered_scores (valid_score config rules targets)).
  { destruct Hord as (Hirr & Htr & Hneg). repeat split; intros.
    - apply Hirr; auto.
    - eapply (Htr a b c); eauto.
    - eapply (Hneg a b c); eauto. }
  specialize (IH Hord'). clear Hord'.
  rewrite valid_list_snoc.
  assert (Hlast : (targets ++ [t]) !! length targets = Some t).
  { rewrite lookup_app_r by lia. rewrite Nat.sub_diag. reflexivity. }
  assert (Hold : forall j tj, (targets ++ [t]) !! j = Some tj ->
            (j < length targets)%nat /\ targets !! j = Some tj \/
            j = length targets /\ tj = t).
  { intros j tj Hj. destruct (decide (j < length targets)%nat).
    - left. rewrite lookup_app_l in Hj by lia. auto.
    - right. pose proof (lookup_lt_Some _ _ _ Hj) as Hlt.
      rewrite length_app in Hlt. simpl in Hlt.
      assert (j = length targets) by lia. subst j.
      rewrite Hlast in Hj. injection Hj as <-. auto. }
  destruct (_evaluate_target rules t) as [st|] eqn:Et.
  2:{ (* the new target is disqualified by a rule *)
      rewrite app_nil_r.
      destruct (best_of (valid_list config rules targets)) as [[best s]|].
      - destruct IH as (i & Hi & Hv & Hmin). exists i.
        split; [rewrite lookup_app_l; eauto using lookup_lt_Some|].
        split; [exact Hv|].
        intros j tj sj Hj Hvj. destruct (Hold j tj Hj) as [[_ Hj']|[_ ->]]; [eauto|].
        destruct Hvj as [Hvj _]. congruence.
      - intros target s Hin Hv. apply in_app_or in Hin. destruct Hin as [Hin|[<-|[]]].
        + eapply IH; eauto.
        + destruct Hv as [Hv _]. congruence. }
  destruct (_is_under_maximum_score config st) eqn:Eu.
  2:{ (* the new target is over the maximum score *)
      rewrite app_nil_r.
      destruct (best_of (valid_list config rules targets)) as [[best s]|].
      - destruct IH as (i & Hi & Hv & Hmin). exists i.
        split; [rewrite lookup_app_l; eauto using lookup_lt_Some|].
        split; [exact Hv|].
        intros j tj sj Hj Hvj. destruct (Hold j tj Hj) as [[_ Hj']|[_ ->]]; [eauto|].
        destruct Hvj as [Hvj Huj]. congruence.
      - intros target s Hin Hv. apply in_app_or in Hin. destruct Hin as [Hin|[<-|[]]].
        + eapply IH; eauto.
        + destruct Hv as [Hv Hu]. congruence. }
  (* the new target is valid with score [st] *)
  assert (Hvt : valid_with config rules t st) by (split; assumption).
  assert (Pt : valid_score config rules (targets ++ [t]) st).
  { exists t. split; [apply in_or_app; simpl; auto | exact Hvt]. }
  rewrite best_of_snoc.
  destruct (best_of (valid_list config rules targets)) as [[best s]|].
  2:{ (* first valid target *)
      exists (length targets). split; [exact Hlast|]. split; [exact Hvt|].
      intros j tj sj Hj Hvj. destruct (Hold j tj Hj) as [[_ Hj']|[-> ->]].
      - exfalso. eapply IH; eauto. eapply list_elem_of_In, list_elem_of_lookup_2; eauto.
      - assert (sj = st) by (destruct Hvj, Hvt; congruence). subst sj.
        split; [apply Hord; exact Pt | lia]. }
  destruct IH as (i & Hi & Hv & Hmin).
  assert (Pb : valid_score config rules (targets ++ [t]) s).
  { apply Hsub. exists best. split; [|exact Hv].
    eapply list_elem_of_In, list_elem_of_lookup_2; eauto. }
  destruct Hord as (Hirr & Htr & Hneg).
  cbn [snd]. destruct (f_ltb st s) eqn:Elt.
  - (* strictly better: the new target becomes the minimum *)
    exists (length targets). split; [exact Hlast|]. split; [exact Hvt|].
    intros j tj sj Hj Hvj. destruct (Hold j tj Hj) as [[Hlt Hj']|[-> ->]].
    + destruct (Hmin j tj sj Hj' Hvj) as [Hge _].
      assert (Pj : valid_score config rules (targets ++ [t]) sj).
      { apply Hsub. exists tj. split; [|exact Hvj].
        eapply list_elem_of_In, list_elem_of_lookup_2; eauto. }
      split.
      * destruct (f_ltb sj st) eqn:E; [|reflexivity].
        rewrite (Htr sj st s Pj Pt Pb E Elt) in Hge. discriminate.
      * intros _. destruct (f_ltb st sj) eqn:E; [reflexivity|].
        rewrite (Hneg st sj s Pt Pj Pb E Hge) in Elt. discriminate.
    + assert (sj = st) by (destruct Hvj, Hvt; congruence). subst sj.
      split; [apply Hirr; exact Pt | lia].
  - (* not strictly better: the earlier minimum stays *)
    exists i. split; [rewrite lookup_app_l; eauto using lookup_lt_Some|].
    split; [exact Hv|].
    intros j tj sj Hj Hvj. destruct (Hold j tj Hj) as [[Hlt Hj']|[-> ->]]; [eauto|].
    assert (sj = st) by (destruct Hvj, Hvt; congruence). subst sj.
    split; [exact Elt|]. intros Hlt. apply lookup_lt_Some in Hi. lia.
Qed.

Lemma _evaluate_target_same_scoring rules rules' target :
  same_scoring rules rules' ->
  _evaluate_target rules target = _evaluate_target rules' target.
Proof.
  intros Hsame. unfold _evaluate_target. generalize (Some f_zero).
  induction Hsame as [|rw rw' rules rules' [Hw Hs] _ IH]; intros acc; [reflexivity|].
  cbn [fold_left]. rewrite IH. f_equal.
  unfold evaluate_step. rewrite Hw, Hs. reflexivity.
Qed.

(** As long as [<] orders the scores of the valid targets as a strict weak
    order, the selected target is a valid one that no valid target
    undercuts, and every valid target before it scores strictly more. *)
Lemma select_target_first_minimum config rules rules' targets :
  same_scoring rules rules' ->
  ordered_scores (valid_score config rules targets) ->
  select_target config rules' targets = select_target config rules targets /\
  match select_target config rules targets with
  | None => forall target s, In target targets -> ~ valid_with config rules target s
  | Some best => exists s, first_minimum config rules targets best s
  end.
Proof.
  intros Hsame Hord. split.
  - unfold select_target. cbv zeta.
    erewrite map_ext; [reflexivity|].
    intros target. cbv beta. f_equal. symmetry.
    apply _evaluate_target_same_scoring. exact Hsame.
  - rewrite select_target_best_of.
    pose proof (best_of_first_minimum config rules targets Hord) as Hbest.
    destruct (best_of (valid_list config rules targets)) as [[best s]|]; cbn.
    + exists s. exact Hbest.
    + exact Hbest.
Qed.

End Proofs.

(** *** The order of binary64 scores *)

Ltac order_cases :=
  repeat match goal with
  | |- context [(?x ?= ?y)%Z] => destruct (Z.compare_spec x y); cbn [CompOpp]
  | |- context [Pos.compare_cont Eq ?x ?y] =>
      change (Pos.compare_cont Eq x y) with (Pos.compare x y);
      destruct (Pos.compare_spec x y); cbn [CompOpp]
  end.

Lemma SFleb_trans (a b c : SpecFloat.spec_float) :
  SpecFloat.SFleb a b = true -> SpecFloat.SFleb b c = true -> SpecFloat.SFleb a c = true.
Proof.
  unfold SpecFloat.SFleb, SpecFloat.SFcompare.
  destruct a as [sa|sa| |sa ma ea], b as [sb|sb| |sb mb eb], c as [sc|sc| |sc mc ec];
    try destruct sa; try destruct sb; try destruct sc;
    try discriminate; try reflexivity;
    order_cases; intros; try discriminate; try reflexivity; subst; lia.
Qed.

Lemma SFltb_leb (a b : SpecFloat.spec_float) :
  SpecFloat.SFleb a a = true -> SpecFloat.SFleb b b = true ->
  SpecFloat.SFltb a b = negb (SpecFloat.SFleb b a).
Proof.
  unfold SpecFloat.SFleb, SpecFloat.SFltb, SpecFloat.SFcompare.
  destruct a as [sa|sa| |sa ma ea], b as [sb|sb| |sb mb eb];
    try destruct sa; try destruct sb;
    try discriminate; try reflexivity;
    order_cases; intros; try discriminate; try reflexivity; subst; lia.
Qed.

(** [<=] on binary64 is transitive. *)
Lemma leb_trans (a b c : PrimFloat.float) :
  PrimFloat.leb a b = true -> PrimFloat.leb b c = true -> PrimFloat.leb a c = true.
Proof. rewrite !FloatAxioms.leb_spec. apply SFleb_trans. Qed.

(** On floats that are not NaN (those with [x <= x]), [a < b] is the
    negation of [b <= a]. *)
Lemma ltb_leb (a b : PrimFloat.float) :
  PrimFloat.leb a a = true -> PrimFloat.leb b b = true ->
  PrimFloat.ltb a b = negb (PrimFloat.leb b a).
Proof. rewrite !FloatAxioms.leb_spec, FloatAxioms.ltb_spec. apply SFltb_leb. Qed.

Lemma ltb_le (a b : PrimFloat.float) :
  PrimFloat.ltb a b = true -> PrimFloat.leb a b = true.
Proof.
  rewrite FloatAxioms.leb_spec, FloatAxioms.ltb_spec.
  unfold SpecFloat.SFleb, SpecFloat.SFltb.
  destruct (SpecFloat.SFcompare _ _) as [[]|]; congruence.
Qed.

Lemma ordered_without_nan (P : PrimFloat.float -> Prop) :
  (forall s, P s -> PrimFloat.leb s s = true) ->
  ordered_scores (F := PrimFloat.float) P.
Proof.
  intros Hnan. unfold ordered_scores. cbn [f_ltb binary64].
  split; [|split].
  - intros a Ha. rewrite ltb_leb by auto. rewrite Hnan by exact Ha. reflexivity.
  - intros a b c Ha Hb Hc Hab Hbc.
    rewrite (ltb_leb a c) by auto.
    destruct (PrimFloat.leb c a) eqn:E; [|reflexivity].
    apply ltb_le in Hab. pose proof (leb_trans c a b E Hab) as Hcb.
    rewrite (ltb_leb b c), Hcb in Hbc by auto. discriminate.
  - intros a b c Ha Hb Hc Hab Hbc.
    rewrite (ltb_leb a b) in Hab by auto. rewrite (ltb_leb b c) in Hbc by auto.
    rewrite (ltb_leb a c) by auto.
    destruct (PrimFloat.leb b a) eqn:Eba; [|discriminate].
    destruct (PrimFloat.leb c b) eqn:Ecb; [|discriminate].
    rewrite (leb_trans c b a Ecb Eba). reflexivity.
Qed.

Section Binary64.
Context {Target : Type}.
Implicit Types (config : TargetSelectorConfiguration PrimFloat.float)
               (rules : list (TargetSelectionRule PrimFloat.float Target * PrimFloat.float))
               (targets : list Target).

(** C10 (amended): on binary64 scores, [select_target] is a function of the
    scores the rules give (two rule lists with the same weights and the same
    scores select the same target), and, provided no valid target has the
    weighted score NaN, it returns [None] when no target is valid and
    otherwise a valid target whose weighted score is at most that of every
    valid target and strictly below that of every valid target earlier in
    the input: the earliest target of minimal weighted score. *)
Theorem select_target_earliest_minimum config rules rules' targets :
  same_scoring rules rules' ->
  (forall target s, In target targets -> valid_with config rules target s ->
     PrimFloat.leb s s = true) ->
  select_target config rules' targets = select_target config rules targets /\
  match select_target config rules targets with
  | None => forall target s, In target targets -> ~ valid_with config rules target s
  | Some best =>
      exists i s, targets !! i = Some best /\ valid_with config rules best s /\
        forall j tj sj, targets !! j = Some tj -> valid_with config rules tj sj ->
          PrimFloat.leb s sj = true /\ ((j < i)%nat -> PrimFloat.ltb s sj = true)
  end.
Proof.
  intros Hsame Hnan.
  assert (Hord : ordered_scores (valid_score config rules targets)).
  { apply ordered_without_nan. intros s (target & Hin & Hv). eauto. }
  destruct (select_target_first_minimum config rules rules' targets Hsame Hord) as [Heq Hmin].
  split; [exact Heq|].
  destruct (select_target config rules targets) as [best|]; [|exact Hmin].
  destruct Hmin as (s & i & Hi & Hv & Hmin). exists i, s.
  split; [exact Hi|]. split; [exact Hv|].
  intros j tj sj Hj Hvj. destruct (Hmin j tj sj Hj Hvj) as [Hge Hlt].
  split; [|exact Hlt]. cbn [f_ltb binary64] in Hge.
  assert (Hs : PrimFloat.leb s s = true).
  { eapply Hnan; [|exact Hv]. eapply list_elem_of_In, list_elem_of_lookup_2. exact Hi. }
  assert (Hsj : PrimFloat.leb sj sj = true).
  { eapply Hnan; [|exact Hvj]. eapply list_elem_of_In, list_elem_of_lookup_2. exact Hj. }
  rewrite ltb_leb in Hge by assumption.
  destruct (PrimFloat.leb s sj); [reflexivity | discriminate].
Qed.

End Binary64.

Lemma example_scores_not_nan (target : nat) (s : PrimFloat.float) :
  In target example_targets -> valid_with capped_config example_rules target s ->
  PrimFloat.leb s s = true.
Proof.
  intros Hin [Hev _].
  destruct Hin as [<-|[<-|[<-|[<-|[]]]]]; vm_compute in Hev;
    injection Hev as <- || discriminate; reflexivity.
Defined.

Lemma example_same_scoring : same_scoring example_rules example_rules.
Proof. repeat constructor. Defined.

Lemma select_target_earliest_minimum_witness :
  select_target capped_config example_rules example_targets = Some 2%nat /\
  exists i s, example_targets !! i = Some 2%nat /\
    valid_with capped_config example_rules 2%nat s /\
    forall j tj sj, example_targets !! j = Some tj ->
      valid_with capped_config example_rules tj sj ->
      PrimFloat.leb s sj = true /\ ((j < i)%nat -> PrimFloat.ltb s sj = true).
Proof.
  pose proof (select_target_earliest_minimum capped_config example_rules example_rules
                example_targets example_same_scoring example_scores_not_nan) as [_ Hmin].
  split; [reflexivity|]. exact Hmin.
Defined.

(** C10 (as stated, refuted): with the weighted scores NaN, 0.5 and 0.5 for
    the targets 1, 2 and 3, all three are valid, the minimal weighted score
    0.5 is attained by the targets 2 and 3, and [select_target] returns
    target 1: every comparison with NaN is false, so the running minimum
    of [min] never leaves the first item. *)
Lemma select_target_keeps_leading_nan :
  select_target example_config nan_rules [1; 2; 3]%nat = Some 1%nat /\
  _evaluate_target nan_rules 1%nat = Some PrimFloat.nan /\
  _evaluate_target nan_rules 2%nat = Some Literals.half /\
  _evaluate_target nan_rules 3%nat = Some Literals.half /\
  valid_with example_config nan_rules 1%nat PrimFloat.nan /\
  valid_with example_config nan_rules 2%nat Literals.half /\
  PrimFloat.leb PrimFloat.nan Literals.half = false /\
  PrimFloat.ltb Literals.half PrimFloat.nan = false.
Proof. vm_compute. repeat split. Qed.

End TargetSelectionProofs.
(** ** Orientations and transforms *)

Module SpatialProofs.
Import Quaternions.

(** *** Exact real arithmetic *)

Section Exact.
Local Open Scope R_scope.

Lemma qnorm_exact (q : Orientation.Orientation R) :
  qnorm (Orientation.as_tuple q) = sqrt (Orientation.norm_sq q).
Proof. reflexivity. Qed.

Lemma norm_sq_pos (w x y z : R) :
  (w, x, y, z) <> (0, 0, 0, 0) ->
  0 < Orientation.norm_sq (Orientation.fields w x y z).
Proof.
  intros Hne. unfold Orientation.norm_sq. cbn.
  destruct (Req_dec w 0) as [->|]; [|nra].
  destruct (Req_dec x 0) as [->|]; [|nra].
  destruct (Req_dec y 0) as [->|]; [|nra].
  destruct (Req_dec z 0) as [->|]; [|nra].
  congruence.
Qed.

(** In exact arithmetic the constructor yields a unit quaternion from every
    quadruple other than the all-zero one. *)
Lemma new_unit_exact (w x y z : R) :
  (w, x, y, z) <> (0, 0, 0, 0) ->
  Orientation.norm_sq (Orientation.new w x y z) = 1 /\
  qnorm (Orientation.as_tuple (Orientation.new w x y z)) = 1.
Proof.
  intros Hne. pose proof (norm_sq_pos w x y z Hne) as Hpos.
  assert (Hsq : Orientation.norm_sq (Orientation.new w x y z) = 1).
  { unfold Orientation.new, Orientation._normalize_in_place.
    rewrite qnorm_exact.
    remember (Orientation.norm_sq (Orientation.fields w x y z)) as N eqn:EN.
    assert (Hn : 0 < sqrt N) by (apply sqrt_lt_R0; exact Hpos).
    assert (Hnn : sqrt N * sqrt N = N) by (apply sqrt_sqrt; lra).
    unfold Orientation.norm_sq. cbn.
    replace (w / sqrt N * (w / sqrt N) + x / sqrt N * (x / sqrt N) +
             y / sqrt N * (y / sqrt N) + z / sqrt N * (z / sqrt N))
      with ((w * w + x * x + y * y + z * z) / (sqrt N * sqrt N))
      by (field; lra).
    rewrite Hnn. unfold Orientation.norm_sq in EN. cbn in EN. rewrite <- EN.
    field. lra. }
  split; [exact Hsq|]. rewrite qnorm_exact, Hsq. apply sqrt_1.
Qed.

(** Normalising a unit quaternion changes nothing. *)
Lemma new_of_unit (q : Orientation.Orientation R) :
  Orientation.norm_sq q = 1 ->
  Orientation.new (Orientation.w q) (Orientation.x q) (Orientation.y q) (Orientation.z q) = q.
Proof.
  intros Hq. destruct q as [w x y z].
  cbn [Orientation.w Orientation.x Orientation.y Orientation.z].
  unfold Orientation.new, Orientation._normalize_in_place.
  rewrite qnorm_exact, Hq, sqrt_1. cbn. f_equal; field.
Qed.

Lemma conjugate_of_unit (q : Orientation.Orientation R) :
  Orientation.norm_sq q = 1 ->
  Orientation.conjugate q =
    Orientation.fields (Orientation.w q) (- Orientation.x q)
                       (- Orientation.y q) (- Orientation.z q) /\
  Orientation.norm_sq (Orientation.conjugate q) = 1.
Proof.
  intros Hq. destruct q as [w x y z]. unfold Orientation.norm_sq in Hq. cbn in Hq.
  assert (Hc : Orientation.conjugate (Orientation.fields w x y z) =
               Orientation.fields w (- x) (- y) (- z)).
  { unfold Orientation.conjugate. cbn.
    rewrite <- (new_of_unit (Orientation.fields w (- x) (- y) (- z))).
    - cbn. f_equal; ring.
    - unfold Orientation.norm_sq. cbn. nra. }
  split; [exact Hc|]. rewrite Hc. unfold Orientation.norm_sq. cbn. nra.
Qed.

Lemma roundtrip_of_unit (t p : Position.Position R) (q : Orientation.Orientation R) :
  Orientation.norm_sq q = 1 ->
  Transform.apply_to_position (Transform.get_inverse (Transform.mk t q))
    (Transform.apply_to_position (Transform.mk t q) p) = p.
Proof.
  intros Hq.
  destruct (conjugate_of_unit q Hq) as [Hc Hcu].
  destruct (conjugate_of_unit _ Hcu) as [Hcc _].
  destruct t as [tx ty tz], p as [px py pz].
  unfold Transform.apply_to_position, Transform.get_inverse, Transform.apply_to_vector.
  cbn [Transform.rotation Transform.translation Position.as_tuple
       Position.x Position.y Position.z].
  rewrite Hcc, Hc. clear Hc Hcu Hcc.
  destruct q as [w x y z]. unfold Orientation.norm_sq in Hq. cbn in Hq. cbn.
  assert (Hx : forall v : R, (w * w + x * x + y * y + z * z) *
                             (w * w + x * x + y * y + z * z) * v = v)
    by (intros v; rewrite Hq; ring).
  f_equal; match goal with |- _ = ?v => transitivity
    ((w * w + x * x + y * y + z * z) * (w * w + x * x + y * y + z * z) * v);
    [ring | apply Hx] end.
Qed.

End Exact.



(** *** IEEE 754 binary64 *)

Lemma ltb_nan_l (a : PrimFloat.float) : PrimFloat.ltb PrimFloat.nan a = false.
Proof. rewrite FloatAxioms.ltb_spec. reflexivity. Qed.


(** C3 (the code at the failing input): in binary64 the constructor turns
    the all-zero quadruple into four NaNs; the norm of the result is NaN,
    and its deviation from one is below no tolerance. *)
Theorem zero_orientation_not_unit :
  zero_orientation =
    Orientation.fields PrimFloat.nan PrimFloat.nan PrimFloat.nan PrimFloat.nan /\
  Orientation.from_values [PrimFloat.zero; PrimFloat.zero; PrimFloat.zero; PrimFloat.zero]
    = Ok zero_orientation /\
  qnorm (Orientation.as_tuple zero_orientation) = PrimFloat.nan /\
  forall tolerance, Orientation.unit_within tolerance zero_orientation = false.
Proof.
  split; [vm_compute; reflexivity|]. split; [reflexivity|].
  split; [vm_compute; reflexivity|].
  intros tolerance. unfold Orientation.unit_within.
  change (f_abs _) with PrimFloat.nan. apply ltb_nan_l.
Qed.

(** *** The initial Kalman estimate *)

Section ExactKalman.
Local Open Scope R_scope.
Import KalmanTrackedTarget.

(** In exact arithmetic the covariance built from a 3 by 3 variance array
    is diagonal and carries the variances. *)
Lemma var_to_covar_exact (a0 a1 a2 b0 b1 b2 c0 c1 c2 : R) (k l m n : nat) :
  (k < 3)%nat -> (l < 3)%nat -> (m < 3)%nat -> (n < 3)%nat ->
  let var := [[a0; a1; a2]; [b0; b1; b2]; [c0; c1; c2]] in
  tensor_get (var_to_covar var) k l m n =
  if (k =? m)%nat && (l =? n)%nat then entry var k l else 0.
Proof.
  intros Hk Hl Hm Hn.
  destruct k as [|[|[|k]]]; [| | |lia];
  destruct l as [|[|[|l]]]; [| | |lia| | | |lia| | | |lia];
  destruct m as [|[|[|m]]]; try lia;
  destruct n as [|[|[|n]]]; try lia;
  cbn; ring.
Qed.

(** The prior the constructor assembles, in exact arithmetic, for the plate
    configuration: the mean holds the measured position and zeros; the
    covariance is diagonal, with the diagonal of the measurement's
    covariance in the position slots and the configured derivative
    variances in the velocity and acceleration slots. *)
Lemma initial_estimate_exact (num_measured : nat) (v0 v1 v2 v3 v4 v5 : R)
    (px py pz : R) (c00 c01 c02 c10 c11 c12 c20 c21 c22 : R) :
  let config := mkTargetConfig 3 2 num_measured [v0; v1; v2; v3; v4; v5] in
  let measurement :=
    Measurement.mkMeasured (Position.mk px py pz)
      (Measurement.mkUncertainty [[c00; c01; c02]; [c10; c11; c12]; [c20; c21; c22]]) in
  exists s,
    initial_estimate config measurement =
      Ok ([[px; py; pz]; [0; 0; 0]; [0; 0; 0]], s) /\
    forall k l m n, (k < 3)%nat -> (l < 3)%nat -> (m < 3)%nat -> (n < 3)%nat ->
      tensor_get s k l m n =
      if (k =? m)%nat && (l =? n)%nat
      then entry [[c00; c11; c22]; [v0; v1; v2]; [v3; v4; v5]] k l
      else 0.
Proof.
  cbv zeta. eexists. split; [reflexivity|].
  intros k l m n Hk Hl Hm Hn.
  apply (var_to_covar_exact c00 c11 c22 v0 v1 v2 v3 v4 v5 k l m n Hk Hl Hm Hn).
Qed.

End ExactKalman.

(** C2 (the code at the failing input): for a first measurement with
    variance 0.25 on each axis, the prior mean holds the measured position
    and zeros, the velocity and acceleration slots of the prior covariance
    hold the configured variances 1 and 2, and the three position slots
    hold 0.25, the variance of the measurement, which is far below 1e11. *)
Theorem initial_position_variance_is_measured :
  exists s,
    KalmanTrackedTarget.initial_estimate example_target_config example_measurement =
      Ok ([[Literals.half; Literals.quarter; Literals.two];
           [PrimFloat.zero; PrimFloat.zero; PrimFloat.zero];
           [PrimFloat.zero; PrimFloat.zero; PrimFloat.zero]], s) /\
    map (fun j => KalmanTrackedTarget.tensor_get s 0 j 0 j) [0; 1; 2]%nat
      = [Literals.quarter; Literals.quarter; Literals.quarter] /\
    map (fun j => KalmanTrackedTarget.tensor_get s 1 j 1 j) [0; 1; 2]%nat
      = [PrimFloat.one; PrimFloat.one; PrimFloat.one] /\
    map (fun j => KalmanTrackedTarget.tensor_get s 2 j 2 j) [0; 1; 2]%nat
      = [Literals.two; Literals.two; Literals.two] /\
    f_ltb Literals.quarter Literals._1e11 = true.
Proof.
  eexists. split; [vm_compute; reflexivity|]. repeat split.
Qed.

End SpatialProofs.
(** ** The framed serial transceiver *)

Module UartProofs.
Import Uart BytesProofs CrcProofs.

#[local] Arguments crc8 : simpl never.
#[local] Arguments crc16 : simpl never.
#[local] Arguments unpack_H : simpl never.
#[local] Arguments byte_to_Z : simpl never.
#[local] Arguments bytes_eqb : simpl never.

Section Proofs.
Context {Msg : Type}.
Implicit Types (t : Transceiver Msg) (evs : list (event Msg)).

(** *** The shape of a package *)

Lemma pack_H_inv (n : Z) (l : list byte) :
  pack_H n = Some l -> exists lo hi, l = [lo; hi] /\ unpack_H lo hi = n.
Proof.
  intros Hp. assert (Hp' := Hp). unfold pack_H in Hp'.
  destruct ((0 <=? n) && (n <=? 65535)); [|discriminate].
  injection Hp' as <-. do 2 eexists. split; [reflexivity|].
  eapply pack_H_unpack. exact Hp.
Qed.

Lemma pack_B_inv (n : Z) (l : list byte) :
  pack_B n = Some l -> exists b, l = [b] /\ byte_to_Z b = n.
Proof.
  unfold pack_B. destruct ((0 <=? n) && (n <=? 255)) eqn:E; [|discriminate].
  apply andb_prop in E. intros [= <-]. eexists. split; [reflexivity|].
  apply byte_to_Z_to_byte. lia.
Qed.

(** A package is the start byte, the length, the sequence number and the
    CRC-8 of these four bytes, then the type id, the serialized message and
    the CRC-16 of everything before it. *)
Lemma package_shape `{SerializableMessage Msg} (msg : Msg) (seq_num : Z) (package : list byte) :
  package_of msg seq_num = Ok package ->
  exists l0 l1 sq c8 ty0 ty1 f0 f1,
    package = xa5 :: l0 :: l1 :: sq :: c8 :: ty0 :: ty1 :: serialize msg ++ [f0; f1] /\
    unpack_H l0 l1 = Z.of_nat (length (serialize msg)) /\
    byte_to_Z sq = seq_num /\
    byte_to_Z c8 = crc8 [xa5; l0; l1; sq] crc8_default /\
    unpack_H ty0 ty1 = get_type_id msg /\
    unpack_H f0 f1 =
      crc16 ([xa5; l0; l1; sq; c8] ++ ty0 :: ty1 :: serialize msg) crc16_default.
Proof.
  unfold package_of. cbv zeta.
  destruct (pack_H (Z.of_nat (length (serialize msg)))) as [len_bytes|] eqn:Elen;
    [|discriminate].
  destruct (pack_B seq_num) as [seq_bytes|] eqn:Eseq; [|discriminate].
  apply pack_H_inv in Elen. destruct Elen as (l0 & l1 & -> & Hlen).
  apply pack_B_inv in Eseq. destruct Eseq as (sq & -> & Hseq).
  cbn [app HEADER_START].
  destruct (pack_B (crc8 [xa5; l0; l1; sq] crc8_default)) as [crc8_bytes|] eqn:Ec8;
    [|discriminate].
  apply pack_B_inv in Ec8. destruct Ec8 as (c8 & -> & Hc8).
  destruct (pack_H (get_type_id msg)) as [type_bytes|] eqn:Ety; [|discriminate].
  apply pack_H_inv in Ety. destruct Ety as (ty0 & ty1 & -> & Hty).
  cbn [app].
  match goal with |- context [pack_H ?c] => destruct (pack_H c) as [crc_bytes|] eqn:Ef end;
    [|discriminate].
  apply pack_H_inv in Ef. destruct Ef as (f0 & f1 & -> & Hf).
  intros [= <-]. exists l0, l1, sq, c8, ty0, ty1, f0, f1.
  repeat split; auto.
Qed.

(** *** Handler calls among the events *)

Lemma handler_calls_log evs (e : event Msg) :
  (forall tid msg ts, e <> Handle tid msg ts) ->
  handler_calls (evs ++ [e]) = handler_calls evs.
Proof.
  intros He. unfold handler_calls. rewrite omap_app. cbn.
  destruct e; try apply app_nil_r. exfalso. eapply He. reflexivity.
Qed.

Lemma handler_calls_handle evs tid (msg : Msg) ts :
  handler_calls (evs ++ [Handle tid msg ts]) = handler_calls evs ++ [(tid, msg, ts)].
Proof. unfold handler_calls. rewrite omap_app. reflexivity. Qed.

(** *** The blocks of the loop body *)

Ltac proj_simpl :=
  cbn [discarded_bytes_warning_threshold _handler_dict _get_current_time _state _msg_len
       _msg_running_crc16 last_header_receipt_timestamp
       _bytes_thrown_away_since_last_message _bytes_thrown_away_since_last_log
       serial_in serial_out clock_reads events].

(** A read of as many bytes as the port holds at its front. *)
Lemma serial_read_app (n : nat) (pre post : list byte)
    thr dict now st len crc ts tm tl out clk evs :
  length pre = n ->
  serial_read n (mkTransceiver thr dict now st len crc ts tm tl (pre ++ post) out clk evs)
  = (Ok pre, mkTransceiver thr dict now st len crc ts tm tl post out clk evs).
Proof.
  intros <-. unfold serial_read. proj_simpl.
  rewrite (proj2 (Nat.ltb_ge _ _)) by (rewrite length_app; lia).
  rewrite take_app_length, drop_app_length. reflexivity.
Qed.

(** Waiting for a header, the start byte arrives: the receiver goes on to
    read the header, stamped with the current time; only log records are
    emitted. *)
Lemma waiting_reads_start max_packets thr dict now len crc ts tm tl rest out clk evs :
  exists tm' tl' evs',
    waiting_for_header max_packets
      (mkTransceiver thr dict now WAITING_FOR_HEADER len crc ts tm tl (xa5 :: rest) out clk evs)
    = (Ok Fallthrough,
       mkTransceiver thr dict now READING_HEADER len crc (Some (now clk)) tm' tl' rest out
                     (S clk) evs') /\
    handler_calls evs' = handler_calls evs.
Proof.
  unfold waiting_for_header, bind, get, ret, serial_read, in_waiting.
  cbn. rewrite andb_false_r. cbn. rewrite ?firstn_O, ?drop_0.
  change (bytes_eqb [xa5] HEADER_START) with true. cbn.
  destruct (0 <? tm); cbn; destruct (thr <? tl); cbn;
    do 3 eexists; (split; [reflexivity|]);
    rewrite ?handler_calls_log by discriminate; reflexivity.
Qed.

(** Waiting for a header, another byte arrives: it is thrown away. *)
Lemma waiting_discards max_packets thr dict now len crc ts tm tl b rest out clk evs :
  b <> xa5 ->
  exists tm' tl' evs',
    waiting_for_header max_packets
      (mkTransceiver thr dict now WAITING_FOR_HEADER len crc ts tm tl (b :: rest) out clk evs)
    = (Ok Fallthrough,
       mkTransceiver thr dict now WAITING_FOR_HEADER len crc ts tm' tl' rest out clk evs') /\
    handler_calls evs' = handler_calls evs.
Proof.
  intros Hb.
  assert (Hne : bytes_eqb [b] HEADER_START = false).
  { destruct (bytes_eqb [b] HEADER_START) eqn:E; [|reflexivity].
    apply bytes_eqb_eq in E. unfold HEADER_START in E. congruence. }
  unfold waiting_for_header, bind, get, ret, serial_read, in_waiting.
  cbn. rewrite andb_false_r. cbn. rewrite ?firstn_O, ?drop_0.
  rewrite Hne. cbn. destruct (thr <? tl + 1); cbn;
    do 3 eexists; (split; [reflexivity|]);
    rewrite ?handler_calls_log by discriminate; reflexivity.
Qed.

(** Reading a header whose CRC-8 matches: the receiver records the length
    and the running CRC-16 and goes on to read the body. *)
Lemma reading_header_accepts max_packets num thr dict now len crc ts tm tl
    l0 l1 sq c8 rest out clk evs :
  crc8 [xa5; l0; l1; sq] crc8_default = byte_to_Z c8 ->
  reading_header max_packets num
    (mkTransceiver thr dict now READING_HEADER len crc ts tm tl
       (l0 :: l1 :: sq :: c8 :: rest) out clk evs)
  = (Ok Fallthrough,
     mkTransceiver thr dict now READING_BODY (unpack_H l0 l1)
       (crc16 [xa5; l0; l1; sq; c8] crc16_default) ts tm tl rest out clk evs).
Proof.
  intros Hcrc.
  unfold reading_header, bind, get, ret, serial_read, in_waiting, HEADER_SIZE.
  cbn. rewrite andb_false_r. cbn. rewrite ?firstn_O, ?drop_0. cbn.
  rewrite Hcrc, Z.eqb_refl. reflexivity.
Qed.

(** Reading a header whose CRC-8 does not match: the header is dropped and
    logged, the packet is counted, and the receiver waits for a header. *)
Lemma reading_header_rejects max_packets num thr dict now len crc ts tm tl
    l0 l1 sq c8 rest out clk evs :
  crc8 [xa5; l0; l1; sq] crc8_default <> byte_to_Z c8 ->
  exists evs',
    reading_header max_packets num
      (mkTransceiver thr dict now READING_HEADER len crc ts tm tl
         (l0 :: l1 :: sq :: c8 :: rest) out clk evs)
    = (Ok (Continue (num + 1)),
       mkTransceiver thr dict now WAITING_FOR_HEADER (unpack_H l0 l1) crc ts tm tl
         rest out clk evs') /\
    handler_calls evs' = handler_calls evs.
Proof.
  intros Hcrc. apply Z.eqb_neq in Hcrc.
  unfold reading_header, bind, get, ret, serial_read, in_waiting, HEADER_SIZE.
  cbn. rewrite andb_false_r. cbn. rewrite ?firstn_O, ?drop_0. cbn.
  rewrite Hcrc. cbn. eexists. split; [reflexivity|].
  apply handler_calls_log. discriminate.
Qed.

(** The three reads of the body block, on a port that holds the body. *)
Lemma reading_body_reads max_packets num thr dict now crc ts tm tl
    ty0 ty1 (data : list byte) f0 f1 rest out clk evs :
  reading_body max_packets num
    (mkTransceiver thr dict now READING_BODY (Z.of_nat (length data)) crc ts tm tl
       (ty0 :: ty1 :: data ++ f0 :: f1 :: rest) out clk evs)
  = let running := crc16 (ty0 :: ty1 :: data) crc in
    let received := unpack_H f0 f1 in
    let t0 := mkTransceiver thr dict now READING_BODY (Z.of_nat (length data)) running ts tm tl
                rest out clk evs in
    if negb (running =? received)
    then (Ok (Continue (num + 1)),
          mkTransceiver thr dict now WAITING_FOR_HEADER (Z.of_nat (length data)) running ts
            tm tl rest out clk
            (evs ++ [LogBodyCrcFailed running received (Z.of_nat (length data))]))
    else
      match dict !! unpack_H ty0 ty1 with
      | None =>
          (Ok (Continue (num + 1)),
           mkTransceiver thr dict now WAITING_FOR_HEADER 0 0 ts tm tl rest out clk
             (evs ++ [WarnNoHandler (unpack_H ty0 ty1) data]))
      | Some handler =>
          match msg_parse handler data with
          | None =>
              (Raise MessageParseUnhandledError,
               mkTransceiver thr dict now WAITING_FOR_HEADER 0 0 ts tm tl rest out clk evs)
          | Some msg =>
              match ts with
              | None => (Raise AttributeError, t0)
              | Some timestamp =>
                  (Ok (Continue (num + 1)),
                   mkTransceiver thr dict now WAITING_FOR_HEADER 0 0 ts tm tl rest out clk
                     (evs ++ [Handle (type_id handler) msg timestamp]))
              end
          end
      end.
Proof.
  unfold reading_body, bind, get, ret, in_waiting, MSG_TYPE_SIZE, FOOTER_SIZE.
  proj_simpl. rewrite Nat2Z.id.
  assert (Hlen : (length (ty0 :: ty1 :: data ++ f0 :: f1 :: rest)
                    <? 2 + length data + 2)%nat = false).
  { apply Nat.ltb_ge. cbn [length]. rewrite length_app. cbn [length]. lia. }
  rewrite Hlen, andb_false_r. clear Hlen.
  change (ty0 :: ty1 :: data ++ f0 :: f1 :: rest)
    with ([ty0; ty1] ++ data ++ [f0; f1] ++ rest).
  rewrite serial_read_app by reflexivity. cbv beta iota. proj_simpl.
  rewrite serial_read_app by reflexivity. cbv beta iota. proj_simpl.
  rewrite serial_read_app by reflexivity. cbv beta iota. proj_simpl.
  change ([ty0; ty1] ++ data) with (ty0 :: ty1 :: data).
  unfold set_msg_running_crc16, emit, set_state, reset_states, set_msg_len, bind, ret, raise.
  proj_simpl.
  cbv zeta.
  destruct (negb (crc16 (ty0 :: ty1 :: data) crc =? unpack_H f0 f1)); [reflexivity|].
  destruct (dict !! unpack_H ty0 ty1) as [handler|]; [|reflexivity].
  destruct (msg_parse handler data); [|reflexivity].
  destruct ts; reflexivity.
Qed.

(** *** Rounds of the loop *)

Lemma loop_test_within_limit max_packets num t :
  loop_test max_packets num t = true -> within_limit max_packets num.
Proof.
  unfold loop_test, within_limit. destruct max_packets as [limit|]; [|auto].
  intros Ht. apply andb_prop in Ht. destruct Ht as [_ Ht].
  apply Nat.ltb_lt in Ht. apply Nat.ltb_ge. lia.
Qed.

Lemma loop_body_within_limit max_packets num t :
  within_limit max_packets num ->
  loop_body max_packets num t =
  match (if in_state WAITING_FOR_HEADER t then waiting_for_header max_packets t
         else (Ok Fallthrough, t)) with
  | (Ok Fallthrough, t1) =>
      match (if in_state READING_HEADER t1 then reading_header max_packets num t1
             else (Ok Fallthrough, t1)) with
      | (Ok Fallthrough, t2) =>
          if in_state READING_BODY t2 then reading_body max_packets num t2
          else (Ok (Continue num), t2)
      | other => other
      end
  | other => other
  end.
Proof.
  intros Hlim. unfold loop_body.
  replace (match max_packets with
           | Some limit => (limit <? num)%nat
           | None => false
           end) with false
    by (destruct max_packets; [symmetry; exact Hlim | reflexivity]).
  unfold bind, get, ret.
  destruct (in_state WAITING_FOR_HEADER t).
  - destruct (waiting_for_header max_packets t) as [[[| |n]|e] t1]; try reflexivity.
    destruct (in_state READING_HEADER t1).
    + destruct (reading_header max_packets num t1) as [[[| |n]|e] t2]; try reflexivity.
      destruct (in_state READING_BODY t2); [|reflexivity].
      destruct (reading_body max_packets num t2) as [[c|e] t3]; reflexivity.
    + destruct (in_state READING_BODY t1); [|reflexivity].
      destruct (reading_body max_packets num t1) as [[c|e] t3]; reflexivity.
  - destruct (in_state READING_HEADER t).
    + destruct (reading_header max_packets num t) as [[[| |n]|e] t2]; try reflexivity.
      destruct (in_state READING_BODY t2); [|reflexivity].
      destruct (reading_body max_packets num t2) as [[c|e] t3]; reflexivity.
    + destruct (in_state READING_BODY t); [|reflexivity].
      destruct (reading_body max_packets num t) as [[c|e] t3]; reflexivity.
Qed.

Lemma process_loop_step fuel max_packets num t :
  process_loop (S fuel) max_packets num t =
  if loop_test max_packets num t
  then match loop_body max_packets num t with
       | (Ok (Continue num'), t') => process_loop fuel max_packets num' t'
       | (Ok _, t') => (Ok tt, t')
       | (Raise e, t') => (Raise e, t')
       end
  else (Ok tt, t).
Proof.
  cbn [process_loop]. unfold bind, get, ret.
  destruct (loop_test max_packets num t); [|reflexivity].
  destruct (loop_body max_packets num t) as [[[| |n]|e] t']; reflexivity.
Qed.

(** A round that starts waiting with a byte other than the start byte
    throws the byte away and goes on waiting. *)
Lemma loop_body_discards max_packets num thr dict now len crc ts tm tl b rest out clk evs :
  within_limit max_packets num -> b <> xa5 ->
  exists tm' tl' evs',
    loop_body max_packets num
      (mkTransceiver thr dict now WAITING_FOR_HEADER len crc ts tm tl (b :: rest) out clk evs)
    = (Ok (Continue num),
       mkTransceiver thr dict now WAITING_FOR_HEADER len crc ts tm' tl' rest out clk evs') /\
    handler_calls evs' = handler_calls evs.
Proof.
  intros Hlim Hb.
  destruct (waiting_discards max_packets thr dict now len crc ts tm tl b rest out clk evs Hb)
    as (tm' & tl' & evs' & Hw & Hc).
  exists tm', tl', evs'. split; [|exact Hc].
  rewrite loop_body_within_limit by exact Hlim.
  cbn [in_state _state]. rewrite Hw. reflexivity.
Qed.

(** A round that starts waiting with nothing to read ends the loop without
    a change: by [break] under a cap, by blocking without one. *)
Lemma loop_body_empty max_packets num thr dict now len crc ts tm tl out clk evs :
  within_limit max_packets num ->
  let t := mkTransceiver thr dict now WAITING_FOR_HEADER len crc ts tm tl [] out clk evs in
  loop_body max_packets num t =
  (if is_blocking max_packets then Raise Blocked else Ok Break, t).
Proof.
  intros Hlim. cbv zeta. rewrite loop_body_within_limit by exact Hlim.
  cbn [in_state _state].
  unfold waiting_for_header, bind, get, ret, serial_read, in_waiting. proj_simpl.
  destruct max_packets; reflexivity.
Qed.

(** A round that starts waiting at a header with a wrong CRC-8 drops the
    header and goes on waiting behind it. *)
Lemma loop_body_bad_header max_packets num thr dict now len crc ts tm tl
    l0 l1 sq c8 rest out clk evs :
  within_limit max_packets num ->
  crc8 [xa5; l0; l1; sq] crc8_default <> byte_to_Z c8 ->
  exists len' ts' tm' tl' clk' evs',
    loop_body max_packets num
      (mkTransceiver thr dict now WAITING_FOR_HEADER len crc ts tm tl
         (xa5 :: l0 :: l1 :: sq :: c8 :: rest) out clk evs)
    = (Ok (Continue (num + 1)),
       mkTransceiver thr dict now WAITING_FOR_HEADER len' crc ts' tm' tl' rest out clk' evs') /\
    handler_calls evs' = handler_calls evs.
Proof.
  intros Hlim Hcrc.
  destruct (waiting_reads_start max_packets thr dict now len crc ts tm tl
              (l0 :: l1 :: sq :: c8 :: rest) out clk evs) as (tm' & tl' & evs' & Hw & Hc).
  destruct (reading_header_rejects max_packets num thr dict now len crc (Some (now clk))
              tm' tl' l0 l1 sq c8 rest out (S clk) evs' Hcrc) as (evs'' & Hh & Hc').
  exists (unpack_H l0 l1), (Some (now clk)), tm', tl', (S clk), evs''.
  split; [|congruence].
  rewrite loop_body_within_limit by exact Hlim.
  cbn [in_state _state]. rewrite Hw. cbn [in_state _state]. rewrite Hh. reflexivity.
Qed.

(** A round that starts waiting at a header with the right CRC-8, with the
    body behind it, is the body block run on that body. *)
Lemma loop_body_good_header max_packets num thr dict now len crc ts tm tl
    l0 l1 sq c8 ty0 ty1 (data : list byte) f0 f1 rest out clk evs :
  within_limit max_packets num ->
  crc8 [xa5; l0; l1; sq] crc8_default = byte_to_Z c8 ->
  unpack_H l0 l1 = Z.of_nat (length data) ->
  exists tm' tl' evs',
    loop_body max_packets num
      (mkTransceiver thr dict now WAITING_FOR_HEADER len crc ts tm tl
         (xa5 :: l0 :: l1 :: sq :: c8 :: ty0 :: ty1 :: data ++ f0 :: f1 :: rest) out clk evs)
    = reading_body max_packets num
        (mkTransceiver thr dict now READING_BODY (Z.of_nat (length data))
           (crc16 [xa5; l0; l1; sq; c8] crc16_default) (Some (now clk)) tm' tl'
           (ty0 :: ty1 :: data ++ f0 :: f1 :: rest) out (S clk) evs') /\
    handler_calls evs' = handler_calls evs.
Proof.
  intros Hlim Hcrc Hlen.
  destruct (waiting_reads_start max_packets thr dict now len crc ts tm tl
              (l0 :: l1 :: sq :: c8 :: ty0 :: ty1 :: data ++ f0 :: f1 :: rest) out clk evs)
    as (tm' & tl' & evs' & Hw & Hc).
  exists tm', tl', evs'. split; [|exact Hc].
  rewrite loop_body_within_limit by exact Hlim.
  cbn [in_state _state]. rewrite Hw. cbn [in_state _state].
  rewrite (reading_header_accepts _ _ _ _ _ _ _ _ _ _ _ _ _ _ _ _ _ _ Hcrc).
  cbn [in_state _state]. rewrite Hlen. reflexivity.
Qed.

(** *** Scanning for a start byte *)

(** While no start byte arrives, the receiver keeps waiting and calls no
    handler; with more fuel than bytes the loop ends of itself, by
    returning or by blocking on the empty port. *)
Lemma scan_without_start fuel max_packets num thr dict now len crc ts tm tl input out clk evs :
  xa5 ∉ input ->
  let outcome := process_loop fuel max_packets num
             (mkTransceiver thr dict now WAITING_FOR_HEADER len crc ts tm tl input out clk evs) in
  _state (snd outcome) = WAITING_FOR_HEADER /\
  handler_calls (events (snd outcome)) = handler_calls evs /\
  ((length input < fuel)%nat -> fst outcome <> Raise OutOfFuel).
Proof.
  revert num tm tl input evs.
  induction fuel as [|fuel IH]; intros num tm tl input evs Hin; cbv zeta.
  { cbn. repeat split. lia. }
  rewrite process_loop_step.
  destruct (loop_test _ _ _) eqn:Htest; [|cbn; repeat split; discriminate].
  apply loop_test_within_limit in Htest.
  destruct input as [|b rest].
  - rewrite (loop_body_empty max_packets num thr dict now len crc ts tm tl out clk evs Htest).
    destruct (is_blocking max_packets); cbn; repeat split; discriminate.
  - assert (Hb : b <> xa5) by (intros ->; apply Hin; left).
    assert (Hrest : xa5 ∉ rest) by (intros Hr; apply Hin; right; exact Hr).
    destruct (loop_body_discards max_packets num thr dict now len crc ts tm tl b rest out
                clk evs Htest Hb) as (tm' & tl' & evs' & -> & Hc).
    rewrite <- Hc.
    destruct (IH num tm' tl' rest evs' Hrest) as (Hs & Hcalls & Hfuel).
    split; [exact Hs|]. split; [exact Hcalls|].
    intros Hlt. apply Hfuel. cbn [length] in Hlt. lia.
Qed.

(** *** The loop ends within its fuel *)

(** [consumes m need]: run in any state, [m] never runs out of fuel, and
    when it returns [a] it has read at least [need a] bytes from the port
    and put none back. *)
Definition consumes {A : Type} (m : M (Transceiver Msg) A) (need : A -> nat) : Prop :=
  forall t,
    match m t with
    | (Ok a, t') => (length (serial_in t') + need a <= length (serial_in t))%nat
    | (Raise e, _) => e <> OutOfFuel
    end.

Lemma consumes_ret {A} (a : A) (need : A -> nat) :
  need a = 0%nat -> consumes (ret a) need.
Proof. intros Hn t. cbn. lia. Qed.

Lemma consumes_raise {A} (e : exn) (need : A -> nat) :
  e <> OutOfFuel -> consumes (raise e) need.
Proof. intros He t. exact He. Qed.

Lemma consumes_bind {A B} (m : M (Transceiver Msg) A) (k : A -> M (Transceiver Msg) B)
    (c : nat) (need : B -> nat) :
  consumes m (fun _ => c) -> (forall a, consumes (k a) need) ->
  consumes (bind m k) (fun b => (c + need b)%nat).
Proof.
  intros Hm Hk t. unfold bind. specialize (Hm t).
  destruct (m t) as [[a|e] t1]; [|exact Hm].
  specialize (Hk a t1). destruct (k a t1) as [[b|e] t2]; [lia | exact Hk].
Qed.

Lemma consumes_weaken {A} (m : M (Transceiver Msg) A) (need need' : A -> nat) :
  consumes m need -> (forall a, (need' a <= need a)%nat) -> consumes m need'.
Proof.
  intros Hm Hle t. specialize (Hm t). destruct (m t) as [[a|e] t1]; [|exact Hm].
  specialize (Hle a). lia.
Qed.

Lemma consumes_get {A} (k : Transceiver Msg -> M (Transceiver Msg) A) (need : A -> nat) :
  (forall t0, consumes (k t0) need) -> consumes (bind get k) need.
Proof. intros Hk t. unfold bind, get. apply Hk. Qed.

(** A step that leaves the port alone, followed by [k]. *)
Lemma consumes_then {A} (m : M (Transceiver Msg) unit) (k : M (Transceiver Msg) A)
    (need : A -> nat) :
  consumes m (fun _ => 0%nat) -> consumes k need ->
  consumes (bind m (fun _ => k)) need.
Proof.
  intros Hm Hk. apply (consumes_weaken _ (fun b => (0 + need b)%nat)); [|intros; lia].
  apply consumes_bind; auto.
Qed.

Lemma consumes_serial_read (n : nat) : consumes (serial_read n) (fun _ => n).
Proof.
  intros t. unfold serial_read. destruct (_ <? _)%nat eqn:E; [discriminate|].
  apply Nat.ltb_ge in E. cbn [serial_in]. rewrite length_drop. lia.
Qed.

Lemma consumes_set_state s : consumes (set_state s) (fun _ => 0%nat).
Proof. intros t. cbn. lia. Qed.

Lemma consumes_set_msg_len n : consumes (set_msg_len n) (fun _ => 0%nat).
Proof. intros t. cbn. lia. Qed.

Lemma consumes_set_msg_running_crc16 c : consumes (set_msg_running_crc16 c) (fun _ => 0%nat).
Proof. intros t. cbn. lia. Qed.

Lemma consumes_set_thrown_away a b : consumes (set_thrown_away a b) (fun _ => 0%nat).
Proof. intros t. cbn. lia. Qed.

Lemma consumes_stamp : consumes stamp_header_receipt (fun _ => 0%nat).
Proof. intros t. cbn. lia. Qed.

Lemma consumes_emit e : consumes (emit e) (fun _ => 0%nat).
Proof. intros t. cbn. lia. Qed.

Lemma consumes_reset_states : consumes reset_states (fun _ => 0%nat).
Proof. intros t. cbn. lia. Qed.

Ltac consumes_field :=
  lazymatch goal with
  | |- consumes (set_state _) _ => apply consumes_set_state
  | |- consumes (set_msg_len _) _ => apply consumes_set_msg_len
  | |- consumes (set_msg_running_crc16 _) _ => apply consumes_set_msg_running_crc16
  | |- consumes (set_thrown_away _ _) _ => apply consumes_set_thrown_away
  | |- consumes stamp_header_receipt _ => apply consumes_stamp
  | |- consumes (emit _) _ => apply consumes_emit
  | |- consumes reset_states _ => apply consumes_reset_states
  end.

Ltac consumes_step :=
  lazymatch goal with
  | |- consumes (bind get _) _ => apply consumes_get; intros ?
  | |- consumes (bind _ (fun _ : unit => _)) _ => apply consumes_then; [consumes_field|]
  | |- consumes (ret _) _ => apply consumes_ret; reflexivity
  | |- consumes (raise _) _ => apply consumes_raise; discriminate
  | |- consumes (if ?c then _ else _) _ => destruct c
  | |- consumes (match ?x with _ => _ end) _ => destruct x
  end.

Ltac consumes_steps := cbv zeta; repeat first [consumes_step | consumes_field].

(** What each block has read when it hands over. *)
Definition read_by (k : nat) (c : control) : nat :=
  match c with Break => 0%nat | _ => k end.

Lemma consumes_waiting max_packets :
  consumes (waiting_for_header max_packets) (read_by 1).
Proof.
  unfold waiting_for_header. apply consumes_get; intros t0.
  destruct (_ && _); [apply consumes_ret; reflexivity|].
  apply (consumes_weaken _ (fun c => (1 + 0)%nat)); [|intros []; cbn; lia].
  apply consumes_bind; [apply consumes_serial_read|]. intros first.
  apply consumes_then.
  - destruct (bytes_eqb first HEADER_START); consumes_steps.
  - consumes_steps. apply consumes_then; consumes_steps.
Qed.

Lemma consumes_reading_header max_packets num :
  consumes (reading_header max_packets num) (read_by 4).
Proof.
  unfold reading_header. apply consumes_get; intros t0.
  destruct (_ && _); [apply consumes_ret; reflexivity|].
  apply (consumes_weaken _ (fun c => (4 + 0)%nat)); [|intros []; cbn; lia].
  apply consumes_bind; [apply consumes_serial_read|]. intros header_bytes.
  destruct header_bytes as [|? [|? [|? [|? [|? ?]]]]]; consumes_steps.
Qed.

Lemma consumes_reading_body max_packets num :
  consumes (reading_body max_packets num) (read_by 4).
Proof.
  unfold reading_body. apply consumes_get; intros t0. cbv zeta.
  destruct (_ && _); [apply consumes_ret; reflexivity|].
  apply (consumes_weaken _ (fun c => (MSG_TYPE_SIZE + (0 + (FOOTER_SIZE + 0)))%nat));
    [|intros []; cbn; lia].
  apply consumes_bind; [apply consumes_serial_read|]. intros msg_type_raw.
  apply (consumes_bind _ _ 0);
    [apply (consumes_weaken _ (fun _ => Z.to_nat (_msg_len t0)));
       [apply consumes_serial_read | intros; apply Nat.le_0_l]|].
  intros msg_data.
  apply consumes_bind; [apply consumes_serial_read|]. intros received_crc16_raw.
  destruct msg_type_raw as [|? [|? [|? ?]]]; consumes_steps.
Qed.

(** A round that goes on to the next one has read at least one byte. *)
Lemma loop_body_progress max_packets num t :
  match loop_body max_packets num t with
  | (Ok (Continue _), t') => (length (serial_in t') < length (serial_in t))%nat
  | (Ok _, _) => True
  | (Raise e, _) => e <> OutOfFuel
  end.
Proof.
  unfold loop_body. destruct (match max_packets with Some _ => _ | None => _ end); [exact I|].
  unfold bind at 1, get at 1.
  pose proof (consumes_waiting max_packets t) as Hw.
  pose proof (consumes_reading_header max_packets num) as Hh.
  pose proof (consumes_reading_body max_packets num) as Hb.
  unfold bind, get, ret.
  destruct t as [thr dict now st len crc ts tm tl input out clk evs].
  destruct st; cbn [in_state _state].
  - (* waiting for a header *)
    destruct (waiting_for_header _ _) as [[[| |n]|e] t1]; cbn in Hw; try exact I; try exact Hw.
    + destruct (in_state READING_HEADER t1).
      * specialize (Hh t1).
        destruct (reading_header _ _ t1) as [[[| |n]|e] t2]; cbn in Hh;
          try exact I; try exact Hh.
        -- destruct (in_state READING_BODY t2).
           ++ specialize (Hb t2).
              destruct (reading_body _ _ t2) as [[[| |n]|e] t3]; cbn in Hb;
                try exact I; try exact Hb. cbn [serial_in] in *. lia.
           ++ cbn [serial_in] in *. lia.
        -- cbn [serial_in] in *. lia.
      * destruct (in_state READING_BODY t1).
        -- specialize (Hb t1).
           destruct (reading_body _ _ t1) as [[[| |n]|e] t3]; cbn in Hb;
             try exact I; try exact Hb. cbn [serial_in] in *. lia.
        -- cbn [serial_in] in *. lia.
    + cbn [serial_in] in *. lia.
  - (* reading a header *)
    clear Hw.
    specialize (Hh (mkTransceiver thr dict now READING_HEADER len crc ts tm tl input out clk evs)).
    destruct (reading_header _ _ _) as [[[| |n]|e] t2]; cbn in Hh; try exact I; try exact Hh.
    + destruct (in_state READING_BODY t2).
      * specialize (Hb t2).
        destruct (reading_body _ _ t2) as [[[| |n]|e] t3]; cbn in Hb;
          try exact I; try exact Hb. cbn [serial_in] in *. lia.
      * cbn [serial_in] in *. lia.
    + cbn [serial_in] in *. lia.
  - (* reading a body *)
    clear Hw Hh.
    specialize (Hb (mkTransceiver thr dict now READING_BODY len crc ts tm tl input out clk evs)).
    destruct (reading_body _ _ _) as [[[| |n]|e] t3]; cbn in Hb;
      try exact I; try exact Hb. cbn [serial_in] in *. lia.
Qed.

Lemma process_loop_fuel fuel max_packets num t :
  (length (serial_in t) < fuel)%nat ->
  fst (process_loop fuel max_packets num t) <> Raise OutOfFuel.
Proof.
  revert num t. induction fuel as [|fuel IH]; intros num t Hlt; [lia|].
  rewrite process_loop_step.
  destruct (loop_test max_packets num t); [|discriminate].
  pose proof (loop_body_progress max_packets num t) as Hp.
  destruct (loop_body max_packets num t) as [[[| |n]|e] t']; cbn [fst];
    try discriminate.
  - apply IH. lia.
  - congruence.
Qed.

(** [process_in] never runs out of its fuel: on every receiver state and
    every input it returns, raises a Python exception or blocks. *)
Lemma process_in_total max_packets t :
  fst (process_in max_packets t) <> Raise OutOfFuel.
Proof. unfold process_in, in_waiting. apply process_loop_fuel. lia. Qed.

(** *** A package sent and received *)

(** A package in the port of a waiting receiver reaches its handler. *)
Lemma package_then_process_in `{SerializableMessage Msg} (msg : Msg) (seq_num : Z)
    (package : list byte) (handler : RxHandler Msg) (max_packets : option nat) t :
  package_of msg seq_num = Ok package ->
  _handler_dict t !! get_type_id msg = Some handler ->
  msg_parse handler (serialize msg) = Some msg ->
  _state t = WAITING_FOR_HEADER ->
  serial_in t = package ->
  max_packets <> Some 0%nat ->
  let outcome := process_in max_packets t in
  fst outcome = (if is_blocking max_packets then Raise Blocked else Ok tt) /\
  handler_calls (events (snd outcome)) =
    handler_calls (events t) ++
    [(type_id handler, msg, _get_current_time t (clock_reads t))] /\
  _state (snd outcome) = WAITING_FOR_HEADER /\
  serial_in (snd outcome) = [].
Proof.
  intros Hpkg Hdict Hparse Hstate Hin Hcap.
  destruct (package_shape msg seq_num package Hpkg)
    as (l0 & l1 & sq & c8 & ty0 & ty1 & f0 & f1 & -> & Hlen & _ & Hc8 & Hty & Hf).
  destruct t as [thr dict now st len crc ts tm tl input out clk evs].
  cbn [_handler_dict _state serial_in events _get_current_time clock_reads] in *.
  subst st input. cbv zeta. unfold process_in, in_waiting. proj_simpl.
  cbn [length]. rewrite process_loop_step.
  assert (Htest : loop_test max_packets 0
            (mkTransceiver thr dict now WAITING_FOR_HEADER len crc ts tm tl
               (xa5 :: l0 :: l1 :: sq :: c8 :: ty0 :: ty1 :: serialize msg ++ [f0; f1])
               out clk evs) = true).
  { unfold loop_test, in_waiting. destruct max_packets as [[|limit]|]; [congruence| |];
      reflexivity. }
  rewrite Htest. apply loop_test_within_limit in Htest.
  destruct (loop_body_good_header max_packets 0 thr dict now len crc ts tm tl
              l0 l1 sq c8 ty0 ty1 (serialize msg) f0 f1 [] out clk evs Htest
              (eq_sym Hc8) Hlen) as (tm' & tl' & evs' & -> & Hcalls).
  rewrite reading_body_reads. cbv zeta.
  rewrite crc16_app by exact crc16_default_range.
  change ([xa5; l0; l1; sq; c8] ++ ty0 :: ty1 :: serialize msg)
    with ([xa5; l0; l1; sq; c8] ++ ty0 :: ty1 :: serialize msg) in Hf.
  rewrite <- Hf, Z.eqb_refl. cbn [negb].
  rewrite Hty, Hdict, Hparse.
  assert (Hrest : forall fuel,
            process_loop fuel max_packets (0 + 1)
              (mkTransceiver thr dict now WAITING_FOR_HEADER 0 0 (Some (now clk)) tm' tl' []
                 out (S clk) (evs' ++ [Handle (type_id handler) msg (now clk)]))
            = (match fuel with
               | O => Raise OutOfFuel
               | S _ => if is_blocking max_packets then Raise Blocked else Ok tt
               end,
               mkTransceiver thr dict now WAITING_FOR_HEADER 0 0 (Some (now clk)) tm' tl' []
                 out (S clk) (evs' ++ [Handle (type_id handler) msg (now clk)]))).
  { intros [|fuel]; [reflexivity|]. rewrite process_loop_step.
    destruct max_packets as [limit|].
    - reflexivity.
    - cbn [loop_test]. rewrite loop_body_empty by exact I. reflexivity. }
  rewrite length_app. cbn [length]. rewrite Nat.add_comm. cbn [Nat.add].
  rewrite Hrest. cbn [fst snd]. proj_simpl.
  rewrite handler_calls_handle, Hcalls. auto.
Qed.

(** [send] writes the package of the message to the port and nothing
    else. *)
Lemma send_writes_package `{SerializableMessage Msg} (msg : Msg) (seq_num : Z) sender :
  fst (send msg seq_num sender) = Ok tt ->
  exists package,
    package_of msg seq_num = Ok package /\
    serial_out (snd (send msg seq_num sender)) = serial_out sender ++ package.
Proof.
  unfold send. destruct (package_of msg seq_num) as [package|e]; [|discriminate].
  intros _. exists package. split; reflexivity.
Qed.

(** C7: when [send] has written a message to a port (it returned, and the
    bytes it appended to what the port held are exactly the bytes that wait
    in the port of the receiver), the receiver is waiting for a header and
    its registry has a handler under the message's type id whose [parse]
    inverts [serialize], then [process_in] (without a cap, or with a cap of
    at least one packet) calls that handler exactly once, with the message
    and the time the start byte was read, calls no other handler, consumes
    the bytes and leaves the receiver waiting for a header; under a cap it
    returns, without one it then blocks on the empty port. *)
Theorem send_then_process_in `{SerializableMessage Msg} (msg : Msg) (seq_num : Z)
    (sender : Transceiver Msg) (handler : RxHandler Msg) (max_packets : option nat) t :
  fst (send msg seq_num sender) = Ok tt ->
  serial_out (snd (send msg seq_num sender)) = serial_out sender ++ serial_in t ->
  _handler_dict t !! get_type_id msg = Some handler ->
  msg_parse handler (serialize msg) = Some msg ->
  _state t = WAITING_FOR_HEADER ->
  max_packets <> Some 0%nat ->
  let outcome := process_in max_packets t in
  fst outcome = (if is_blocking max_packets then Raise Blocked else Ok tt) /\
  handler_calls (events (snd outcome)) =
    handler_calls (events t) ++
    [(type_id handler, msg, _get_current_time t (clock_reads t))] /\
  _state (snd outcome) = WAITING_FOR_HEADER /\
  serial_in (snd outcome) = [].
Proof.
  intros Hsent Hbytes Hdict Hparse Hstate Hcap.
  destruct (send_writes_package msg seq_num sender Hsent) as (package & Hpkg & Hout).
  rewrite Hout in Hbytes. apply app_inv_head in Hbytes.
  apply (package_then_process_in msg seq_num package handler max_packets t); auto.
Qed.

(** *** A package with one corrupted byte *)

Lemma reading_body_rejects max_packets num thr dict now crc ts tm tl
    ty0 ty1 (data : list byte) f0 f1 rest out clk evs :
  crc16 (ty0 :: ty1 :: data) crc <> unpack_H f0 f1 ->
  exists crc' evs',
    reading_body max_packets num
      (mkTransceiver thr dict now READING_BODY (Z.of_nat (length data)) crc ts tm tl
         (ty0 :: ty1 :: data ++ f0 :: f1 :: rest) out clk evs)
    = (Ok (Continue (num + 1)),
       mkTransceiver thr dict now WAITING_FOR_HEADER (Z.of_nat (length data)) crc' ts tm tl
         rest out clk evs') /\
    handler_calls evs' = handler_calls evs.
Proof.
  intros Hcrc. apply Z.eqb_neq in Hcrc.
  rewrite reading_body_reads. cbv zeta. rewrite Hcrc. cbn [negb].
  do 2 eexists. split; [reflexivity|]. apply handler_calls_log. discriminate.
Qed.

(** A corrupted byte behind the header lands in the type id, in the data or
    in the footer; the corrupted bytes still split into a type id, data of
    the old length and a footer, and the body CRC-16 no longer matches. *)
Lemma corrupted_body_mismatch (hdr : list byte) ty0 ty1 (data : list byte) f0 f1
    (j : nat) (b : byte) :
  unpack_H f0 f1 = crc16 (hdr ++ ty0 :: ty1 :: data) crc16_default ->
  (ty0 :: ty1 :: data ++ [f0; f1]) !! j <> Some b ->
  (j < length (ty0 :: ty1 :: data ++ [f0; f1]))%nat ->
  exists ty0' ty1' data' f0' f1',
    <[j := b]> (ty0 :: ty1 :: data ++ [f0; f1]) = ty0' :: ty1' :: data' ++ [f0'; f1'] /\
    length data' = length data /\
    crc16 (ty0' :: ty1' :: data') (crc16 hdr crc16_default) <> unpack_H f0' f1'.
Proof.
  intros Hf Hne Hj.
  set (X := ty0 :: ty1 :: data) in *.
  change (ty0 :: ty1 :: data ++ [f0; f1]) with (X ++ [f0; f1]) in *.
  assert (HX : length X = S (S (length data))) by reflexivity.
  rewrite length_app in Hj. cbn [length] in Hj.
  destruct (decide (j < length X)%nat) as [Hlt|Hge].
  - (* the type id or the data *)
    rewrite insert_app_l by exact Hlt.
    rewrite lookup_app_l in Hne by exact Hlt.
    destruct (lookup_lt_is_Some_2 X j Hlt) as [b0 Hb0].
    assert (Hbb : b0 <> b) by congruence.
    pose proof (take_drop_middle X j b0 Hb0) as Hsplit.
    pose proof (insert_take_drop X j b Hlt) as Hins.
    assert (Hlen' : length (<[j:=b]> X) = S (S (length data)))
      by (rewrite length_insert; exact HX).
    destruct (<[j:=b]> X) as [|ty0' [|ty1' data']] eqn:EX'; try discriminate.
    exists ty0', ty1', data', f0, f1. split; [reflexivity|].
    split; [cbn [length] in Hlen'; lia|].
    rewrite crc16_app by exact crc16_default_range.
    assert (E1 : hdr ++ ty0' :: ty1' :: data' = (hdr ++ take j X) ++ b :: drop (S j) X)
      by (rewrite Hins, app_assoc; reflexivity).
    assert (E2 : hdr ++ X = (hdr ++ take j X) ++ b0 :: drop (S j) X)
      by (rewrite <- app_assoc, Hsplit; reflexivity).
    rewrite E1, Hf, E2.
    intros Heq. apply crc16_detects_one_byte in Heq; [|exact crc16_default_range].
    congruence.
  - (* the footer *)
    rewrite insert_app_r_alt by lia.
    rewrite lookup_app_r in Hne by lia.
    assert (Hcalc : crc16 X (crc16 hdr crc16_default) = unpack_H f0 f1)
      by (rewrite crc16_app by exact crc16_default_range; symmetry; exact Hf).
    destruct (j - length X)%nat as [|[|k]] eqn:Ek; [| |lia].
    + exists ty0, ty1, data, b, f1. split; [reflexivity|]. split; [reflexivity|].
      fold X. rewrite Hcalc. intros Heq. apply unpack_H_inj in Heq.
      cbn in Hne. destruct Heq. congruence.
    + exists ty0, ty1, data, f0, b. split; [reflexivity|]. split; [reflexivity|].
      fold X. rewrite Hcalc. intros Heq. apply unpack_H_inj in Heq.
      cbn in Hne. destruct Heq. congruence.
Qed.


End Proofs.

Lemma small_package_sent : package_of small_message 0 = Ok small_package.
Proof. vm_compute. reflexivity. Defined.

Lemma send_then_process_in_witness :
  let outcome := process_in (Some 1%nat) (receiver_with small_package) in
  fst outcome = Ok tt /\
  handler_calls (events (snd outcome)) = [(7, small_message, mkTimestamp 0)] /\
  _state (snd outcome) = WAITING_FOR_HEADER /\
  serial_in (snd outcome) = [].
Proof.
  refine (send_then_process_in small_message 0 (receiver_with []) raw_handler (Some 1%nat)
            (receiver_with small_package) _ _ _ _ _ _).
  - reflexivity.
  - vm_compute. reflexivity.
  - reflexivity.
  - reflexivity.
  - reflexivity.
  - discriminate.
Defined.


(** C4 (as stated, refuted): the package of a message whose data are the
    bytes of another package, with its start byte replaced by 0x00: the
    receiver throws away the outer header, finds the start byte of the
    inner package and calls the handler with the inner message. *)
Lemma corrupted_start_byte_invokes_handler :
  package_of small_package 0 = Ok nested_package /\
  nested_package !! 0%nat = Some xa5 /\
  handler_calls
    (events (snd (process_in (Some 1%nat) (receiver_with (<[0%nat := x00]> nested_package)))))
  = [(7, small_message, mkTimestamp 0)].
Proof. repeat split; vm_compute; reflexivity. Qed.

End UartProofs.
(** ** More on the checksums *)

Module CrcLaws.
Import CrcReference BytesProofs CrcProofs.

Lemma table_bitwise (poly : Z) (i : nat) :
  forallb (fun i => table_get (compute_table poly) i =? bitwise_remainder poly (Z.of_nat i))
          (seq 0 256) = true ->
  (i < 256)%nat ->
  table_get (compute_table poly) i = bitwise_remainder poly (Z.of_nat i).
Proof.
  intros Hall Hi. rewrite forallb_forall in Hall.
  apply Z.eqb_eq, Hall, in_seq. lia.
Qed.

(** X1. Every entry of the two lookup tables is the remainder of the
    bitwise division of its index: [compute_table(0x8C)[i]] and
    [compute_table(0x8408)[i]] equal eight shift-and-xor rounds on [i], for
    each of the 256 byte values [i], and both tables have 256 entries. *)
Theorem compute_table_is_bitwise_division (i : nat) :
  length (compute_table 0x8C) = 256%nat /\
  length (compute_table 0x8408) = 256%nat /\
  ((i < 256)%nat ->
   table_get (compute_table 0x8C) i = bitwise_remainder 0x8C (Z.of_nat i) /\
   table_get (compute_table 0x8408) i = bitwise_remainder 0x8408 (Z.of_nat i)).
Proof.
  split; [vm_compute; reflexivity|]. split; [vm_compute; reflexivity|].
  intros Hi. split; apply table_bitwise; try assumption; vm_compute; reflexivity.
Qed.

(** X2. [crc8] detects every change of a single byte: two byte strings
    that differ in exactly one position have different checksums, for any
    initial value in [0, 255]. *)
Theorem crc8_single_byte_error_detected (pre suf : list byte) (b b' : byte) (crc_init : Z) :
  0 <= crc_init < 256 -> b <> b' ->
  crc8 (pre ++ b :: suf) crc_init <> crc8 (pre ++ b' :: suf) crc_init.
Proof.
  intros Hinit Hneq Heq. apply Hneq.
  exact (crc8_detects_one_byte pre suf b b' crc_init Hinit Heq).
Qed.

Lemma crc8_single_byte_error_detected_witness :
  crc8 ([x31] ++ x32 :: [x33]) crc8_default <> crc8 ([x31] ++ x42 :: [x33]) crc8_default.
Proof.
  apply crc8_single_byte_error_detected; [unfold crc8_default; lia | discriminate].
Defined.

(** X3. [crc16] detects every change of a single byte, for any initial
    value in [0, 65535]. *)
Theorem crc16_single_byte_error_detected (pre suf : list byte) (b b' : byte) (init_crc : Z) :
  0 <= init_crc < 65536 -> b <> b' ->
  crc16 (pre ++ b :: suf) init_crc <> crc16 (pre ++ b' :: suf) init_crc.
Proof.
  intros Hinit Hneq Heq. apply Hneq.
  exact (crc16_detects_one_byte pre suf b b' init_crc Hinit Heq).
Qed.

Lemma crc16_single_byte_error_detected_witness :
  crc16 ([x31] ++ x32 :: [x33]) crc16_default <> crc16 ([x31] ++ x42 :: [x33]) crc16_default.
Proof.
  apply crc16_single_byte_error_detected; [unfold crc16_default; lia | discriminate].
Defined.

(** X4. Both checksums can be computed in pieces: the checksum of [a + b]
    is the checksum of [b] started from the checksum of [a], which is how the
    receiver carries the CRC-16 of the header over to the body. *)
Theorem crc_of_concatenation (a b : list byte) (init8 init16 : Z) :
  0 <= init8 < 256 -> 0 <= init16 < 65536 ->
  crc8 (a ++ b) init8 = crc8 b (crc8 a init8) /\
  crc16 (a ++ b) init16 = crc16 b (crc16 a init16).
Proof.
  intros H8 H16. split.
  - unfold crc8. apply fold_left_app.
  - symmetry. apply crc16_app. exact H16.
Qed.

Lemma crc_of_concatenation_witness :
  crc8 ([x31; x32] ++ [x33]) crc8_default = crc8 [x33] (crc8 [x31; x32] crc8_default) /\
  crc16 ([x31; x32] ++ [x33]) crc16_default = crc16 [x33] (crc16 [x31; x32] crc16_default).
Proof.
  apply crc_of_concatenation; [unfold crc8_default | unfold crc16_default]; lia.
Defined.

(** X5. A checksum fits the field the package gives it: [crc8] of any data
    is in [0, 255] when its initial value is, and [crc16] of any data is in
    [0, 65535] whatever its initial value. *)
Theorem crc_fits_its_field (data : list byte) (init8 init16 : Z) :
  0 <= init8 < 256 ->
  0 <= crc8 data init8 < 256 /\ 0 <= crc16 data init16 < 65536.
Proof.
  intros H8. split.
  - exact (crc8_range data init8 H8).
  - unfold crc16. change 0xFFFF with (Z.ones 16). rewrite Z.land_ones by lia.
    apply Z.mod_pos_bound. lia.
Qed.

Lemma crc_fits_its_field_witness :
  0 <= crc8 check_string crc8_default < 256 /\ 0 <= crc16 check_string (-1) < 65536.
Proof.
  apply crc_fits_its_field. unfold crc8_default. lia.
Defined.

End CrcLaws.

(** ** More on the transceiver *)

Module UartLaws.
Import Uart BytesProofs CrcProofs UartProofs.

#[local] Arguments crc8 : simpl never.
#[local] Arguments crc16 : simpl never.
#[local] Arguments unpack_H : simpl never.
#[local] Arguments byte_to_Z : simpl never.
#[local] Arguments bytes_eqb : simpl never.

Section Laws.
Context {Msg : Type}.
Implicit Types (t : Transceiver Msg) (evs : list (event Msg)).

(** *** The loop ends *)

(** X6. Every round of the loop of [process_in] that goes on to another
    round has read at least one byte from the port, so [process_in] ends
    after at most as many rounds as bytes are waiting: it returns, raises a
    Python exception or waits in a blocking read, and the bound of the loop
    is never what stops it. *)
Theorem process_in_reads_or_stops (max_packets : option nat) (num : nat) t :
  (forall num' t', loop_body max_packets num t = (Ok (Continue num'), t') ->
     (length (serial_in t') < length (serial_in t))%nat) /\
  fst (loop_body max_packets num t) <> Raise OutOfFuel /\
  fst (process_in max_packets t) <> Raise OutOfFuel.
Proof.
  pose proof (loop_body_progress max_packets num t) as Hp.
  split; [|split].
  - intros num' t' E. rewrite E in Hp. exact Hp.
  - destruct (loop_body max_packets num t) as [[c|e] t']; cbn [fst]; [discriminate|].
    intros [= ->]. apply Hp. reflexivity.
  - apply process_in_total.
Qed.

(** *** Bytes outside a package *)

Lemma waiting_discards_one max_packets thr dict now len crc ts tm tl b rest out clk evs :
  b <> xa5 ->
  exists tl' evs',
    waiting_for_header max_packets
      (mkTransceiver thr dict now WAITING_FOR_HEADER len crc ts tm tl (b :: rest) out clk evs)
    = (Ok Fallthrough,
       mkTransceiver thr dict now WAITING_FOR_HEADER len crc ts (tm + 1) tl' rest out clk evs') /\
    handler_calls evs' = handler_calls evs.
Proof.
  intros Hb.
  assert (Hne : bytes_eqb [b] HEADER_START = false).
  { destruct (bytes_eqb [b] HEADER_START) eqn:E; [|reflexivity].
    apply bytes_eqb_eq in E. unfold HEADER_START in E. congruence. }
  unfold waiting_for_header, bind, get, ret, serial_read, in_waiting.
  cbn. rewrite andb_false_r. cbn. rewrite ?firstn_O, ?drop_0.
  rewrite Hne. cbn. destruct (thr <? tl + 1); cbn;
    do 2 eexists; (split; [reflexivity|]);
    rewrite ?handler_calls_log by discriminate; reflexivity.
Qed.

Lemma loop_body_discards_one max_packets num thr dict now len crc ts tm tl b rest out clk evs :
  within_limit max_packets num -> b <> xa5 ->
  exists tl' evs',
    loop_body max_packets num
      (mkTransceiver thr dict now WAITING_FOR_HEADER len crc ts tm tl (b :: rest) out clk evs)
    = (Ok (Continue num),
       mkTransceiver thr dict now WAITING_FOR_HEADER len crc ts (tm + 1) tl' rest out clk evs') /\
    handler_calls evs' = handler_calls evs.
Proof.
  intros Hlim Hb.
  destruct (waiting_discards_one max_packets thr dict now len crc ts tm tl b rest out clk evs Hb)
    as (tl' & evs' & Hw & Hc).
  exists tl', evs'. split; [|exact Hc].
  rewrite loop_body_within_limit by exact Hlim.
  cbn [in_state _state]. rewrite Hw. reflexivity.
Qed.

(** The packet count is still below the cap. *)
Definition below_limit (max_packets : option nat) (num : nat) : Prop :=
  match max_packets with
  | Some limit => (num < limit)%nat
  | None => True
  end.

Lemma below_limit_test max_packets num t :
  below_limit max_packets num -> serial_in t <> [] ->
  loop_test max_packets num t = true.
Proof.
  unfold below_limit, loop_test, in_waiting. destruct max_packets as [limit|]; [|reflexivity].
  intros Hlt Hin. apply andb_true_intro. split.
  - destruct (serial_in t); [congruence | reflexivity].
  - apply Nat.ltb_lt. exact Hlt.
Qed.

(** The outcome of the loop on an empty port. *)
Lemma process_loop_drained fuel max_packets num thr dict now len crc ts tm tl out clk evs :
  process_loop (S fuel) max_packets num
    (mkTransceiver thr dict now WAITING_FOR_HEADER len crc ts tm tl [] out clk evs)
  = (if is_blocking max_packets then Raise Blocked else Ok tt,
     mkTransceiver thr dict now WAITING_FOR_HEADER len crc ts tm tl [] out clk evs).
Proof.
  rewrite process_loop_step. destruct max_packets as [limit|].
  - reflexivity.
  - cbn [loop_test]. rewrite loop_body_empty by exact I. reflexivity.
Qed.

Lemma scan_noise (input : list byte) : forall fuel max_packets num thr dict now len crc ts tm tl
    out clk evs,
  xa5 ∉ input -> (length input < fuel)%nat -> below_limit max_packets num ->
  exists tl' evs',
    process_loop fuel max_packets num
      (mkTransceiver thr dict now WAITING_FOR_HEADER len crc ts tm tl input out clk evs)
    = (if is_blocking max_packets then Raise Blocked else Ok tt,
       mkTransceiver thr dict now WAITING_FOR_HEADER len crc ts
         (tm + Z.of_nat (length input)) tl' [] out clk evs') /\
    handler_calls evs' = handler_calls evs.
Proof.
  induction input as [|b rest IH]; intros fuel max_packets num thr dict now len crc ts tm tl
    out clk evs Hin Hfuel Hlim.
  - destruct fuel as [|fuel]; [cbn in Hfuel; lia|].
    exists tl, evs. rewrite process_loop_drained. cbn [length]. rewrite Z.add_0_r. auto.
  - destruct fuel as [|fuel]; [cbn in Hfuel; lia|].
    assert (Hb : b <> xa5) by (intros ->; apply Hin; left).
    assert (Hrest : xa5 ∉ rest) by (intros Hr; apply Hin; right; exact Hr).
    rewrite process_loop_step.
    assert (Htest : loop_test max_packets num
              (mkTransceiver thr dict now WAITING_FOR_HEADER len crc ts tm tl (b :: rest)
                 out clk evs) = true) by (apply below_limit_test; [exact Hlim | discriminate]).
    rewrite Htest. apply loop_test_within_limit in Htest.
    destruct (loop_body_discards_one max_packets num thr dict now len crc ts tm tl b rest out
                clk evs Htest Hb) as (tl1 & evs1 & -> & Hc1).
    destruct (IH fuel max_packets num thr dict now len crc ts (tm + 1) tl1 out clk evs1 Hrest)
      as (tl2 & evs2 & -> & Hc2); [cbn [length] in Hfuel; lia | exact Hlim |].
    exists tl2, evs2. split; [|congruence].
    do 2 f_equal. cbn [length]. lia.
Qed.

(** X7. Bytes that hold no start byte 0xA5 are all thrown away: when the
    receiver waits for a header and no waiting byte is 0xA5, [process_in]
    (with no cap or a cap of at least one packet) reads every byte, counts
    each one in [_bytes_thrown_away_since_last_message], calls no handler
    and still waits for a header; it then returns, or waits in its next
    read when it was called without a cap. *)
Theorem noise_is_thrown_away (max_packets : option nat) t :
  _state t = WAITING_FOR_HEADER ->
  xa5 ∉ serial_in t ->
  max_packets <> Some 0%nat ->
  let outcome := process_in max_packets t in
  fst outcome = (if is_blocking max_packets then Raise Blocked else Ok tt) /\
  serial_in (snd outcome) = [] /\
  _state (snd outcome) = WAITING_FOR_HEADER /\
  _bytes_thrown_away_since_last_message (snd outcome) =
    _bytes_thrown_away_since_last_message t + Z.of_nat (length (serial_in t)) /\
  handler_calls (events (snd outcome)) = handler_calls (events t).
Proof.
  intros Hstate Hin Hcap.
  destruct t as [thr dict now st len crc ts tm tl input out clk evs].
  cbn [_state serial_in events _bytes_thrown_away_since_last_message] in *. subst st.
  cbv zeta. unfold process_in, in_waiting. cbn [serial_in].
  destruct (scan_noise input (S (length input)) max_packets 0 thr dict now len crc ts tm tl
              out clk evs Hin) as (tl' & evs' & -> & Hc).
  - lia.
  - destruct max_packets as [[|limit]|]; cbn; [congruence | lia | exact I].
  - cbn [fst snd serial_in _state events _bytes_thrown_away_since_last_message]. auto.
Qed.

End Laws.

Lemma noise_is_thrown_away_witness :
  let outcome := process_in (Some 1%nat) (receiver_with [x01; x02; x03]) in
  fst outcome = Ok tt /\
  serial_in (snd outcome) = [] /\
  _state (snd outcome) = WAITING_FOR_HEADER /\
  _bytes_thrown_away_since_last_message (snd outcome) = 0 + 3 /\
  handler_calls (events (snd outcome)) = [].
Proof.
  apply (noise_is_thrown_away (Some 1%nat) (receiver_with [x01; x02; x03])).
  - reflexivity.
  - cbn. intros Hin. repeat (apply elem_of_cons in Hin as [Hin|Hin]; [discriminate|]).
    inversion Hin.
  - discriminate.
Defined.

End UartLaws.

Module UartPackets.
Import Uart UartStream BytesProofs CrcProofs UartProofs UartLaws.

#[local] Arguments crc8 : simpl never.
#[local] Arguments crc16 : simpl never.
#[local] Arguments unpack_H : simpl never.
#[local] Arguments byte_to_Z : simpl never.
#[local] Arguments bytes_eqb : simpl never.

Section Packets.
Context {Msg : Type} `{SerializableMessage Msg}.
Implicit Types (t : Transceiver Msg) (evs : list (event Msg)).

(** *** Registering the handlers *)

Lemma register_handlers_result (msg_handlers : list (RxHandler Msg)) :
  forall dict : gmap Z (RxHandler Msg),
  match register_handlers msg_handlers dict with
  | Ok dict' =>
      NoDup (map type_id msg_handlers) /\
      (forall h, In h msg_handlers -> dict !! type_id h = None) /\
      (forall k h, dict' !! k = Some h <->
                   dict !! k = Some h \/ (In h msg_handlers /\ type_id h = k))
  | Raise e =>
      e = ValueError /\
      ~ (NoDup (map type_id msg_handlers) /\
         forall h, In h msg_handlers -> dict !! type_id h = None)
  end.
Proof.
  induction msg_handlers as [|h0 rest IH]; intros dict; cbn [register_handlers].
  - split; [constructor|]. split; [intros h []|]. intros k h. cbn [In]. tauto.
  - destruct (dict !! type_id h0) as [old|] eqn:E0.
    + split; [reflexivity|]. intros [_ Hnone].
      specialize (Hnone h0 (or_introl eq_refl)). congruence.
    + specialize (IH (<[type_id h0 := h0]> dict)).
      destruct (register_handlers rest (<[type_id h0 := h0]> dict)) as [dict'|e].
      * destruct IH as (Hnd & Hnone & Hiff).
        assert (Hfresh : forall h, In h rest -> type_id h0 <> type_id h /\
                                                  dict !! type_id h = None).
        { intros h Hh. specialize (Hnone h Hh).
          apply lookup_insert_None in Hnone. tauto. }
        split; [|split].
        -- cbn [map]. apply NoDup_cons. split; [|exact Hnd].
           rewrite list_elem_of_In, in_map_iff. intros (h & Hid & Hh).
           destruct (Hfresh h Hh) as [Hne _]. congruence.
        -- intros h [<-|Hh]; [exact E0 | apply Hfresh, Hh].
        -- intros k h. rewrite Hiff, lookup_insert_Some. cbn [In]. split.
           ++ intros [[[<- <-]|[_ Hd]]|[Hh Hk]]; auto.
           ++ intros [Hd|[[<-|Hh] Hk]]; auto.
              left. right. split; [|exact Hd]. intros <-. congruence.
      * destruct IH as [-> Hnot]. split; [reflexivity|].
        intros [Hnd Hnone]. apply Hnot. cbn [map] in Hnd.
        apply NoDup_cons in Hnd as [Hnotin Hnd]. split; [exact Hnd|].
        intros h Hh. apply lookup_insert_None. split.
        -- apply Hnone. right. exact Hh.
        -- intros Heq. apply Hnotin. rewrite list_elem_of_In, in_map_iff. eauto.
Qed.

(** X8. The constructor registers every handler under its type id and
    rejects a list in which two handlers share a type id: it raises
    [ValueError] exactly when the type ids of the given handlers are not
    pairwise distinct, and otherwise [_handler_dict] maps a type id to a
    handler exactly when that handler was given and has that type id; the
    new receiver waits for a header with its memory cleared. *)
Theorem init_registers_each_type_once (threshold : Z) (msg_handlers : list (RxHandler Msg))
    (get_current_time : nat -> Timestamp) (pending : list byte) :
  match init threshold msg_handlers get_current_time pending with
  | Ok t =>
      NoDup (map type_id msg_handlers) /\
      (forall k h, _handler_dict t !! k = Some h <-> In h msg_handlers /\ type_id h = k) /\
      _state t = WAITING_FOR_HEADER /\ _msg_len t = 0 /\ _msg_running_crc16 t = 0
  | Raise e => e = ValueError /\ ~ NoDup (map type_id msg_handlers)
  end.
Proof.
  unfold init.
  pose proof (register_handlers_result msg_handlers ∅) as Hr.
  destruct (register_handlers msg_handlers ∅) as [dict|e].
  - destruct Hr as (Hnd & _ & Hiff). cbn [_handler_dict _state _msg_len _msg_running_crc16].
    split; [exact Hnd|]. split; [|auto].
    intros k h. rewrite Hiff, lookup_empty. split; [intros [|]; [discriminate|assumption]|auto].
  - destruct Hr as [-> Hnot]. split; [reflexivity|].
    intros Hnd. apply Hnot. split; [exact Hnd|]. intros h _. apply lookup_empty.
Qed.

(** *** One round on a whole package *)

Lemma package_length (msg : Msg) (seq_num : Z) (package : list byte) :
  package_of msg seq_num = Ok package ->
  length package = (9 + length (serialize msg))%nat.
Proof.
  intros Hpkg.
  destruct (package_shape msg seq_num package Hpkg)
    as (l0 & l1 & sq & c8 & ty0 & ty1 & f0 & f1 & -> & _).
  cbn [length]. rewrite length_app. cbn [length]. lia.
Qed.

Lemma loop_body_package (msg : Msg) (seq_num : Z) (package : list byte)
    max_packets num thr dict now len crc ts tm tl rest out clk evs :
  package_of msg seq_num = Ok package ->
  within_limit max_packets num ->
  exists tm' tl' evs',
    handler_calls evs' = handler_calls evs /\
    loop_body max_packets num
      (mkTransceiver thr dict now WAITING_FOR_HEADER len crc ts tm tl (package ++ rest)
         out clk evs)
    = match dict !! get_type_id msg with
      | None =>
          (Ok (Continue (num + 1)),
           mkTransceiver thr dict now WAITING_FOR_HEADER 0 0 (Some (now clk)) tm' tl' rest
             out (S clk) (evs' ++ [WarnNoHandler (get_type_id msg) (serialize msg)]))
      | Some handler =>
          match msg_parse handler (serialize msg) with
          | None =>
              (Raise MessageParseUnhandledError,
               mkTransceiver thr dict now WAITING_FOR_HEADER 0 0 (Some (now clk)) tm' tl' rest
                 out (S clk) evs')
          | Some parsed =>
              (Ok (Continue (num + 1)),
               mkTransceiver thr dict now WAITING_FOR_HEADER 0 0 (Some (now clk)) tm' tl' rest
                 out (S clk) (evs' ++ [Handle (type_id handler) parsed (now clk)]))
          end
      end.
Proof.
  intros Hpkg Hlim.
  destruct (package_shape msg seq_num package Hpkg)
    as (l0 & l1 & sq & c8 & ty0 & ty1 & f0 & f1 & -> & Hlen & _ & Hc8 & Hty & Hf).
  replace ((xa5 :: l0 :: l1 :: sq :: c8 :: ty0 :: ty1 :: serialize msg ++ [f0; f1]) ++ rest)
    with (xa5 :: l0 :: l1 :: sq :: c8 :: ty0 :: ty1 :: serialize msg ++ f0 :: f1 :: rest)
    by (cbn [app]; rewrite <- app_assoc; reflexivity).
  destruct (loop_body_good_header max_packets num thr dict now len crc ts tm tl
              l0 l1 sq c8 ty0 ty1 (serialize msg) f0 f1 rest out clk evs Hlim
              (eq_sym Hc8) Hlen) as (tm' & tl' & evs' & -> & Hcalls).
  exists tm', tl', evs'. split; [exact Hcalls|].
  rewrite reading_body_reads. cbv zeta.
  rewrite crc16_app by exact crc16_default_range.
  rewrite <- Hf, Z.eqb_refl. cbn [negb]. rewrite Hty.
  destruct (dict !! get_type_id msg) as [handler|]; [|reflexivity].
  destruct (msg_parse handler (serialize msg)); reflexivity.
Qed.

(** *** Packages that reach no handler *)

(** X9. A well-formed package whose type id has no registered handler is
    consumed and dropped with a warning: [process_in] calls no handler,
    reports the type id and the data in the warning, and leaves the receiver
    waiting for a header with its memory cleared and the port empty. *)
Theorem unknown_type_is_dropped (msg : Msg) (seq_num : Z) (package : list byte)
    (max_packets : option nat) t :
  package_of msg seq_num = Ok package ->
  _handler_dict t !! get_type_id msg = None ->
  _state t = WAITING_FOR_HEADER ->
  serial_in t = package ->
  max_packets <> Some 0%nat ->
  let outcome := process_in max_packets t in
  fst outcome = (if is_blocking max_packets then Raise Blocked else Ok tt) /\
  handler_calls (events (snd outcome)) = handler_calls (events t) /\
  last (events (snd outcome)) = Some (WarnNoHandler (get_type_id msg) (serialize msg)) /\
  _state (snd outcome) = WAITING_FOR_HEADER /\
  _msg_len (snd outcome) = 0 /\ _msg_running_crc16 (snd outcome) = 0 /\
  serial_in (snd outcome) = [].
Proof.
  intros Hpkg Hdict Hstate Hin Hcap.
  pose proof (package_length msg seq_num package Hpkg) as Hlen.
  destruct t as [thr dict now st len crc ts tm tl input out clk evs].
  cbn [_handler_dict _state serial_in events] in *. subst st input.
  cbv zeta. unfold process_in, in_waiting. cbn [serial_in].
  rewrite process_loop_step.
  assert (Htest : loop_test max_packets 0
            (mkTransceiver thr dict now WAITING_FOR_HEADER len crc ts tm tl package
               out clk evs) = true).
  { apply below_limit_test.
    - destruct max_packets as [[|limit]|]; cbn; [congruence | lia | exact I].
    - cbn [serial_in]. intros ->. cbn in Hlen. lia. }
  rewrite Htest. apply loop_test_within_limit in Htest.
  destruct (loop_body_package msg seq_num package max_packets 0 thr dict now len crc ts tm tl
              [] out clk evs Hpkg Htest) as (tm' & tl' & evs' & Hcalls & Hbody).
  rewrite app_nil_r in Hbody. rewrite Hbody, Hdict, Hlen.
  change (9 + length (serialize msg))%nat with (S (8 + length (serialize msg))).
  rewrite process_loop_drained.
  cbn [fst snd events _state _msg_len _msg_running_crc16 serial_in].
  rewrite handler_calls_log by discriminate. rewrite last_snoc.
  repeat split; assumption.
Qed.

(** X10. A well-formed package that its handler's message class cannot
    parse makes [process_in] raise [MessageParseUnhandledError] after the
    whole package has been read: no handler is called, the receiver waits
    for a header with its memory cleared, and the bytes behind the package
    are still in the port for the next call. *)
Theorem parse_failure_is_raised (msg : Msg) (seq_num : Z) (package rest : list byte)
    (handler : RxHandler Msg) (max_packets : option nat) t :
  package_of msg seq_num = Ok package ->
  _handler_dict t !! get_type_id msg = Some handler ->
  msg_parse handler (serialize msg) = None ->
  _state t = WAITING_FOR_HEADER ->
  serial_in t = package ++ rest ->
  max_packets <> Some 0%nat ->
  let outcome := process_in max_packets t in
  fst outcome = Raise MessageParseUnhandledError /\
  handler_calls (events (snd outcome)) = handler_calls (events t) /\
  _state (snd outcome) = WAITING_FOR_HEADER /\
  _msg_len (snd outcome) = 0 /\ _msg_running_crc16 (snd outcome) = 0 /\
  serial_in (snd outcome) = rest.
Proof.
  intros Hpkg Hdict Hparse Hstate Hin Hcap.
  pose proof (package_length msg seq_num package Hpkg) as Hlen.
  destruct t as [thr dict now st len crc ts tm tl input out clk evs].
  cbn [_handler_dict _state serial_in events] in *. subst st input.
  cbv zeta. unfold process_in, in_waiting. cbn [serial_in].
  rewrite process_loop_step.
  assert (Htest : loop_test max_packets 0
            (mkTransceiver thr dict now WAITING_FOR_HEADER len crc ts tm tl (package ++ rest)
               out clk evs) = true).
  { apply below_limit_test.
    - destruct max_packets as [[|limit]|]; cbn; [congruence | lia | exact I].
    - cbn [serial_in]. intros E. apply (f_equal (@length byte)) in E.
      rewrite length_app in E. cbn in E. lia. }
  rewrite Htest. apply loop_test_within_limit in Htest.
  destruct (loop_body_package msg seq_num package max_packets 0 thr dict now len crc ts tm tl
              rest out clk evs Hpkg Htest) as (tm' & tl' & evs' & Hcalls & Hbody).
  rewrite Hbody, Hdict, Hparse.
  cbn [fst snd events _state _msg_len _msg_running_crc16 serial_in].
  repeat split; assumption.
Qed.

(** *** Several packages in a row *)

Lemma send_all_stream (msgs : list (Msg * Z)) : forall sender : Transceiver Msg,
  fst (send_all msgs sender) = Ok tt ->
  exists stream,
    stream_of msgs = Ok stream /\
    serial_out (snd (send_all msgs sender)) = serial_out sender ++ stream.
Proof.
  induction msgs as [|[msg seq_num] rest IH]; intros sender Hsent.
  - exists []. cbn. rewrite app_nil_r. auto.
  - cbn [send_all stream_of] in *. unfold bind, send in *.
    destruct (package_of msg seq_num) as [package|e]; [|discriminate].
    unfold serial_write in *.
    destruct (IH _ Hsent) as (stream & -> & Hout).
    exists (package ++ stream). split; [reflexivity|].
    rewrite Hout. cbn [serial_out]. rewrite app_assoc. reflexivity.
Qed.

(** Every message has a handler registered under its type id, and the
    handler's message class parses what the message serializes to. *)
Definition all_handled (dict : gmap Z (RxHandler Msg)) (msgs : list (Msg * Z)) : Prop :=
  forall msg seq_num, In (msg, seq_num) msgs ->
    exists handler,
      dict !! get_type_id msg = Some handler /\
      type_id handler = get_type_id msg /\
      msg_parse handler (serialize msg) = Some msg.

Lemma process_stream (msgs : list (Msg * Z)) :
  forall fuel max_packets num thr dict now len crc ts tm tl stream out clk evs,
  stream_of msgs = Ok stream ->
  (length stream < fuel)%nat ->
  match max_packets with
  | Some limit => (num + length msgs <= limit)%nat
  | None => True
  end ->
  all_handled dict msgs ->
  exists len' crc' ts' tm' tl' evs',
    process_loop fuel max_packets num
      (mkTransceiver thr dict now WAITING_FOR_HEADER len crc ts tm tl stream out clk evs)
    = (if is_blocking max_packets then Raise Blocked else Ok tt,
       mkTransceiver thr dict now WAITING_FOR_HEADER len' crc' ts' tm' tl' [] out
         (clk + length msgs) evs') /\
    handler_calls evs' = handler_calls evs ++ calls_in_order now clk msgs.
Proof.
  induction msgs as [|[msg seq_num] rest IH];
    intros fuel max_packets num thr dict now len crc ts tm tl stream out clk evs
      Hstream Hfuel Hcap Hall.
  - cbn in Hstream. injection Hstream as <-.
    destruct fuel as [|fuel]; [cbn in Hfuel; lia|].
    exists len, crc, ts, tm, tl, evs. rewrite process_loop_drained.
    cbn [length calls_in_order]. rewrite Nat.add_0_r, app_nil_r. auto.
  - cbn [stream_of] in Hstream.
    destruct (package_of msg seq_num) as [package|e] eqn:Hpkg; [|discriminate].
    destruct (stream_of rest) as [stream'|e] eqn:Hrest; [|discriminate].
    injection Hstream as <-.
    pose proof (package_length msg seq_num package Hpkg) as Hlen.
    destruct fuel as [|fuel]; [cbn in Hfuel; lia|].
    rewrite process_loop_step.
    assert (Htest : loop_test max_packets num
              (mkTransceiver thr dict now WAITING_FOR_HEADER len crc ts tm tl
                 (package ++ stream') out clk evs) = true).
    { apply below_limit_test.
      - destruct max_packets as [limit|]; cbn in *; [lia | exact I].
      - cbn [serial_in]. intros E. apply (f_equal (@length byte)) in E.
        rewrite length_app in E. cbn in E. lia. }
    rewrite Htest. apply loop_test_within_limit in Htest.
    destruct (loop_body_package msg seq_num package max_packets num thr dict now len crc ts
                tm tl stream' out clk evs Hpkg Htest) as (tm1 & tl1 & evs1 & Hcalls1 & ->).
    destruct (Hall msg seq_num (or_introl eq_refl)) as (handler & -> & Hid & ->).
    destruct (IH fuel max_packets (num + 1)%nat thr dict now 0 0 (Some (now clk)) tm1 tl1
                stream' out (S clk) (evs1 ++ [Handle (type_id handler) msg (now clk)]) eq_refl)
      as (len' & crc' & ts' & tm' & tl' & evs' & -> & Hcalls').
    + rewrite length_app in Hfuel. lia.
    + destruct max_packets as [limit|]; cbn [length] in *; [lia | exact I].
    + intros m s Hin. apply (Hall m s). right. exact Hin.
    + exists len', crc', ts', tm', tl', evs'. split.
      * do 2 f_equal. cbn [length]. lia.
      * rewrite Hcalls', handler_calls_handle, Hcalls1, Hid, <- app_assoc. reflexivity.
Qed.

(** X11. What [send] packs, [process_in] unpacks, message after message:
    when the bytes written by sending the messages of a list in turn are
    exactly what waits in the port of a receiver that waits for a header,
    and every message has a handler under its type id whose message class
    parses it back, then [process_in] (with no cap, or a cap of at least that
    many packets) calls the handlers once per message, in the order sent,
    each with the time read when its start byte arrived, and empties the
    port. *)
Theorem sent_messages_are_handled_in_order (msgs : list (Msg * Z))
    (sender : Transceiver Msg) (max_packets : option nat) t :
  fst (send_all msgs sender) = Ok tt ->
  serial_out sender = [] ->
  serial_in t = serial_out (snd (send_all msgs sender)) ->
  _state t = WAITING_FOR_HEADER ->
  all_handled (_handler_dict t) msgs ->
  match max_packets with
  | Some limit => (length msgs <= limit)%nat
  | None => True
  end ->
  let outcome := process_in max_packets t in
  fst outcome = (if is_blocking max_packets then Raise Blocked else Ok tt) /\
  handler_calls (events (snd outcome)) =
    handler_calls (events t) ++ calls_in_order (_get_current_time t) (clock_reads t) msgs /\
  _state (snd outcome) = WAITING_FOR_HEADER /\
  serial_in (snd outcome) = [].
Proof.
  intros Hsent Hout Hin Hstate Hall Hcap.
  destruct (send_all_stream msgs sender Hsent) as (stream & Hstream & Hbytes).
  rewrite Hout in Hbytes. cbn [app] in Hbytes. rewrite Hbytes in Hin. clear Hbytes.
  destruct t as [thr dict now st len crc ts tm tl input out clk evs].
  cbn [_handler_dict _state serial_in events _get_current_time clock_reads] in *.
  subst st input. cbv zeta. unfold process_in, in_waiting. cbn [serial_in].
  destruct (process_stream msgs (S (length stream)) max_packets 0 thr dict now len crc ts
              tm tl stream out clk evs Hstream)
    as (len' & crc' & ts' & tm' & tl' & evs' & -> & Hcalls); [lia | exact Hcap | exact Hall |].
  cbn [fst snd events _state serial_in]. auto.
Qed.

End Packets.

Lemma unknown_type_is_dropped_witness :
  let outcome := process_in (Some 1%nat) (receiver_without_handlers small_package) in
  fst outcome = Ok tt /\
  handler_calls (events (snd outcome)) = [] /\
  last (events (snd outcome)) = Some (WarnNoHandler 7 small_message) /\
  _state (snd outcome) = WAITING_FOR_HEADER /\
  _msg_len (snd outcome) = 0 /\ _msg_running_crc16 (snd outcome) = 0 /\
  serial_in (snd outcome) = [].
Proof.
  refine (unknown_type_is_dropped small_message 0 small_package (Some 1%nat)
            (receiver_without_handlers small_package) _ _ _ _ _).
  - exact small_package_sent.
  - reflexivity.
  - reflexivity.
  - reflexivity.
  - discriminate.
Defined.

Lemma parse_failure_is_raised_witness :
  let outcome :=
    process_in (Some 1%nat) (receiver_with_failing_handler (small_package ++ [x01])) in
  fst outcome = Raise MessageParseUnhandledError /\
  handler_calls (events (snd outcome)) = [] /\
  _state (snd outcome) = WAITING_FOR_HEADER /\
  _msg_len (snd outcome) = 0 /\ _msg_running_crc16 (snd outcome) = 0 /\
  serial_in (snd outcome) = [x01].
Proof.
  apply (parse_failure_is_raised small_message 0 small_package [x01] failing_handler
           (Some 1%nat) (receiver_with_failing_handler (small_package ++ [x01]))).
  - exact small_package_sent.
  - reflexivity.
  - reflexivity.
  - reflexivity.
  - reflexivity.
  - discriminate.
Defined.

Lemma sent_messages_are_handled_in_order_witness :
  let sender := receiver_with [] in
  let receiver := receiver_with (serial_out (snd (send_all two_messages sender))) in
  let outcome := process_in (Some 2%nat) receiver in
  fst outcome = Ok tt /\
  handler_calls (events (snd outcome)) =
    [] ++ [(7, small_message, mkTimestamp 0); (7, [x03], mkTimestamp 1)] /\
  _state (snd outcome) = WAITING_FOR_HEADER /\
  serial_in (snd outcome) = [].
Proof.
  refine (sent_messages_are_handled_in_order two_messages (receiver_with []) (Some 2%nat)
            (receiver_with (serial_out (snd (send_all two_messages (receiver_with [])))))
            _ _ _ _ _ _).
  - vm_compute. reflexivity.
  - reflexivity.
  - reflexivity.
  - reflexivity.
  - intros msg seq_num [E|[E|[]]]; injection E as <- <-;
      exists raw_handler; repeat split; reflexivity.
  - cbn. lia.
Defined.

End UartPackets.

Module UartChunks.
Import Uart UartStream BytesProofs CrcProofs UartProofs UartLaws UartPackets.

#[local] Arguments crc8 : simpl never.
#[local] Arguments crc16 : simpl never.
#[local] Arguments unpack_H : simpl never.
#[local] Arguments byte_to_Z : simpl never.
#[local] Arguments bytes_eqb : simpl never.

Ltac fields_simpl :=
  cbn [discarded_bytes_warning_threshold _handler_dict _get_current_time _state _msg_len
       _msg_running_crc16 last_header_receipt_timestamp
       _bytes_thrown_away_since_last_message _bytes_thrown_away_since_last_log
       serial_in serial_out clock_reads events].

Section Chunks.
Context {Msg : Type} `{SerializableMessage Msg}.
Implicit Types (t : Transceiver Msg) (evs : list (event Msg)).

(** *** A package that arrives in two parts *)

(** With a cap, a block that finds too few bytes leaves the loop and reads
    nothing. *)
Lemma reading_header_waits limit num thr dict now st len crc ts tm tl input out clk evs :
  (length input < 4)%nat ->
  reading_header (Some limit) num
    (mkTransceiver thr dict now st len crc ts tm tl input out clk evs)
  = (Ok Break, mkTransceiver thr dict now st len crc ts tm tl input out clk evs).
Proof.
  intros Hshort. unfold reading_header, bind, get, ret, in_waiting, HEADER_SIZE.
  fields_simpl. cbn [is_blocking negb andb].
  apply Nat.ltb_lt in Hshort. rewrite Hshort. reflexivity.
Qed.

Lemma reading_body_waits limit num thr dict now st len crc ts tm tl input out clk evs :
  (length input < 2 + Z.to_nat len + 2)%nat ->
  reading_body (Some limit) num
    (mkTransceiver thr dict now st len crc ts tm tl input out clk evs)
  = (Ok Break, mkTransceiver thr dict now st len crc ts tm tl input out clk evs).
Proof.
  intros Hshort. unfold reading_body, bind, get, ret, in_waiting, MSG_TYPE_SIZE, FOOTER_SIZE.
  fields_simpl. cbv zeta. cbn [is_blocking negb andb].
  apply Nat.ltb_lt in Hshort. rewrite Hshort. reflexivity.
Qed.

(** A round that starts at a start byte with a good header behind it goes
    on to the body block. *)
Lemma loop_body_header_read max_packets num thr dict now len crc ts tm tl
    l0 l1 sq c8 rest out clk evs :
  within_limit max_packets num ->
  crc8 [xa5; l0; l1; sq] crc8_default = byte_to_Z c8 ->
  exists tm' tl' evs',
    loop_body max_packets num
      (mkTransceiver thr dict now WAITING_FOR_HEADER len crc ts tm tl
         (xa5 :: l0 :: l1 :: sq :: c8 :: rest) out clk evs)
    = reading_body max_packets num
        (mkTransceiver thr dict now READING_BODY (unpack_H l0 l1)
           (crc16 [xa5; l0; l1; sq; c8] crc16_default) (Some (now clk)) tm' tl'
           rest out (S clk) evs') /\
    handler_calls evs' = handler_calls evs.
Proof.
  intros Hlim Hcrc.
  destruct (waiting_reads_start max_packets thr dict now len crc ts tm tl
              (l0 :: l1 :: sq :: c8 :: rest) out clk evs)
    as (tm' & tl' & evs' & Hw & Hc).
  exists tm', tl', evs'. split; [|exact Hc].
  rewrite loop_body_within_limit by exact Hlim.
  cbn [in_state _state]. rewrite Hw. cbn [in_state _state].
  rewrite (reading_header_accepts _ _ _ _ _ _ _ _ _ _ _ _ _ _ _ _ _ _ Hcrc).
  cbn [in_state _state]. reflexivity.
Qed.

(** A round that finds the start byte but not yet the whole header. *)
Lemma loop_body_start_only limit num thr dict now len crc ts tm tl rest out clk evs :
  within_limit (Some limit) num ->
  (length rest < 4)%nat ->
  exists tm' tl' evs',
    loop_body (Some limit) num
      (mkTransceiver thr dict now WAITING_FOR_HEADER len crc ts tm tl (xa5 :: rest) out clk evs)
    = (Ok Break,
       mkTransceiver thr dict now READING_HEADER len crc (Some (now clk)) tm' tl' rest out
         (S clk) evs') /\
    handler_calls evs' = handler_calls evs.
Proof.
  intros Hlim Hshort.
  destruct (waiting_reads_start (Some limit) thr dict now len crc ts tm tl rest out clk evs)
    as (tm' & tl' & evs' & Hw & Hc).
  exists tm', tl', evs'. split; [|exact Hc].
  rewrite loop_body_within_limit by exact Hlim.
  cbn [in_state _state]. rewrite Hw. cbn [in_state _state].
  rewrite reading_header_waits by exact Hshort. reflexivity.
Qed.

(** A round that takes up a header left unread. *)
Lemma loop_body_resumes_header max_packets num thr dict now len crc ts tm tl
    l0 l1 sq c8 rest out clk evs :
  within_limit max_packets num ->
  crc8 [xa5; l0; l1; sq] crc8_default = byte_to_Z c8 ->
  loop_body max_packets num
    (mkTransceiver thr dict now READING_HEADER len crc ts tm tl
       (l0 :: l1 :: sq :: c8 :: rest) out clk evs)
  = reading_body max_packets num
      (mkTransceiver thr dict now READING_BODY (unpack_H l0 l1)
         (crc16 [xa5; l0; l1; sq; c8] crc16_default) ts tm tl rest out clk evs).
Proof.
  intros Hlim Hcrc.
  rewrite loop_body_within_limit by exact Hlim.
  cbn [in_state _state].
  rewrite (reading_header_accepts _ _ _ _ _ _ _ _ _ _ _ _ _ _ _ _ _ _ Hcrc).
  cbn [in_state _state]. reflexivity.
Qed.

(** A round that takes up a body left unread. *)
Lemma loop_body_resumes_body max_packets num thr dict now len crc ts tm tl input out clk evs :
  within_limit max_packets num ->
  loop_body max_packets num
    (mkTransceiver thr dict now READING_BODY len crc ts tm tl input out clk evs)
  = reading_body max_packets num
      (mkTransceiver thr dict now READING_BODY len crc ts tm tl input out clk evs).
Proof.
  intros Hlim. rewrite loop_body_within_limit by exact Hlim. reflexivity.
Qed.

(** The body block on a whole body with a good checksum, a handler and a
    message that parses. *)
Lemma reading_body_handles max_packets num thr dict now ts0 tm tl
    (hdr : list byte) ty0 ty1 (data : list byte) f0 f1 out clk evs
    (handler : RxHandler Msg) (parsed : Msg) :
  unpack_H f0 f1 = crc16 (hdr ++ ty0 :: ty1 :: data) crc16_default ->
  dict !! unpack_H ty0 ty1 = Some handler ->
  msg_parse handler data = Some parsed ->
  reading_body max_packets num
    (mkTransceiver thr dict now READING_BODY (Z.of_nat (length data))
       (crc16 hdr crc16_default) (Some ts0) tm tl (ty0 :: ty1 :: data ++ [f0; f1]) out clk evs)
  = (Ok (Continue (num + 1)),
     mkTransceiver thr dict now WAITING_FOR_HEADER 0 0 (Some ts0) tm tl [] out clk
       (evs ++ [Handle (type_id handler) parsed ts0])).
Proof.
  intros Hf Hdict Hparse.
  rewrite reading_body_reads. cbv zeta.
  rewrite crc16_app by exact crc16_default_range.
  rewrite <- Hf, Z.eqb_refl. cbn [negb]. rewrite Hdict, Hparse. reflexivity.
Qed.

Lemma process_loop_continues fuel max_packets num num' t t' :
  loop_test max_packets num t = true ->
  loop_body max_packets num t = (Ok (Continue num'), t') ->
  process_loop (S fuel) max_packets num t = process_loop fuel max_packets num' t'.
Proof. intros Ht Hb. rewrite process_loop_step, Ht, Hb. reflexivity. Qed.

Lemma process_loop_breaks fuel max_packets num t t' :
  loop_test max_packets num t = true ->
  loop_body max_packets num t = (Ok Break, t') ->
  process_loop (S fuel) max_packets num t = (Ok tt, t').
Proof. intros Ht Hb. rewrite process_loop_step, Ht, Hb. reflexivity. Qed.

Lemma process_loop_nothing_waiting fuel limit num thr dict now st len crc ts tm tl out clk evs :
  process_loop (S fuel) (Some limit) num
    (mkTransceiver thr dict now st len crc ts tm tl [] out clk evs)
  = (Ok tt, mkTransceiver thr dict now st len crc ts tm tl [] out clk evs).
Proof. rewrite process_loop_step. reflexivity. Qed.

Lemma first_round_test limit thr dict now st len crc ts tm tl b input out clk evs :
  loop_test (Some (S limit)) 0
    (mkTransceiver thr dict now st len crc ts tm tl (b :: input) out clk evs) = true.
Proof. reflexivity. Qed.

(** The package of [msg], cut into its header and its body. *)
Definition package_parts (msg : Msg) (l0 l1 sq c8 ty0 ty1 f0 f1 : byte) : Prop :=
  unpack_H l0 l1 = Z.of_nat (length (serialize msg)) /\
  crc8 [xa5; l0; l1; sq] crc8_default = byte_to_Z c8 /\
  unpack_H f0 f1 =
    crc16 ([xa5; l0; l1; sq; c8] ++ ty0 :: ty1 :: serialize msg) crc16_default.

Lemma finish_from_body (msg : Msg) l0 l1 sq c8 ty0 ty1 f0 f1 (handler : RxHandler Msg)
    limit thr dict now ts0 tm tl out clk evs :
  package_parts msg l0 l1 sq c8 ty0 ty1 f0 f1 ->
  dict !! unpack_H ty0 ty1 = Some handler ->
  msg_parse handler (serialize msg) = Some msg ->
  let body := ty0 :: ty1 :: serialize msg ++ [f0; f1] in
  process_loop (S (length body)) (Some (S limit)) 0
    (mkTransceiver thr dict now READING_BODY (unpack_H l0 l1)
       (crc16 [xa5; l0; l1; sq; c8] crc16_default) (Some ts0) tm tl body out clk evs)
  = (Ok tt,
     mkTransceiver thr dict now WAITING_FOR_HEADER 0 0 (Some ts0) tm tl [] out clk
       (evs ++ [Handle (type_id handler) msg ts0])).
Proof.
  intros (Hlen & Hc8 & Hf) Hdict Hparse body.
  erewrite process_loop_continues; [|apply first_round_test|].
  2:{ rewrite loop_body_resumes_body by reflexivity. rewrite Hlen.
      apply (reading_body_handles _ _ _ _ _ _ _ _ [xa5; l0; l1; sq; c8]);
        [exact Hf | exact Hdict | exact Hparse]. }
  subst body. cbn [length]. apply process_loop_nothing_waiting.
Qed.

Lemma finish_from_header (msg : Msg) l0 l1 sq c8 ty0 ty1 f0 f1 (handler : RxHandler Msg)
    limit thr dict now len crc ts0 tm tl out clk evs :
  package_parts msg l0 l1 sq c8 ty0 ty1 f0 f1 ->
  dict !! unpack_H ty0 ty1 = Some handler ->
  msg_parse handler (serialize msg) = Some msg ->
  let rest := l0 :: l1 :: sq :: c8 :: ty0 :: ty1 :: serialize msg ++ [f0; f1] in
  process_loop (S (length rest)) (Some (S limit)) 0
    (mkTransceiver thr dict now READING_HEADER len crc (Some ts0) tm tl rest out clk evs)
  = (Ok tt,
     mkTransceiver thr dict now WAITING_FOR_HEADER 0 0 (Some ts0) tm tl [] out clk
       (evs ++ [Handle (type_id handler) msg ts0])).
Proof.
  intros (Hlen & Hc8 & Hf) Hdict Hparse rest. subst rest.
  erewrite process_loop_continues; [|apply first_round_test|].
  2:{ rewrite loop_body_resumes_header by (reflexivity || exact Hc8). rewrite Hlen.
      apply (reading_body_handles _ _ _ _ _ _ _ _ [xa5; l0; l1; sq; c8]);
        [exact Hf | exact Hdict | exact Hparse]. }
  cbn [length]. apply process_loop_nothing_waiting.
Qed.

Lemma finish_from_start (msg : Msg) l0 l1 sq c8 ty0 ty1 f0 f1 (handler : RxHandler Msg)
    limit thr dict now len crc ts tm tl out clk evs :
  package_parts msg l0 l1 sq c8 ty0 ty1 f0 f1 ->
  dict !! unpack_H ty0 ty1 = Some handler ->
  msg_parse handler (serialize msg) = Some msg ->
  let package := xa5 :: l0 :: l1 :: sq :: c8 :: ty0 :: ty1 :: serialize msg ++ [f0; f1] in
  exists tm' tl' evs',
    process_loop (S (length package)) (Some (S limit)) 0
      (mkTransceiver thr dict now WAITING_FOR_HEADER len crc ts tm tl package out clk evs)
    = (Ok tt,
       mkTransceiver thr dict now WAITING_FOR_HEADER 0 0 (Some (now clk)) tm' tl' [] out
         (S clk) (evs' ++ [Handle (type_id handler) msg (now clk)])) /\
    handler_calls evs' = handler_calls evs.
Proof.
  intros (Hlen & Hc8 & Hf) Hdict Hparse package. subst package.
  destruct (loop_body_header_read (Some (S limit)) 0 thr dict now len crc ts tm tl
              l0 l1 sq c8 (ty0 :: ty1 :: serialize msg ++ [f0; f1]) out clk evs eq_refl Hc8)
    as (tm' & tl' & evs' & Hb & Hc).
  exists tm', tl', evs'. split; [|exact Hc].
  erewrite process_loop_continues; [|apply first_round_test|].
  2:{ rewrite Hb, Hlen.
      apply (reading_body_handles _ _ _ _ _ _ _ _ [xa5; l0; l1; sq; c8]);
        [exact Hf | exact Hdict | exact Hparse]. }
  cbn [length]. apply process_loop_nothing_waiting.
Qed.

Lemma stop_after_start limit thr dict now len crc ts tm tl (part : list byte) out clk evs :
  (length part < 4)%nat ->
  exists tm' tl' evs',
    process_loop (S (length (xa5 :: part))) (Some (S limit)) 0
      (mkTransceiver thr dict now WAITING_FOR_HEADER len crc ts tm tl (xa5 :: part) out clk evs)
    = (Ok tt,
       mkTransceiver thr dict now READING_HEADER len crc (Some (now clk)) tm' tl' part out
         (S clk) evs') /\
    handler_calls evs' = handler_calls evs.
Proof.
  intros Hshort.
  destruct (loop_body_start_only (S limit) 0 thr dict now len crc ts tm tl part out clk evs
              eq_refl Hshort) as (tm' & tl' & evs' & Hb & Hc).
  exists tm', tl', evs'. split; [|exact Hc].
  apply process_loop_breaks; [apply first_round_test | exact Hb].
Qed.

Lemma stop_after_header limit thr dict now len crc ts tm tl l0 l1 sq c8 (part : list byte)
    out clk evs :
  crc8 [xa5; l0; l1; sq] crc8_default = byte_to_Z c8 ->
  (length part < 2 + Z.to_nat (unpack_H l0 l1) + 2)%nat ->
  exists tm' tl' evs',
    process_loop (S (length (xa5 :: l0 :: l1 :: sq :: c8 :: part))) (Some (S limit)) 0
      (mkTransceiver thr dict now WAITING_FOR_HEADER len crc ts tm tl
         (xa5 :: l0 :: l1 :: sq :: c8 :: part) out clk evs)
    = (Ok tt,
       mkTransceiver thr dict now READING_BODY (unpack_H l0 l1)
         (crc16 [xa5; l0; l1; sq; c8] crc16_default) (Some (now clk)) tm' tl' part out
         (S clk) evs') /\
    handler_calls evs' = handler_calls evs.
Proof.
  intros Hc8 Hshort.
  destruct (loop_body_header_read (Some (S limit)) 0 thr dict now len crc ts tm tl
              l0 l1 sq c8 part out clk evs eq_refl Hc8) as (tm' & tl' & evs' & Hb & Hc).
  exists tm', tl', evs'. split; [|exact Hc].
  apply process_loop_breaks; [apply first_round_test|].
  rewrite Hb. apply reading_body_waits. exact Hshort.
Qed.

(** X12. A package that arrives in two parts is handled exactly once:
    when the first [n] bytes of a package wait in the port, a capped
    [process_in] reads what it can use and returns without calling a
    handler; when the other bytes have arrived, the next capped
    [process_in] calls the handler with the message and the time read when
    the start byte arrived, and the receiver waits for a header with the
    port empty. This holds for every split point [n], also when the first
    part is empty or the whole package. *)
Theorem split_package_is_handled_once (msg : Msg) (seq_num : Z) (package : list byte)
    (handler : RxHandler Msg) (n limit1 limit2 : nat) t :
  package_of msg seq_num = Ok package ->
  _handler_dict t !! get_type_id msg = Some handler ->
  msg_parse handler (serialize msg) = Some msg ->
  _state t = WAITING_FOR_HEADER ->
  serial_in t = take n package ->
  let first := process_in (Some (S limit1)) t in
  let second := process_in (Some (S limit2)) (receive_bytes (drop n package) (snd first)) in
  fst first = Ok tt /\
  ((n < length package)%nat ->
     handler_calls (events (snd first)) = handler_calls (events t)) /\
  fst second = Ok tt /\
  handler_calls (events (snd second)) =
    handler_calls (events t) ++
    [(type_id handler, msg, _get_current_time t (clock_reads t))] /\
  _state (snd second) = WAITING_FOR_HEADER /\
  serial_in (snd second) = [].
Proof.
  intros Hpkg Hdict Hparse Hstate Hin.
  destruct (package_shape msg seq_num package Hpkg)
    as (l0 & l1 & sq & c8 & ty0 & ty1 & f0 & f1 & -> & Hlen & _ & Hc8 & Hty & Hf).
  symmetry in Hc8. rewrite <- Hty in Hdict.
  assert (Hparts : package_parts msg l0 l1 sq c8 ty0 ty1 f0 f1) by (repeat split; assumption).
  destruct t as [thr dict now st len crc ts tm tl input out clk evs].
  cbn [_handler_dict _state serial_in events _get_current_time clock_reads] in *.
  subst st input. cbv zeta. unfold process_in, in_waiting, receive_bytes.
  set (body := ty0 :: ty1 :: serialize msg ++ [f0; f1]).
  assert (Hbody : length body = (2 + Z.to_nat (unpack_H l0 l1) + 2)%nat).
  { subst body. rewrite Hlen, Nat2Z.id. cbn [length]. rewrite length_app. cbn [length]. lia. }
  destruct n as [|m].
  { (* nothing has arrived *)
    cbn [take drop]. fields_simpl. cbn [length]. rewrite process_loop_nothing_waiting.
    cbn [fst snd]. fields_simpl. cbn [app].
    destruct (finish_from_start msg l0 l1 sq c8 ty0 ty1 f0 f1 handler limit2 thr dict now
                len crc ts tm tl out clk evs Hparts Hdict Hparse)
      as (tm' & tl' & evs' & Hr & Hc).
    cbv zeta in Hr. subst body. rewrite Hr. cbn [fst snd]. fields_simpl.
    rewrite handler_calls_handle, Hc. repeat split; reflexivity. }
  cbn [take drop].
  destruct (Nat.lt_ge_cases m 4) as [Hlt|Hge].
  { (* the start byte and a part of the header have arrived *)
    set (rest := l0 :: l1 :: sq :: c8 :: body).
    destruct (stop_after_start limit1 thr dict now len crc ts tm tl (take m rest) out clk evs)
      as (tm' & tl' & evs' & Hr & Hc); [rewrite length_take; lia|].
    fields_simpl. rewrite Hr. cbn [fst snd]. fields_simpl. rewrite take_drop.
    pose proof (finish_from_header msg l0 l1 sq c8 ty0 ty1 f0 f1 handler limit2 thr dict now
                  len crc (now clk) tm' tl' out (S clk) evs' Hparts Hdict Hparse) as Hr2.
    cbv zeta in Hr2. subst rest body. rewrite Hr2. cbn [fst snd]. fields_simpl.
    rewrite handler_calls_handle, Hc. repeat split; reflexivity || assumption. }
  destruct m as [|[|[|[|j]]]]; try lia. clear Hge. cbn [take drop].
  destruct (Nat.lt_ge_cases j (length body)) as [Hlt|Hge].
  { (* the header and a part of the body have arrived *)
    destruct (stop_after_header limit1 thr dict now len crc ts tm tl l0 l1 sq c8
                (take j body) out clk evs Hc8)
      as (tm' & tl' & evs' & Hr & Hc); [rewrite length_take; lia|].
    fields_simpl. rewrite Hr. cbn [fst snd]. fields_simpl. rewrite take_drop.
    pose proof (finish_from_body msg l0 l1 sq c8 ty0 ty1 f0 f1 handler limit2 thr dict now
                  (now clk) tm' tl' out (S clk) evs' Hparts Hdict Hparse) as Hr2.
    cbv zeta in Hr2. subst body. rewrite Hr2. cbn [fst snd]. fields_simpl.
    rewrite handler_calls_handle, Hc. repeat split; reflexivity || assumption. }
  (* the whole package has arrived *)
  rewrite take_ge, drop_ge by exact Hge.
  destruct (finish_from_start msg l0 l1 sq c8 ty0 ty1 f0 f1 handler limit1 thr dict now
              len crc ts tm tl out clk evs Hparts Hdict Hparse)
    as (tm' & tl' & evs' & Hr & Hc).
  cbv zeta in Hr. fields_simpl. subst body. rewrite Hr. cbn [fst snd]. fields_simpl.
  cbn [app length]. rewrite process_loop_nothing_waiting. cbn [fst snd]. fields_simpl.
  rewrite handler_calls_handle, Hc. repeat split; try reflexivity.
  intros Hn. cbn [length] in Hn, Hge. lia.
Qed.

End Chunks.

Lemma split_package_is_handled_once_witness :
  let first := process_in (Some 1%nat) (receiver_with (take 3 small_package)) in
  let second := process_in (Some 1%nat) (receive_bytes (drop 3 small_package) (snd first)) in
  fst first = Ok tt /\
  ((3 < length small_package)%nat -> handler_calls (events (snd first)) = []) /\
  fst second = Ok tt /\
  handler_calls (events (snd second)) = [] ++ [(7, small_message, mkTimestamp 0)] /\
  _state (snd second) = WAITING_FOR_HEADER /\
  serial_in (snd second) = [].
Proof.
  refine (split_package_is_handled_once small_message 0 small_package raw_handler 3 0 0
            (receiver_with (take 3 small_package)) _ _ _ _ _).
  - exact small_package_sent.
  - reflexivity.
  - reflexivity.
  - reflexivity.
  - reflexivity.
Defined.
End UartChunks.

(** ** The persevering receiver *)

Module PerseveringProofs.
Import PerseveringReceiver.

Section Proofs.
Context {Child : Type}.
Variable child_process_in : option nat -> M Child unit.

Local Abbreviation receiver := (PerseveringReceiver Child).

Lemma process_loop_contract (fuel : nat) (max_packets : option nat) : forall r : receiver,
  (forall c s, fst (child_process_in c s) <> Raise OutOfFuel) ->
  (Z.to_nat (max_num_parse_errors r - error_counter r) < fuel)%nat ->
  let o := fst (process_loop child_process_in fuel max_packets r) in
  let r' := snd (process_loop child_process_in fuel max_packets r) in
  o <> Reraised MessageParseUnhandledError /\
  o <> Reraised OutOfFuel /\
  max_num_parse_errors r' = max_num_parse_errors r /\
  (o = TooManyParseErrors -> error_counter r' = 0) /\
  (o <> TooManyParseErrors ->
     error_counter r <= error_counter r' /\
     (error_counter r < max_num_parse_errors r ->
      error_counter r' < max_num_parse_errors r)).
Proof.
  induction fuel as [|fuel IH]; intros r Hchild Hfuel; [lia|].
  cbn [process_loop]. pose proof (Hchild max_packets (child_receiver r)) as Hc.
  destruct (child_process_in max_packets (child_receiver r)) as [[[]|e] child]; cbn [fst] in Hc.
  - cbn. repeat split; try discriminate; lia.
  - destruct e; try (cbn; repeat split; try discriminate; try congruence; lia).
    destruct (max_num_parse_errors r <=? error_counter r + 1) eqn:E.
    + cbn. repeat split; try discriminate; try congruence.
    + apply Z.leb_gt in E.
      specialize (IH (mkReceiver child (max_num_parse_errors r) (error_counter r + 1)) Hchild).
      cbn [max_num_parse_errors error_counter child_receiver] in IH.
      destruct IH as (H1 & H2 & H3 & H4 & H5); [lia|].
      cbv zeta. split; [exact H1|]. split; [exact H2|]. split; [exact H3|].
      split; [exact H4|]. intros Ho. destruct (H5 Ho) as [Ha Hb].
      split; [lia|]. intros _. apply Hb. lia.
Qed.


(** X13. What a call of the persevering receiver can do: it never hands a
    [MessageParseUnhandledError] of its child on as such (it calls the child
    again, or gives up with its own exception), and its loop always ends.
    When it gives up, [error_counter] is back at 0; otherwise the counter
    never goes down, also not when the child then returns normally, and
    stays below [max_num_parse_errors] if it was below. A child that returns
    at once makes the call return with the counter unchanged, and any other
    exception of the child is raised again with the counter unchanged. *)
Theorem persevering_receiver_contract (max_packets : option nat) (r : receiver) :
  (forall c s, fst (child_process_in c s) <> Raise OutOfFuel) ->
  let first := child_process_in max_packets (child_receiver r) in
  let o := fst (process_in child_process_in max_packets r) in
  let r' := snd (process_in child_process_in max_packets r) in
  o <> Reraised MessageParseUnhandledError /\
  o <> Reraised OutOfFuel /\
  max_num_parse_errors r' = max_num_parse_errors r /\
  (o = TooManyParseErrors -> error_counter r' = 0) /\
  (o <> TooManyParseErrors ->
     error_counter r <= error_counter r' /\
     (error_counter r < max_num_parse_errors r ->
      error_counter r' < max_num_parse_errors r)) /\
  (fst first = Ok tt ->
     o = Returned /\
     r' = mkReceiver (snd first) (max_num_parse_errors r) (error_counter r)) /\
  (forall e, fst first = Raise e -> e <> MessageParseUnhandledError ->
     o = Reraised e /\
     r' = mkReceiver (snd first) (max_num_parse_errors r) (error_counter r)).
Proof.
  intros Hchild. cbv zeta.
  destruct (process_loop_contract
              (S (Z.to_nat (max_num_parse_errors r - error_counter r))) max_packets r Hchild)
    as (H1 & H2 & H3 & H4 & H5); [lia|].
  cbv zeta in H1, H2, H3, H4, H5. unfold process_in.
  split; [exact H1|]. split; [exact H2|]. split; [exact H3|]. split; [exact H4|].
  split; [exact H5|]. cbn [process_loop].
  destruct (child_process_in max_packets (child_receiver r)) as [[[]|e] child]; cbn [fst snd].
  - split; [auto|]. intros e [=].
  - split; [intros [=]|]. intros e' [= <-] Hne.
    destruct e; try congruence; auto.
Qed.

End Proofs.

Lemma persevering_receiver_contract_witness :
  let r := init (receiver_with_failing_handler (small_package ++ small_package)) 2 in
  let first := Uart.process_in (Some 1%nat) (child_receiver r) in
  let o := fst (process_in Uart.process_in (Some 1%nat) r) in
  let r' := snd (process_in Uart.process_in (Some 1%nat) r) in
  o <> Reraised MessageParseUnhandledError /\
  o <> Reraised OutOfFuel /\
  max_num_parse_errors r' = 2 /\
  (o = TooManyParseErrors -> error_counter r' = 0) /\
  (o <> TooManyParseErrors ->
     0 <= error_counter r' /\ (0 < 2 -> error_counter r' < 2)) /\
  (fst first = Ok tt -> o = Returned /\ r' = mkReceiver (snd first) 2 0) /\
  (forall e, fst first = Raise e -> e <> MessageParseUnhandledError ->
     o = Reraised e /\ r' = mkReceiver (snd first) 2 0).
Proof.
  refine (persevering_receiver_contract Uart.process_in (Some 1%nat)
            (init (receiver_with_failing_handler (small_package ++ small_package)) 2) _).
  intros c s. apply UartProofs.process_in_total.
Defined.

End PerseveringProofs.

(** ** The persevering receiver over a transceiver *)

Module PerseveringUart.
Import Uart UartStream BytesProofs CrcProofs UartProofs UartLaws UartPackets.
Import PerseveringReceiver.

Section Proofs.
Context {Msg : Type} `{SerializableMessage Msg}.
Implicit Types (t : Transceiver Msg) (evs : list (event Msg)).

(** Every message has a handler under its type id whose message class
    cannot parse it. *)
Definition all_unparsable (dict : gmap Z (RxHandler Msg)) (msgs : list (Msg * Z)) : Prop :=
  forall msg seq_num, In (msg, seq_num) msgs ->
    exists handler,
      dict !! get_type_id msg = Some handler /\
      msg_parse handler (serialize msg) = None.

Lemma process_in_parse_failure (msg : Msg) (seq_num : Z) (package rest : list byte)
    (handler : RxHandler Msg) max_packets thr dict now len crc ts tm tl out clk evs :
  package_of msg seq_num = Ok package ->
  dict !! get_type_id msg = Some handler ->
  msg_parse handler (serialize msg) = None ->
  max_packets <> Some 0%nat ->
  exists tm' tl' evs',
    Uart.process_in max_packets
      (mkTransceiver thr dict now WAITING_FOR_HEADER len crc ts tm tl (package ++ rest)
         out clk evs)
    = (Raise MessageParseUnhandledError,
       mkTransceiver thr dict now WAITING_FOR_HEADER 0 0 (Some (now clk)) tm' tl' rest out
         (S clk) evs') /\
    handler_calls evs' = handler_calls evs.
Proof.
  intros Hpkg Hdict Hparse Hcap.
  pose proof (package_length msg seq_num package Hpkg) as Hlen.
  unfold Uart.process_in, in_waiting. cbn [serial_in].
  rewrite process_loop_step.
  assert (Htest : loop_test max_packets 0
            (mkTransceiver thr dict now WAITING_FOR_HEADER len crc ts tm tl (package ++ rest)
               out clk evs) = true).
  { apply below_limit_test.
    - destruct max_packets as [[|limit]|]; cbn; [congruence | lia | exact I].
    - cbn [serial_in]. intros E. apply (f_equal (@length byte)) in E.
      rewrite length_app in E. cbn in E. lia. }
  rewrite Htest. apply loop_test_within_limit in Htest.
  destruct (loop_body_package msg seq_num package max_packets 0 thr dict now len crc ts tm tl
              rest out clk evs Hpkg Htest) as (tm' & tl' & evs' & Hcalls & Hbody).
  exists tm', tl', evs'. rewrite Hbody, Hdict, Hparse. auto.
Qed.

Lemma process_in_nothing_waiting max_packets thr dict now len crc ts tm tl out clk evs :
  Uart.process_in max_packets
    (mkTransceiver thr dict now WAITING_FOR_HEADER len crc ts tm tl [] out clk evs)
  = (if is_blocking max_packets then Raise Blocked else Ok tt,
     mkTransceiver thr dict now WAITING_FOR_HEADER len crc ts tm tl [] out clk evs).
Proof. unfold Uart.process_in, in_waiting. cbn [serial_in length]. apply process_loop_drained. Qed.

Lemma persevere_stream (msgs : list (Msg * Z)) :
  forall fuel max_packets maximum counter thr dict now len crc ts tm tl stream out clk evs,
  stream_of msgs = Ok stream ->
  all_unparsable dict msgs ->
  max_packets <> Some 0%nat ->
  (Z.to_nat (maximum - counter) < fuel)%nat ->
  counter < maximum ->
  exists len' crc' ts' tm' tl' rest' evs',
    process_loop Uart.process_in fuel max_packets
      (mkReceiver
         (mkTransceiver thr dict now WAITING_FOR_HEADER len crc ts tm tl stream out clk evs)
         maximum counter)
    = (if counter + Z.of_nat (length msgs) <? maximum
       then if is_blocking max_packets then Reraised Blocked else Returned
       else TooManyParseErrors,
       mkReceiver
         (mkTransceiver thr dict now WAITING_FOR_HEADER len' crc' ts' tm' tl' rest' out
            (clk + Nat.min (length msgs) (Z.to_nat (maximum - counter))) evs')
         maximum
         (if counter + Z.of_nat (length msgs) <? maximum
          then counter + Z.of_nat (length msgs) else 0)) /\
    stream_of (drop (Z.to_nat (maximum - counter)) msgs) = Ok rest' /\
    handler_calls evs' = handler_calls evs.
Proof.
  induction msgs as [|[msg seq_num] rest IH];
    intros fuel max_packets maximum counter thr dict now len crc ts tm tl stream out clk evs
      Hstream Hall Hcap Hfuel Hlt.
  - cbn in Hstream. injection Hstream as <-.
    destruct fuel as [|fuel]; [lia|]. cbn [process_loop child_receiver].
    rewrite process_in_nothing_waiting.
    exists len, crc, ts, tm, tl, [], evs.
    cbn [length]. rewrite Z.add_0_r. apply Z.ltb_lt in Hlt. rewrite Hlt.
    rewrite drop_nil. cbn [Nat.min]. rewrite Nat.add_0_r.
    destruct max_packets; cbn [is_blocking max_num_parse_errors error_counter]; auto.
  - cbn [stream_of] in Hstream.
    destruct (package_of msg seq_num) as [package|e] eqn:Hpkg; [|discriminate].
    destruct (stream_of rest) as [stream'|e] eqn:Hrest; [|discriminate].
    injection Hstream as <-.
    destruct (Hall msg seq_num (or_introl eq_refl)) as (handler & Hdict & Hparse).
    destruct fuel as [|fuel]; [lia|]. cbn [process_loop child_receiver].
    destruct (process_in_parse_failure msg seq_num package stream' handler max_packets
                thr dict now len crc ts tm tl out clk evs Hpkg Hdict Hparse Hcap)
      as (tm1 & tl1 & evs1 & -> & Hc1).
    cbn [max_num_parse_errors error_counter].
    assert (Hk : Z.to_nat (maximum - counter) = S (Z.to_nat (maximum - (counter + 1)))) by lia.
    destruct (maximum <=? counter + 1) eqn:E.
    + apply Z.leb_le in E.
      assert (Hge : (counter + Z.of_nat (length ((msg, seq_num) :: rest)) <? maximum) = false)
        by (apply Z.ltb_ge; cbn [length]; lia).
      rewrite Hge.
      exists 0, 0, (Some (now clk)), tm1, tl1, stream', evs1.
      replace (Z.to_nat (maximum - counter)) with 1%nat by lia.
      cbn [drop length Nat.min]. rewrite Nat.min_0_r, Nat.add_1_r, drop_0. auto.
    + apply Z.leb_gt in E.
      assert (Hall' : all_unparsable dict rest)
        by (intros m s Hin; apply (Hall m s); right; exact Hin).
      destruct (IH fuel max_packets maximum (counter + 1) thr dict now 0 0 (Some (now clk))
                  tm1 tl1 stream' out (S clk) evs1 eq_refl Hall' Hcap)
        as (len' & crc' & ts' & tm' & tl' & rest' & evs' & -> & Hdrop & Hc'); [lia | lia |].
      exists len', crc', ts', tm', tl', rest', evs'.
      rewrite Hk. cbn [drop length]. rewrite Nat2Z.inj_succ.
      replace (counter + Z.succ (Z.of_nat (length rest)))
        with (counter + 1 + Z.of_nat (length rest)) by lia.
      replace (clk + Nat.min (S (length rest)) (S (Z.to_nat (maximum - (counter + 1)))))%nat
        with (S clk + Nat.min (length rest) (Z.to_nat (maximum - (counter + 1))))%nat
        by (cbn [Nat.min]; lia).
      split; [reflexivity|]. split; [exact Hdrop | congruence].
Qed.

(** X14. The persevering receiver over a transceiver skips packages that
    fail to parse: when the packages of [msgs] wait in the port and none of
    them can be parsed by its handler, a call with [error_counter] below
    [max_num_parse_errors] reads one package per parse error. With fewer
    packages than errors still allowed it reads them all, adds their number
    to the counter and returns (or waits in a blocking read); otherwise it
    gives up after [max_num_parse_errors - error_counter] packages with the
    counter back at 0, and the other packages are still in the port. No
    handler is called. *)
Theorem unparsable_packages_are_skipped (msgs : list (Msg * Z)) (stream : list byte)
    (max_packets : option nat) (r : PerseveringReceiver (Transceiver Msg)) :
  stream_of msgs = Ok stream ->
  serial_in (child_receiver r) = stream ->
  _state (child_receiver r) = WAITING_FOR_HEADER ->
  all_unparsable (_handler_dict (child_receiver r)) msgs ->
  max_packets <> Some 0%nat ->
  error_counter r < max_num_parse_errors r ->
  let outcome := process_in Uart.process_in max_packets r in
  let all_read := error_counter r + Z.of_nat (length msgs) <? max_num_parse_errors r in
  fst outcome =
    (if all_read
     then if is_blocking max_packets then Reraised Blocked else Returned
     else TooManyParseErrors) /\
  error_counter (snd outcome) =
    (if all_read then error_counter r + Z.of_nat (length msgs) else 0) /\
  stream_of (drop (Z.to_nat (max_num_parse_errors r - error_counter r)) msgs)
    = Ok (serial_in (child_receiver (snd outcome))) /\
  _state (child_receiver (snd outcome)) = WAITING_FOR_HEADER /\
  handler_calls (events (child_receiver (snd outcome)))
    = handler_calls (events (child_receiver r)).
Proof.
  intros Hstream Hin Hstate Hall Hcap Hlt. cbv zeta.
  destruct r as [[thr dict now st len crc ts tm tl input out clk evs] maximum counter].
  cbn [child_receiver max_num_parse_errors error_counter _state serial_in _handler_dict
       events] in *.
  subst st input. unfold process_in.
  cbn [child_receiver max_num_parse_errors error_counter].
  destruct (persevere_stream msgs (S (Z.to_nat (maximum - counter))) max_packets maximum
              counter thr dict now len crc ts tm tl stream out clk evs Hstream Hall Hcap)
    as (len' & crc' & ts' & tm' & tl' & rest' & evs' & -> & Hdrop & Hcalls); [lia | exact Hlt |].
  cbn [fst snd child_receiver error_counter serial_in _state events].
  repeat split; assumption.
Qed.

End Proofs.

Lemma unparsable_packages_are_skipped_witness :
  let r := mkReceiver (receiver_with_failing_handler (small_package ++ small_package ++ small_package)) 2 0 in
  let outcome := process_in Uart.process_in (Some 1%nat) r in
  let all_read := error_counter r + Z.of_nat (length [(small_message, 0); (small_message, 0); (small_message, 0)])
                  <? max_num_parse_errors r in
  fst outcome =
    (if all_read
     then if is_blocking (Some 1%nat) then Reraised Blocked else Returned
     else TooManyParseErrors) /\
  error_counter (snd outcome) =
    (if all_read then error_counter r + 3 else 0) /\
  stream_of (drop (Z.to_nat (max_num_parse_errors r - error_counter r))
               [(small_message, 0); (small_message, 0); (small_message, 0)])
    = Ok (serial_in (child_receiver (snd outcome))) /\
  _state (child_receiver (snd outcome)) = WAITING_FOR_HEADER /\
  handler_calls (events (child_receiver (snd outcome)))
    = handler_calls (events (child_receiver r)).
Proof.
  refine (unparsable_packages_are_skipped
            [(small_message, 0); (small_message, 0); (small_message, 0)]
            (small_package ++ small_package ++ small_package) (Some 1%nat)
            (mkReceiver (receiver_with_failing_handler
                           (small_package ++ small_package ++ small_package)) 2 0)
            _ _ _ _ _ _).
  - vm_compute. reflexivity.
  - reflexivity.
  - reflexivity.
  - intros msg seq_num Hin. exists failing_handler. split.
    + destruct Hin as [E|[E|[E|[]]]]; injection E as <- <-; reflexivity.
    + reflexivity.
  - discriminate.
  - cbn. lia.
Defined.
End PerseveringUart.

(** ** Corrupted packages *)

Module UartCorruption.
Import Uart UartStream BytesProofs CrcProofs UartProofs UartLaws UartPackets UartChunks.

#[local] Arguments crc8 : simpl never.
#[local] Arguments crc16 : simpl never.
#[local] Arguments unpack_H : simpl never.
#[local] Arguments byte_to_Z : simpl never.
#[local] Arguments bytes_eqb : simpl never.

Section Corruption.
Context {Msg : Type} `{SerializableMessage Msg}.
Implicit Types (t : Transceiver Msg) (evs : list (event Msg)).

(** *** Bytes that hold no frame reach no handler *)

Lemma holds_frame_suffix (pre input : list byte) :
  holds_frame (pre ++ input) = false -> holds_frame input = false.
Proof.
  induction pre as [|b pre IH]; [auto|].
  cbn [app holds_frame]. intros Hf. apply orb_false_elim in Hf. tauto.
Qed.

Lemma holds_frame_head (input : list byte) :
  holds_frame input = false -> frame_at_head input = false.
Proof.
  destruct input; [reflexivity|]. cbn [holds_frame]. intros Hf.
  apply orb_false_elim in Hf. tauto.
Qed.

Lemma start_byte_test (b : byte) : bytes_eqb [b] HEADER_START = false <-> b <> xa5.
Proof.
  split.
  - intros Hb ->. discriminate Hb.
  - intros Hb. destruct (bytes_eqb [b] HEADER_START) eqn:E; [|reflexivity].
    apply bytes_eqb_eq in E. unfold HEADER_START in E. congruence.
Qed.

Lemma serial_read_short (n : nat) thr dict now st len crc ts tm tl input out clk evs :
  (length input < n)%nat ->
  serial_read n (mkTransceiver thr dict now st len crc ts tm tl input out clk evs)
  = (Raise Blocked, mkTransceiver thr dict now st len crc ts tm tl input out clk evs).
Proof.
  intros Hshort. unfold serial_read. fields_simpl.
  apply Nat.ltb_lt in Hshort. rewrite Hshort. reflexivity.
Qed.

Lemma serial_read_enough (n : nat) thr dict now st len crc ts tm tl input out clk evs :
  (n <= length input)%nat ->
  serial_read n (mkTransceiver thr dict now st len crc ts tm tl input out clk evs)
  = (Ok (take n input),
     mkTransceiver thr dict now st len crc ts tm tl (drop n input) out clk evs).
Proof.
  intros Hlong. unfold serial_read. fields_simpl.
  apply Nat.ltb_ge in Hlong. rewrite Hlong. reflexivity.
Qed.

(** Without a cap, a header block that finds too few bytes waits in its
    read. *)
Lemma reading_header_blocks num thr dict now st len crc ts tm tl input out clk evs :
  (length input < 4)%nat ->
  reading_header None num
    (mkTransceiver thr dict now st len crc ts tm tl input out clk evs)
  = (Raise Blocked, mkTransceiver thr dict now st len crc ts tm tl input out clk evs).
Proof.
  intros Hshort. unfold reading_header, bind, get, ret, serial_read, in_waiting, HEADER_SIZE.
  cbn [is_blocking negb andb]. cbv beta iota. fields_simpl.
  apply Nat.ltb_lt in Hshort. rewrite Hshort. reflexivity.
Qed.

Lemma loop_body_start_blocks num thr dict now len crc ts tm tl rest out clk evs :
  (length rest < 4)%nat ->
  exists tm' tl' evs',
    loop_body None num
      (mkTransceiver thr dict now WAITING_FOR_HEADER len crc ts tm tl (xa5 :: rest) out clk evs)
    = (Raise Blocked,
       mkTransceiver thr dict now READING_HEADER len crc (Some (now clk)) tm' tl' rest out
         (S clk) evs') /\
    handler_calls evs' = handler_calls evs.
Proof.
  intros Hshort.
  destruct (waiting_reads_start None thr dict now len crc ts tm tl rest out clk evs)
    as (tm' & tl' & evs' & Hw & Hc).
  exists tm', tl', evs'. split; [|exact Hc].
  rewrite loop_body_within_limit by exact I.
  cbn [in_state _state]. rewrite Hw. cbn [in_state _state].
  rewrite reading_header_blocks by exact Hshort. reflexivity.
Qed.

(** The body block calls no handler unless the bytes hold a body of the
    announced length whose footer matches the running CRC-16, and it hands
    over to a next round only with the receiver waiting for a header. *)
Lemma reading_body_outcome max_packets num thr dict now len crc ts tm tl input out clk evs :
  0 <= len ->
  let r := reading_body max_packets num
             (mkTransceiver thr dict now READING_BODY len crc ts tm tl input out clk evs) in
  (handler_calls (events (snd r)) = handler_calls evs \/
   exists f0 f1 rest,
     drop (2 + Z.to_nat len) input = f0 :: f1 :: rest /\
     crc16 (take (2 + Z.to_nat len) input) crc = unpack_H f0 f1) /\
  (forall num', fst r = Ok (Continue num') ->
     _state (snd r) = WAITING_FOR_HEADER /\ exists pre, input = pre ++ serial_in (snd r)).
Proof.
  intros Hlen. cbv zeta.
  destruct (Nat.lt_ge_cases (length input) (2 + Z.to_nat len + 2)) as [Hshort|Hfull].
  - (* too few bytes *)
    destruct max_packets as [limit|].
    + rewrite reading_body_waits by exact Hshort. cbn [fst snd events].
      split; [left; reflexivity | intros ? [=]].
    + unfold reading_body, bind, get, ret, in_waiting, MSG_TYPE_SIZE, FOOTER_SIZE.
      cbn [is_blocking negb andb]. cbv beta iota zeta. fields_simpl.
      destruct (Nat.lt_ge_cases (length input) 2) as [E1|E1];
        [rewrite serial_read_short by exact E1; cbn [fst snd events];
         split; [left; reflexivity | intros ? [=]]|].
      rewrite serial_read_enough by exact E1. cbv beta iota. fields_simpl.
      destruct (Nat.lt_ge_cases (length (drop 2 input)) (Z.to_nat len)) as [E2|E2];
        [rewrite serial_read_short by exact E2; cbn [fst snd events];
         split; [left; reflexivity | intros ? [=]]|].
      rewrite serial_read_enough by exact E2. cbv beta iota. fields_simpl.
      destruct (Nat.lt_ge_cases (length (drop (Z.to_nat len) (drop 2 input))) 2) as [E3|E3];
        [rewrite serial_read_short by exact E3; cbn [fst snd events];
         split; [left; reflexivity | intros ? [=]]|].
      exfalso. rewrite !length_drop in *. lia.
  - (* a whole body *)
    destruct input as [|ty0 [|ty1 rest]]; cbn [length] in Hfull; try lia.
    set (n := Z.to_nat len) in *.
    change (2 + n)%nat with (S (S n)). cbn [take drop firstn skipn].
    destruct (drop n rest) as [|f0 [|f1 rest3]] eqn:Ed;
      try (apply (f_equal (@length byte)) in Ed; rewrite length_drop in Ed;
           cbn [length] in Ed; lia).
    assert (Hrest : rest = take n rest ++ f0 :: f1 :: rest3)
      by (rewrite <- Ed; symmetry; apply take_drop).
    assert (Hdata : length (take n rest) = n) by (rewrite length_take; lia).
    assert (Hl : len = Z.of_nat (length (take n rest))) by (rewrite Hdata; subst n; lia).
    set (data := take n rest) in *. clearbody data n.
    rewrite Hrest, Hl. clear Hrest Hl Ed.
    rewrite reading_body_reads. cbv zeta.
    destruct (negb (crc16 (ty0 :: ty1 :: data) crc =? unpack_H f0 f1)) eqn:E.
    + cbn [fst snd events _state serial_in]. split.
      * left. apply handler_calls_log. discriminate.
      * intros num' _. split; [reflexivity|].
        exists (ty0 :: ty1 :: data ++ [f0; f1]). cbn [app]. rewrite <- app_assoc. reflexivity.
    + apply negb_false_iff, Z.eqb_eq in E. split.
      * right. exists f0, f1, rest3. split; [reflexivity | exact E].
      * intros num' Hc.
        assert (Hpre : ty0 :: ty1 :: data ++ f0 :: f1 :: rest3
                       = (ty0 :: ty1 :: data ++ [f0; f1]) ++ rest3)
          by (cbn [app]; rewrite <- app_assoc; reflexivity).
        destruct (dict !! unpack_H ty0 ty1) as [handler|].
        -- destruct (msg_parse handler data); [|discriminate Hc].
           destruct ts; [|discriminate Hc].
           cbn [fst snd _state serial_in]. split; [reflexivity|]. eexists. exact Hpre.
        -- cbn [fst snd _state serial_in]. split; [reflexivity|]. eexists. exact Hpre.
Qed.

(** One round from a receiver that waits for a header, on bytes that do
    not start with a well-formed frame. *)
Lemma loop_body_frame_free max_packets num thr dict now len crc ts tm tl input out clk evs :
  within_limit max_packets num ->
  frame_at_head input = false ->
  let r := loop_body max_packets num
             (mkTransceiver thr dict now WAITING_FOR_HEADER len crc ts tm tl input out clk evs) in
  handler_calls (events (snd r)) = handler_calls evs /\
  (forall num', fst r = Ok (Continue num') ->
     _state (snd r) = WAITING_FOR_HEADER /\ exists pre, input = pre ++ serial_in (snd r)).
Proof.
  intros Hlim Hhead. cbv zeta.
  destruct input as [|b rest].
  { rewrite loop_body_empty by exact Hlim.
    destruct (is_blocking max_packets); cbn [fst snd events];
      (split; [reflexivity | intros ? [=]]). }
  destruct (bytes_eqb [b] HEADER_START) eqn:Eb.
  2:{ (* another byte than the start byte *)
      apply start_byte_test in Eb.
      destruct (loop_body_discards max_packets num thr dict now len crc ts tm tl b rest out
                  clk evs Hlim Eb) as (tm' & tl' & evs' & -> & Hc).
      cbn [fst snd events _state serial_in]. split; [exact Hc|].
      intros num' _. split; [reflexivity|]. exists [b]. reflexivity. }
  apply bytes_eqb_eq in Eb. unfold HEADER_START in Eb. injection Eb as ->.
  destruct (Nat.lt_ge_cases (length rest) 4) as [Hshort|Hlong].
  { (* the start byte and less than a header *)
    destruct max_packets as [limit|].
    - destruct (loop_body_start_only limit num thr dict now len crc ts tm tl rest out clk evs
                  Hlim Hshort) as (tm' & tl' & evs' & -> & Hc).
      cbn [fst snd events]. split; [exact Hc | intros ? [=]].
    - destruct (loop_body_start_blocks num thr dict now len crc ts tm tl rest out clk evs
                  Hshort) as (tm' & tl' & evs' & -> & Hc).
      cbn [fst snd events]. split; [exact Hc | intros ? [=]]. }
  destruct rest as [|l0 [|l1 [|sq [|c8 rest2]]]]; cbn [length] in Hlong; try lia.
  destruct (Z.eq_dec (crc8 [xa5; l0; l1; sq] crc8_default) (byte_to_Z c8)) as [Hc8|Hc8].
  2:{ (* the header is rejected *)
      destruct (loop_body_bad_header max_packets num thr dict now len crc ts tm tl
                  l0 l1 sq c8 rest2 out clk evs Hlim Hc8)
        as (len' & ts' & tm' & tl' & clk' & evs' & -> & Hc).
      cbn [fst snd events _state serial_in]. split; [exact Hc|].
      intros num' _. split; [reflexivity|]. exists [xa5; l0; l1; sq; c8]. reflexivity. }
  (* the header is accepted *)
  destruct (loop_body_header_read max_packets num thr dict now len crc ts tm tl
              l0 l1 sq c8 rest2 out clk evs Hlim Hc8) as (tm' & tl' & evs' & -> & Hc).
  pose proof (unpack_H_range l0 l1) as Hrange.
  destruct (reading_body_outcome max_packets num thr dict now (unpack_H l0 l1)
              (crc16 [xa5; l0; l1; sq; c8] crc16_default) (Some (now clk)) tm' tl' rest2 out
              (S clk) evs') as [[Hq|Hframe] Hres]; [lia| |].
  - split; [congruence|].
    intros num' Hcont. destruct (Hres num' Hcont) as [Hst [pre Hpre]].
    split; [exact Hst|]. exists (xa5 :: l0 :: l1 :: sq :: c8 :: pre).
    cbn [app]. rewrite <- Hpre. reflexivity.
  - exfalso. destruct Hframe as (f0 & f1 & rest3 & Hdrop & Hcrc).
    unfold frame_at_head, MSG_TYPE_SIZE, HEADER_START in Hhead. cbv zeta in Hhead.
    cbn [app] in Hhead.
    change (bytes_eqb [xa5] [xa5]) with true in Hhead.
    rewrite Hdrop, Hcrc, Hc8, !Z.eqb_refl in Hhead. discriminate.
Qed.

Lemma frame_free_no_calls (fuel : nat) : forall max_packets num t,
  _state t = WAITING_FOR_HEADER ->
  holds_frame (serial_in t) = false ->
  handler_calls (events (snd (process_loop fuel max_packets num t))) = handler_calls (events t).
Proof.
  induction fuel as [|fuel IH]; intros max_packets num t Hstate Hfree; [reflexivity|].
  rewrite process_loop_step.
  destruct (loop_test max_packets num t) eqn:Htest; [|reflexivity].
  apply loop_test_within_limit in Htest.
  destruct t as [thr dict now st len crc ts tm tl input out clk evs].
  cbn [_state serial_in events] in *. subst st.
  pose proof (loop_body_frame_free max_packets num thr dict now len crc ts tm tl input out
                clk evs Htest (holds_frame_head input Hfree)) as [Hq Hres].
  cbv zeta in Hq, Hres.
  destruct (loop_body max_packets num _) as [[[| |num']|e] t']; cbn [fst snd] in *;
    try exact Hq.
  destruct (Hres num' eq_refl) as [Hst [pre Hpre]].
  rewrite IH; [exact Hq | exact Hst |].
  apply (holds_frame_suffix pre). rewrite <- Hpre. exact Hfree.
Qed.

(** *** One byte of a package replaced *)

(** After a header that fails its CRC-8 the scan goes on behind the five
    header bytes. *)
Lemma rejected_header_no_calls fuel max_packets thr dict now len crc ts tm tl
    l0 l1 sq c8 (body : list byte) out clk evs :
  crc8 [xa5; l0; l1; sq] crc8_default <> byte_to_Z c8 ->
  holds_frame body = false ->
  handler_calls
    (events (snd (process_loop fuel max_packets 0
       (mkTransceiver thr dict now WAITING_FOR_HEADER len crc ts tm tl
          (xa5 :: l0 :: l1 :: sq :: c8 :: body) out clk evs))))
  = handler_calls evs.
Proof.
  intros Hcrc Hfree. destruct fuel as [|fuel]; [reflexivity|].
  rewrite process_loop_step.
  destruct (loop_test _ _ _) eqn:Htest; [|reflexivity].
  apply loop_test_within_limit in Htest.
  destruct (loop_body_bad_header max_packets 0 thr dict now len crc ts tm tl
              l0 l1 sq c8 body out clk evs Htest Hcrc)
    as (len' & ts' & tm' & tl' & clk' & evs' & -> & Hc).
  rewrite frame_free_no_calls; [exact Hc | reflexivity | exact Hfree].
Qed.

(** C4 (amended): when exactly one byte of a package is replaced by another
    value and the corrupted bytes wait in the port of a receiver that is
    waiting for a header, [process_in] calls no handler, provided the bytes
    of the package that the receiver scans anew after rejecting its header
    hold no well-formed frame of their own. A corruption behind the five
    header bytes is rejected by the CRC-16 with nothing scanned anew: no
    handler is called, the receiver is back waiting for a header and (unless
    the cap is 0) the port is empty. A corruption of a header byte is
    rejected by the CRC-8, and one of the start byte by the scan for it;
    the receiver then scans the remaining bytes of the package, where it
    may stop in the middle of what looks like a header or a body. *)
Theorem corrupted_package_rejected (msg : Msg) (seq_num : Z)
    (package : list byte) (i : nat) (b : byte) (max_packets : option nat) t :
  package_of msg seq_num = Ok package ->
  _state t = WAITING_FOR_HEADER ->
  (i < length package)%nat ->
  package !! i <> Some b ->
  serial_in t = <[i := b]> package ->
  holds_frame (rescanned i package) = false ->
  let outcome := process_in max_packets t in
  handler_calls (events (snd outcome)) = handler_calls (events t) /\
  ((5 <= i)%nat ->
     _state (snd outcome) = WAITING_FOR_HEADER /\
     (max_packets <> Some 0%nat -> serial_in (snd outcome) = [])) /\
  fst outcome <> Raise OutOfFuel.
Proof.
  intros Hpkg Hstate Hi Hne Hin Hfree. cbv zeta.
  split; [|split; [|apply process_in_total]].
  - (* no handler is called *)
    destruct (package_shape msg seq_num package Hpkg)
      as (l0 & l1 & sq & c8 & ty0 & ty1 & f0 & f1 & -> & Hlen & _ & Hc8 & Hty & Hf).
    destruct t as [thr dict now st len crc ts tm tl input out clk evs].
    cbn [_state serial_in events] in *. subst st input.
    unfold process_in, in_waiting. fields_simpl.
    set (body := ty0 :: ty1 :: serialize msg ++ [f0; f1]) in *.
    destruct i as [|i].
    { (* the start byte *)
      cbn [insert list_insert]. cbn in Hne.
      apply frame_free_no_calls; [reflexivity|]. fields_simpl.
      cbn [holds_frame]. apply orb_false_intro; [|exact Hfree].
      unfold frame_at_head.
      assert (Hb : bytes_eqb [b] HEADER_START = false) by (apply start_byte_test; congruence).
      rewrite Hb. reflexivity. }
    destruct i as [|[|[|[|j]]]]; cbn [insert list_insert]; cbn in Hne;
      cbn [rescanned Nat.eqb Nat.ltb Nat.leb drop skipn] in Hfree.
    + (* the low byte of the length *)
      apply rejected_header_no_calls; [|exact Hfree]. rewrite Hc8. intros Heq.
      apply (crc8_detects_one_byte [xa5] [l1; sq]) in Heq; [|exact crc8_default_range].
      congruence.
    + (* the high byte of the length *)
      apply rejected_header_no_calls; [|exact Hfree]. rewrite Hc8. intros Heq.
      apply (crc8_detects_one_byte [xa5; l0] [sq]) in Heq; [|exact crc8_default_range].
      congruence.
    + (* the sequence number *)
      apply rejected_header_no_calls; [|exact Hfree]. rewrite Hc8. intros Heq.
      apply (crc8_detects_one_byte [xa5; l0; l1] []) in Heq; [|exact crc8_default_range].
      congruence.
    + (* the CRC-8 *)
      apply rejected_header_no_calls; [|exact Hfree]. rewrite <- Hc8. intros Heq.
      apply byte_to_Z_inj in Heq. congruence.
    + (* behind the header *)
      subst body.
      destruct (corrupted_body_mismatch [xa5; l0; l1; sq; c8] ty0 ty1 (serialize msg) f0 f1 j b
                  Hf Hne) as (ty0' & ty1' & data' & f0' & f1' & Hshape & Hlen' & Hcrc).
      { cbn [length] in Hi |- *. lia. }
      repeat match goal with
      | |- context [@insert nat byte (list byte) ?inst j b ?l] =>
          progress change (@insert nat byte (list byte) inst j b l) with (<[j:=b]> l)
      end.
      rewrite Hshape. rewrite <- Hlen' in Hlen.
      cbn [length]. rewrite process_loop_step.
      destruct (loop_test _ _ _) eqn:Htest; [|reflexivity].
      apply loop_test_within_limit in Htest.
      destruct (loop_body_good_header max_packets 0 thr dict now len crc ts tm tl
                  l0 l1 sq c8 ty0' ty1' data' f0' f1' [] out clk evs Htest
                  (eq_sym Hc8) Hlen) as (tm' & tl' & evs' & -> & Hcalls).
      destruct (reading_body_rejects max_packets 0 thr dict now
                  (crc16 [xa5; l0; l1; sq; c8] crc16_default) (Some (now clk)) tm' tl'
                  ty0' ty1' data' f0' f1' [] out (S clk) evs' Hcrc)
        as (crc' & evs'' & -> & Hcalls').
      rewrite frame_free_no_calls; [cbn [events]; congruence | reflexivity | reflexivity].
  - (* behind the header: the receiver is back waiting *)
    intros Hbehind.
    destruct (package_shape msg seq_num package Hpkg)
      as (l0 & l1 & sq & c8 & ty0 & ty1 & f0 & f1 & -> & Hlen & _ & Hc8 & Hty & Hf).
    destruct t as [thr dict now st len crc ts tm tl input out clk evs].
    cbn [_state serial_in events] in *. subst st input.
    unfold process_in, in_waiting. fields_simpl.
    destruct i as [|[|[|[|[|j]]]]]; try lia. cbn [insert list_insert]. cbn in Hne.
    destruct (corrupted_body_mismatch [xa5; l0; l1; sq; c8] ty0 ty1 (serialize msg) f0 f1 j b
                Hf Hne) as (ty0' & ty1' & data' & f0' & f1' & Hshape & Hlen' & Hcrc).
    { cbn [length] in Hi |- *. lia. }
    repeat match goal with
    | |- context [@insert nat byte (list byte) ?inst j b ?l] =>
        progress change (@insert nat byte (list byte) inst j b l) with (<[j:=b]> l)
    end.
    rewrite Hshape. rewrite <- Hlen' in Hlen.
    cbn [length]. rewrite process_loop_step.
    destruct (loop_test _ _ _) eqn:Htest.
    2:{ cbn [snd _state serial_in]. split; [reflexivity|]. intros Hcap.
        destruct max_packets as [[|limit]|]; [congruence | discriminate Htest
                                                 | discriminate Htest]. }
    apply loop_test_within_limit in Htest.
    destruct (loop_body_good_header max_packets 0 thr dict now len crc ts tm tl
                l0 l1 sq c8 ty0' ty1' data' f0' f1' [] out clk evs Htest
                (eq_sym Hc8) Hlen) as (tm' & tl' & evs' & -> & Hcalls).
    destruct (reading_body_rejects max_packets 0 thr dict now
                (crc16 [xa5; l0; l1; sq; c8] crc16_default) (Some (now clk)) tm' tl'
                ty0' ty1' data' f0' f1' [] out (S clk) evs' Hcrc)
      as (crc' & evs'' & -> & Hcalls').
    rewrite process_loop_drained. cbn [snd _state serial_in]. auto.
Qed.

End Corruption.

Lemma corrupted_package_rejected_witness :
  let outcome := process_in (Some 1%nat) (receiver_with (<[1%nat := x00]> small_package)) in
  handler_calls (events (snd outcome)) = [] /\
  ((5 <= 1)%nat ->
     _state (snd outcome) = WAITING_FOR_HEADER /\
     (Some 1%nat <> Some 0%nat -> serial_in (snd outcome) = [])) /\
  fst outcome <> Raise OutOfFuel.
Proof.
  refine (corrupted_package_rejected small_message 0 small_package 1 x00 (Some 1%nat)
            (receiver_with (<[1%nat := x00]> small_package)) _ _ _ _ _ _).
  - exact small_package_sent.
  - reflexivity.
  - cbn. lia.
  - cbn. discriminate.
  - reflexivity.
  - vm_compute. reflexivity.
Defined.
End UartCorruption.

